(** * The AO loop window of shesha ([shesha/widgets/widget_ao.py])

    A shallow embedding of the class [widgetAOWindow]: the Python attributes
    of the window, the state of the Qt widgets it reads and writes, and the
    external simulation supervisor it calls into.  Methods are computations
    in a state-and-exception monad over the window; the supervisor, numpy and
    the helpers of the repository that live in other files are taken through
    an interface, so every theorem holds for any supervisor.

    Floating-point numbers (times, Strehl ratios) are idealised as rationals;
    their formatting is part of the interface. *)

From Stdlib Require Import ZArith QArith List String Ascii Bool Lia.
From Stdlib Require Import Decimal DecimalString DecimalNat.
Import ListNotations.

Local Open Scope list_scope.

(** ** Python values: exceptions and results *)

Inductive exn : Type :=
| KeyError (key : string)
| IndexError
| ValueError
| TypeError
| AttributeError
| NameError (name : string)
| ZeroDivisionError
| ExternalError (msg : string).

Inductive result (A : Type) : Type :=
| Ok (a : A)
| Raise (e : exn).
Arguments Ok {A} a.
Arguments Raise {A} e.

Definition is_ok {A} (r : result A) : bool :=
  match r with Ok _ => true | Raise _ => false end.

(** ** Python strings *)

Module PyStr.

Definition chars := list ascii.

Fixpoint starts_with (p s : chars) : bool :=
  match p, s with
  | [], _ => true
  | _ :: _, [] => false
  | a :: p', b :: s' => Ascii.eqb a b && starts_with p' s'
  end.

(** [p in s] on strings: [p] occurs at some position of [s]. *)
Fixpoint occurs (p s : chars) : bool :=
  starts_with p s ||
  match s with
  | [] => false
  | _ :: s' => occurs p s'
  end.

Definition contains (p s : string) : bool :=
  occurs (list_ascii_of_string p) (list_ascii_of_string s).

(** [s.split(sep)[-1]] for a one-character separator: what follows the
    last separator, the whole string when there is none. *)
Fixpoint last_field_from (sep : ascii) (acc s : chars) : chars :=
  match s with
  | [] => acc
  | c :: s' =>
      if Ascii.eqb c sep then last_field_from sep s' s'
      else last_field_from sep acc s'
  end.

Definition last_field (sep : ascii) (s : chars) : chars :=
  last_field_from sep s s.

(** [s.split(sep)] for a one-character separator. *)
Fixpoint split_on (sep : ascii) (cur : chars) (s : chars) : list chars :=
  match s with
  | [] => [List.rev cur]
  | c :: s' =>
      if Ascii.eqb c sep then List.rev cur :: split_on sep [] s'
      else split_on sep (c :: cur) s'
  end.

Definition split (sep : ascii) (s : string) : list chars :=
  split_on sep [] (list_ascii_of_string s).

Definition is_space (c : ascii) : bool :=
  let n := nat_of_ascii c in
  (n =? 32)%nat || ((9 <=? n)%nat && (n <=? 13)%nat).

Definition is_digit (c : ascii) : bool :=
  let n := nat_of_ascii c in (48 <=? n)%nat && (n <=? 57)%nat.

Fixpoint lstrip (s : chars) : chars :=
  match s with
  | c :: s' => if is_space c then lstrip s' else s
  | [] => []
  end.

Definition strip (s : chars) : chars :=
  List.rev (lstrip (List.rev (lstrip s))).

(** The value of a run of decimal digits, most significant first. *)
Fixpoint digits_value (acc : Z) (s : chars) : option Z :=
  match s with
  | [] => Some acc
  | c :: s' =>
      if is_digit c
      then digits_value (10 * acc + (Z.of_nat (nat_of_ascii c) - 48)) s'
      else None
  end.

Definition unsigned_of (d : chars) : result Z :=
  match d with
  | [] => Raise ValueError
  | _ :: _ =>
      match digits_value 0 d with
      | Some z => Ok z
      | None => Raise ValueError
      end
  end.

(** [int(s)] on an ASCII string: surrounding white space, an optional sign
    and at least one decimal digit; anything else is a [ValueError]. *)
Definition int_of (s : chars) : result Z :=
  match strip s with
  | "+"%char :: d => unsigned_of d
  | "-"%char :: d =>
      match unsigned_of d with
      | Ok z => Ok (- z)%Z
      | Raise e => Raise e
      end
  | d => unsigned_of d
  end.

(** ["%d" % n] for a natural number and for an integer. *)
Definition dec (n : nat) : string :=
  NilEmpty.string_of_uint (Nat.to_uint n).

Definition dec_Z (z : Z) : string :=
  match z with
  | Zneg p => String "-"%char (dec (Pos.to_nat p))
  | _ => dec (Z.to_nat z)
  end.

(** [int(key.split("_")[-1])] *)
Definition index_of_key (key : string) : result Z :=
  int_of (last_field "_"%char (list_ascii_of_string key)).

End PyStr.

(** ** Python containers *)

(** [collections.deque(maxlen=n)]: appending to a full deque discards
    items from the left. *)
Record deque (A : Type) : Type := mkDeque {
  maxlen : nat;
  items : list A
}.
Arguments mkDeque {A} maxlen items.
Arguments maxlen {A} d.
Arguments items {A} d.

Definition deque_new {A} (n : nat) : deque A := mkDeque n [].

Definition deque_append {A} (x : A) (d : deque A) : deque A :=
  let l := items d ++ [x] in
  mkDeque (maxlen d) (skipn (List.length l - maxlen d) l).

Definition deque_len {A} (d : deque A) : nat := List.length (items d).

(** A [dict] with string keys, in insertion order. *)
Definition dict (V : Type) : Type := list (string * V).

Fixpoint dict_get {V} (k : string) (d : dict V) : option V :=
  match d with
  | [] => None
  | (k', v) :: d' => if String.eqb k k' then Some v else dict_get k d'
  end.

Fixpoint dict_set {V} (k : string) (v : V) (d : dict V) : dict V :=
  match d with
  | [] => [(k, v)]
  | (k', v') :: d' =>
      if String.eqb k k' then (k', v) :: d' else (k', v') :: dict_set k v d'
  end.

Definition dict_keys {V} (d : dict V) : list string := map fst d.

(** [d[k]] *)
Definition dict_item {V} (k : string) (d : dict V) : result V :=
  match dict_get k d with
  | Some v => Ok v
  | None => Raise (KeyError k)
  end.

(** [l[i]] with Python's negative indices. *)
Definition py_index {A} (l : list A) (i : Z) : result A :=
  let n := Z.of_nat (List.length l) in
  let j := if (i <? 0)%Z then (i + n)%Z else i in
  if ((0 <=? j) && (j <? n))%Z
  then match nth_error l (Z.to_nat j) with
       | Some a => Ok a
       | None => Raise IndexError
       end
  else Raise IndexError.

(** [l[:i]] with Python's negative and out-of-range bounds. *)
Definition py_slice_to {A} (l : list A) (i : Z) : list A :=
  let n := Z.of_nat (List.length l) in
  let j := if (i <? 0)%Z then Z.max 0 (i + n) else Z.min i n in
  firstn (Z.to_nat j) l.

Definition sum_Z (l : list Z) : Z := fold_left Z.add l 0%Z.

(** [range(n)] *)
Definition range (n : nat) : list nat := seq 0 n.

(** Strict comparison of two rationals. *)
Definition Qlt_bool (a b : Q) : bool := negb (Qle_bool b a).

(** [a / b] on floats: division by zero raises. *)
Definition float_div (a b : Q) : result Q :=
  if Qeq_bool b 0 then Raise ZeroDivisionError else Ok (a / b)%Q.

(** ** The configuration read from the supervisor *)

(** The wavefront-sensor kinds of [scons.WFSType]; any other string is an
    unknown analyser. *)
Inductive WFSType : Type :=
| SH
| PYRHR
| PYRLR
| OtherWFS (name : string).

Definition is_SH (t : WFSType) : bool :=
  match t with SH => true | _ => false end.

Definition is_pyr (t : WFSType) : bool :=
  match t with PYRHR | PYRLR => true | _ => false end.

Record WfsParam : Type := mkWfsParam {
  wfs_type : WFSType;
  nxsub : Z;
  nvalid : Z
}.

Record DmParam : Type := mkDmParam {
  dm_type : string;
  dm_alt : Q
}.

Definition TargetParam : Type := unit.

Record Config : Type := mkConfig {
  p_atmos_alt : list Q;
  p_wfss : list WfsParam;
  p_dms : list DmParam;
  p_targets : list TargetParam;
  p_tel_cobs : Q;
  p_loop_devices : list Z;
  layout : option string
}.

Definition set_p_loop_devices (l : list Z) (c : Config) : Config :=
  mkConfig (p_atmos_alt c) (p_wfss c) (p_dms c) (p_targets c) (p_tel_cobs c)
    l (layout c).

(** ** Docks, images and view boxes *)

(** The menus a display check box is added to. *)
Inductive Group : Type :=
| wao_phasesgroup_cb
| wao_graphgroup_cb
| wao_imagesgroup_cb.

(** A plot item laid over an image, known by its identity. *)
Definition Item : Type := nat.

Record Dock : Type := mkDock {
  isVisible : bool;
  dock_widgets : list string
}.

Record ViewBox : Type := mkViewBox {
  vb_items : list Item;
  vb_range : option ((Q * Q) * (Q * Q))
}.

Fixpoint remove_first (i : Item) (l : list Item) : list Item :=
  match l with
  | [] => []
  | j :: l' => if Nat.eqb i j then l' else j :: remove_first i l'
  end.

(** [viewbox.removeItem(item)] *)
Definition removeItem (i : Item) (v : ViewBox) : ViewBox :=
  mkViewBox (remove_first i (vb_items v)) (vb_range v).

(** [viewbox.setRange(xRange=..., yRange=...)] *)
Definition setRange (xr yr : Q * Q) (v : ViewBox) : ViewBox :=
  mkViewBox (vb_items v) (Some (xr, yr)).

(** The calls the window makes on the supervisor. *)
Inductive SupCall : Type :=
| Call_CompassSupervisor
| Call_loadConfig (configFile : string)
| Call_getConfig
| Call_isInit
| Call_enableAtmos (atmos : bool)
| Call_resetStrehl (t : Z)
| Call_closeLoop
| Call_openLoop
| Call_singleNext (showAtmos : bool)
| Call_comp_image (t : nat)
| Call_getStrehl (t : Z)
| Call_getFrameCounter
| Call_getAtmScreen (i : Z)
| Call_getWfsPhase (i : Z)
| Call_getDmShape (i : Z)
| Call_getTarPhase (i : Z)
| Call_getTarImage (i : Z) (kind : string)
| Call_getWfsImage (i : Z)
| Call_getPyrHRImage (i : Z)
| Call_getPyrFocalPlane (i : Z)
| Call_getSlopeGeom (i : Z)
| Call_getSlope.

(** The types of the values that come from outside: the supervisor object,
    the frame buffers and slope vectors it hands out (numpy arrays), and
    the mesh-and-vector tuples [plsh] prepares for a quiver plot. *)
Class Domain : Type := {
  Sup : Type;
  frame : Type;
  slopes : Type;
  quiver : Type
}.

(** The widgets of [self.uiAO] the window reads or writes. *)
Record UiAO : Type := mkUiAO {
  wao_nbiters : Z;  (* value of the iteration-count box *)
  wao_run_checked : bool;
  wao_forever : bool;
  wao_allTarget : bool;
  wao_resetSR_tarNum : Z;
  wao_resetSR_tarNum_max : Z;
  wao_resetSR_tarNum_disabled : bool;
  wao_nbiters_disabled : bool;
  wao_dispSR_tar : Z;
  wao_dispSR_tar_max : Z;
  wao_openLoop_text : string;
  wao_strehlSE : string;
  wao_strehlLE : string;
  wao_currentFreq : Q;
  actionPSF_Log_Scale : bool;
  wao_run_disabled : bool;
  wao_next_disabled : bool;
  wao_unzoom_disabled : bool;
  wao_resetSR_disabled : bool
}.

(** The widgets of [self.uiBase] the window reads or writes. *)
Record UiBase : Type := mkUiBase {
  wao_frameRate : Q;
  wao_init_disabled : bool;
  wao_selectConfig : string  (* current text of the configuration box *)
}.

Definition set_wao_nbiters (v : Z) (u : UiAO) : UiAO :=
  mkUiAO v (wao_run_checked u) (wao_forever u) (wao_allTarget u)
    (wao_resetSR_tarNum u) (wao_resetSR_tarNum_max u)
    (wao_resetSR_tarNum_disabled u) (wao_nbiters_disabled u) (wao_dispSR_tar
    u) (wao_dispSR_tar_max u) (wao_openLoop_text u) (wao_strehlSE u)
    (wao_strehlLE u) (wao_currentFreq u) (actionPSF_Log_Scale u)
    (wao_run_disabled u) (wao_next_disabled u) (wao_unzoom_disabled u)
    (wao_resetSR_disabled u).

Definition set_wao_run_checked (v : bool) (u : UiAO) : UiAO :=
  mkUiAO (wao_nbiters u) v (wao_forever u) (wao_allTarget u)
    (wao_resetSR_tarNum u) (wao_resetSR_tarNum_max u)
    (wao_resetSR_tarNum_disabled u) (wao_nbiters_disabled u) (wao_dispSR_tar
    u) (wao_dispSR_tar_max u) (wao_openLoop_text u) (wao_strehlSE u)
    (wao_strehlLE u) (wao_currentFreq u) (actionPSF_Log_Scale u)
    (wao_run_disabled u) (wao_next_disabled u) (wao_unzoom_disabled u)
    (wao_resetSR_disabled u).

Definition set_wao_resetSR_tarNum (v : Z) (u : UiAO) : UiAO :=
  mkUiAO (wao_nbiters u) (wao_run_checked u) (wao_forever u) (wao_allTarget
    u) v (wao_resetSR_tarNum_max u) (wao_resetSR_tarNum_disabled u)
    (wao_nbiters_disabled u) (wao_dispSR_tar u) (wao_dispSR_tar_max u)
    (wao_openLoop_text u) (wao_strehlSE u) (wao_strehlLE u) (wao_currentFreq
    u) (actionPSF_Log_Scale u) (wao_run_disabled u) (wao_next_disabled u)
    (wao_unzoom_disabled u) (wao_resetSR_disabled u).

Definition set_wao_resetSR_tarNum_max (v : Z) (u : UiAO) : UiAO :=
  mkUiAO (wao_nbiters u) (wao_run_checked u) (wao_forever u) (wao_allTarget
    u) (wao_resetSR_tarNum u) v (wao_resetSR_tarNum_disabled u)
    (wao_nbiters_disabled u) (wao_dispSR_tar u) (wao_dispSR_tar_max u)
    (wao_openLoop_text u) (wao_strehlSE u) (wao_strehlLE u) (wao_currentFreq
    u) (actionPSF_Log_Scale u) (wao_run_disabled u) (wao_next_disabled u)
    (wao_unzoom_disabled u) (wao_resetSR_disabled u).

Definition set_wao_resetSR_tarNum_disabled (v : bool) (u : UiAO) : UiAO :=
  mkUiAO (wao_nbiters u) (wao_run_checked u) (wao_forever u) (wao_allTarget
    u) (wao_resetSR_tarNum u) (wao_resetSR_tarNum_max u) v
    (wao_nbiters_disabled u) (wao_dispSR_tar u) (wao_dispSR_tar_max u)
    (wao_openLoop_text u) (wao_strehlSE u) (wao_strehlLE u) (wao_currentFreq
    u) (actionPSF_Log_Scale u) (wao_run_disabled u) (wao_next_disabled u)
    (wao_unzoom_disabled u) (wao_resetSR_disabled u).

Definition set_wao_nbiters_disabled (v : bool) (u : UiAO) : UiAO :=
  mkUiAO (wao_nbiters u) (wao_run_checked u) (wao_forever u) (wao_allTarget
    u) (wao_resetSR_tarNum u) (wao_resetSR_tarNum_max u)
    (wao_resetSR_tarNum_disabled u) v (wao_dispSR_tar u) (wao_dispSR_tar_max
    u) (wao_openLoop_text u) (wao_strehlSE u) (wao_strehlLE u)
    (wao_currentFreq u) (actionPSF_Log_Scale u) (wao_run_disabled u)
    (wao_next_disabled u) (wao_unzoom_disabled u) (wao_resetSR_disabled u).

Definition set_wao_dispSR_tar (v : Z) (u : UiAO) : UiAO :=
  mkUiAO (wao_nbiters u) (wao_run_checked u) (wao_forever u) (wao_allTarget
    u) (wao_resetSR_tarNum u) (wao_resetSR_tarNum_max u)
    (wao_resetSR_tarNum_disabled u) (wao_nbiters_disabled u) v
    (wao_dispSR_tar_max u) (wao_openLoop_text u) (wao_strehlSE u)
    (wao_strehlLE u) (wao_currentFreq u) (actionPSF_Log_Scale u)
    (wao_run_disabled u) (wao_next_disabled u) (wao_unzoom_disabled u)
    (wao_resetSR_disabled u).

Definition set_wao_dispSR_tar_max (v : Z) (u : UiAO) : UiAO :=
  mkUiAO (wao_nbiters u) (wao_run_checked u) (wao_forever u) (wao_allTarget
    u) (wao_resetSR_tarNum u) (wao_resetSR_tarNum_max u)
    (wao_resetSR_tarNum_disabled u) (wao_nbiters_disabled u) (wao_dispSR_tar
    u) v (wao_openLoop_text u) (wao_strehlSE u) (wao_strehlLE u)
    (wao_currentFreq u) (actionPSF_Log_Scale u) (wao_run_disabled u)
    (wao_next_disabled u) (wao_unzoom_disabled u) (wao_resetSR_disabled u).

Definition set_wao_openLoop_text (v : string) (u : UiAO) : UiAO :=
  mkUiAO (wao_nbiters u) (wao_run_checked u) (wao_forever u) (wao_allTarget
    u) (wao_resetSR_tarNum u) (wao_resetSR_tarNum_max u)
    (wao_resetSR_tarNum_disabled u) (wao_nbiters_disabled u) (wao_dispSR_tar
    u) (wao_dispSR_tar_max u) v (wao_strehlSE u) (wao_strehlLE u)
    (wao_currentFreq u) (actionPSF_Log_Scale u) (wao_run_disabled u)
    (wao_next_disabled u) (wao_unzoom_disabled u) (wao_resetSR_disabled u).

Definition set_wao_strehlSE (v : string) (u : UiAO) : UiAO :=
  mkUiAO (wao_nbiters u) (wao_run_checked u) (wao_forever u) (wao_allTarget
    u) (wao_resetSR_tarNum u) (wao_resetSR_tarNum_max u)
    (wao_resetSR_tarNum_disabled u) (wao_nbiters_disabled u) (wao_dispSR_tar
    u) (wao_dispSR_tar_max u) (wao_openLoop_text u) v (wao_strehlLE u)
    (wao_currentFreq u) (actionPSF_Log_Scale u) (wao_run_disabled u)
    (wao_next_disabled u) (wao_unzoom_disabled u) (wao_resetSR_disabled u).

Definition set_wao_strehlLE (v : string) (u : UiAO) : UiAO :=
  mkUiAO (wao_nbiters u) (wao_run_checked u) (wao_forever u) (wao_allTarget
    u) (wao_resetSR_tarNum u) (wao_resetSR_tarNum_max u)
    (wao_resetSR_tarNum_disabled u) (wao_nbiters_disabled u) (wao_dispSR_tar
    u) (wao_dispSR_tar_max u) (wao_openLoop_text u) (wao_strehlSE u) v
    (wao_currentFreq u) (actionPSF_Log_Scale u) (wao_run_disabled u)
    (wao_next_disabled u) (wao_unzoom_disabled u) (wao_resetSR_disabled u).

Definition set_wao_currentFreq (v : Q) (u : UiAO) : UiAO :=
  mkUiAO (wao_nbiters u) (wao_run_checked u) (wao_forever u) (wao_allTarget
    u) (wao_resetSR_tarNum u) (wao_resetSR_tarNum_max u)
    (wao_resetSR_tarNum_disabled u) (wao_nbiters_disabled u) (wao_dispSR_tar
    u) (wao_dispSR_tar_max u) (wao_openLoop_text u) (wao_strehlSE u)
    (wao_strehlLE u) v (actionPSF_Log_Scale u) (wao_run_disabled u)
    (wao_next_disabled u) (wao_unzoom_disabled u) (wao_resetSR_disabled u).

Definition set_wao_run_disabled (v : bool) (u : UiAO) : UiAO :=
  mkUiAO (wao_nbiters u) (wao_run_checked u) (wao_forever u) (wao_allTarget
    u) (wao_resetSR_tarNum u) (wao_resetSR_tarNum_max u)
    (wao_resetSR_tarNum_disabled u) (wao_nbiters_disabled u) (wao_dispSR_tar
    u) (wao_dispSR_tar_max u) (wao_openLoop_text u) (wao_strehlSE u)
    (wao_strehlLE u) (wao_currentFreq u) (actionPSF_Log_Scale u) v
    (wao_next_disabled u) (wao_unzoom_disabled u) (wao_resetSR_disabled u).

Definition set_wao_next_disabled (v : bool) (u : UiAO) : UiAO :=
  mkUiAO (wao_nbiters u) (wao_run_checked u) (wao_forever u) (wao_allTarget
    u) (wao_resetSR_tarNum u) (wao_resetSR_tarNum_max u)
    (wao_resetSR_tarNum_disabled u) (wao_nbiters_disabled u) (wao_dispSR_tar
    u) (wao_dispSR_tar_max u) (wao_openLoop_text u) (wao_strehlSE u)
    (wao_strehlLE u) (wao_currentFreq u) (actionPSF_Log_Scale u)
    (wao_run_disabled u) v (wao_unzoom_disabled u) (wao_resetSR_disabled u).

Definition set_wao_unzoom_disabled (v : bool) (u : UiAO) : UiAO :=
  mkUiAO (wao_nbiters u) (wao_run_checked u) (wao_forever u) (wao_allTarget
    u) (wao_resetSR_tarNum u) (wao_resetSR_tarNum_max u)
    (wao_resetSR_tarNum_disabled u) (wao_nbiters_disabled u) (wao_dispSR_tar
    u) (wao_dispSR_tar_max u) (wao_openLoop_text u) (wao_strehlSE u)
    (wao_strehlLE u) (wao_currentFreq u) (actionPSF_Log_Scale u)
    (wao_run_disabled u) (wao_next_disabled u) v (wao_resetSR_disabled u).

Definition set_wao_resetSR_disabled (v : bool) (u : UiAO) : UiAO :=
  mkUiAO (wao_nbiters u) (wao_run_checked u) (wao_forever u) (wao_allTarget
    u) (wao_resetSR_tarNum u) (wao_resetSR_tarNum_max u)
    (wao_resetSR_tarNum_disabled u) (wao_nbiters_disabled u) (wao_dispSR_tar
    u) (wao_dispSR_tar_max u) (wao_openLoop_text u) (wao_strehlSE u)
    (wao_strehlLE u) (wao_currentFreq u) (actionPSF_Log_Scale u)
    (wao_run_disabled u) (wao_next_disabled u) (wao_unzoom_disabled u) v.

Definition set_wao_init_disabled (v : bool) (u : UiBase) : UiBase :=
  mkUiBase (wao_frameRate u) v (wao_selectConfig u).

Section State.
Context {D : Domain}.

(** What a display item of [self.imgs] shows: the last image set on it and
    the operations applied to its matplotlib canvas. *)
Inductive CanvasOp : Type :=
| AxesClear
| AxesQuiver (q : quiver)
| CanvasDraw.

Record Img : Type := mkImg {
  image : option frame;
  canvas : list CanvasOp
}.

(** [img.setImage(data, autoLevels=True)] *)
Definition setImage (data : frame) (i : Img) : Img :=
  mkImg (Some data) (canvas i).

Definition canvas_do (op : CanvasOp) (i : Img) : Img :=
  mkImg (image i) (canvas i ++ [op]).

(** The window: its attributes, the widgets and docks it owns, and the
    environment it runs in. *)
Record World : Type := mkWorld {
  SRLE : deque Q;
  SRSE : deque Q;
  numiter : deque Z;
  supervisor : option Sup;
  config : option Config;
  stop : bool;  (* request quit *)
  nbiter : Z;
  refreshTime : Q;  (* system time at last display refresh *)
  dispStatsInTerminal : bool;
  SRCrossX : dict Item;
  SRCrossY : dict Item;
  SRcircles : dict Item;
  PyrEdgeX : dict Item;
  PyrEdgeY : dict Item;
  natm : nat;
  nwfs : nat;
  ndm : nat;
  ntar : nat;
  firstTime : Z;
  expert : bool;
  devices : option string;
  defaultParPath : string;
  defaultAreaPath : string;
  loopLock : bool;  (* [true] while the lock is held *)
  docks : dict Dock;
  imgs : dict Img;
  viewboxes : dict ViewBox;
  uiAO : UiAO;
  uiBase : UiBase;
  curveSRSE : list Z * list Q;  (* data of the plotted curves *)
  curveSRLE : list Z * list Q;
  wao_bound : bool;  (* whether the module global [wao] is bound *)
  sys_path : list string;
  clock : nat -> Q;  (* successive readings of [time.time()] *)
  ticks : nat;  (* readings taken so far *)
  stdout : list string;  (* lines printed *)
  calls : list SupCall;  (* calls made on the supervisor, oldest first *)
  dock_calls : list (string * Group * string)  (* calls of [WidgetBase.add_dispDock] *)
}.

Definition set_SRLE (v : deque Q) (w : World) : World :=
  mkWorld v (SRSE w) (numiter w) (supervisor w) (config w) (stop w) (nbiter
    w) (refreshTime w) (dispStatsInTerminal w) (SRCrossX w) (SRCrossY w)
    (SRcircles w) (PyrEdgeX w) (PyrEdgeY w) (natm w) (nwfs w) (ndm w) (ntar
    w) (firstTime w) (expert w) (devices w) (defaultParPath w)
    (defaultAreaPath w) (loopLock w) (docks w) (imgs w) (viewboxes w) (uiAO
    w) (uiBase w) (curveSRSE w) (curveSRLE w) (wao_bound w) (sys_path w)
    (clock w) (ticks w) (stdout w) (calls w) (dock_calls w).

Definition set_SRSE (v : deque Q) (w : World) : World :=
  mkWorld (SRLE w) v (numiter w) (supervisor w) (config w) (stop w) (nbiter
    w) (refreshTime w) (dispStatsInTerminal w) (SRCrossX w) (SRCrossY w)
    (SRcircles w) (PyrEdgeX w) (PyrEdgeY w) (natm w) (nwfs w) (ndm w) (ntar
    w) (firstTime w) (expert w) (devices w) (defaultParPath w)
    (defaultAreaPath w) (loopLock w) (docks w) (imgs w) (viewboxes w) (uiAO
    w) (uiBase w) (curveSRSE w) (curveSRLE w) (wao_bound w) (sys_path w)
    (clock w) (ticks w) (stdout w) (calls w) (dock_calls w).

Definition set_numiter (v : deque Z) (w : World) : World :=
  mkWorld (SRLE w) (SRSE w) v (supervisor w) (config w) (stop w) (nbiter w)
    (refreshTime w) (dispStatsInTerminal w) (SRCrossX w) (SRCrossY w)
    (SRcircles w) (PyrEdgeX w) (PyrEdgeY w) (natm w) (nwfs w) (ndm w) (ntar
    w) (firstTime w) (expert w) (devices w) (defaultParPath w)
    (defaultAreaPath w) (loopLock w) (docks w) (imgs w) (viewboxes w) (uiAO
    w) (uiBase w) (curveSRSE w) (curveSRLE w) (wao_bound w) (sys_path w)
    (clock w) (ticks w) (stdout w) (calls w) (dock_calls w).

Definition set_supervisor (v : option Sup) (w : World) : World :=
  mkWorld (SRLE w) (SRSE w) (numiter w) v (config w) (stop w) (nbiter w)
    (refreshTime w) (dispStatsInTerminal w) (SRCrossX w) (SRCrossY w)
    (SRcircles w) (PyrEdgeX w) (PyrEdgeY w) (natm w) (nwfs w) (ndm w) (ntar
    w) (firstTime w) (expert w) (devices w) (defaultParPath w)
    (defaultAreaPath w) (loopLock w) (docks w) (imgs w) (viewboxes w) (uiAO
    w) (uiBase w) (curveSRSE w) (curveSRLE w) (wao_bound w) (sys_path w)
    (clock w) (ticks w) (stdout w) (calls w) (dock_calls w).

Definition set_config (v : option Config) (w : World) : World :=
  mkWorld (SRLE w) (SRSE w) (numiter w) (supervisor w) v (stop w) (nbiter w)
    (refreshTime w) (dispStatsInTerminal w) (SRCrossX w) (SRCrossY w)
    (SRcircles w) (PyrEdgeX w) (PyrEdgeY w) (natm w) (nwfs w) (ndm w) (ntar
    w) (firstTime w) (expert w) (devices w) (defaultParPath w)
    (defaultAreaPath w) (loopLock w) (docks w) (imgs w) (viewboxes w) (uiAO
    w) (uiBase w) (curveSRSE w) (curveSRLE w) (wao_bound w) (sys_path w)
    (clock w) (ticks w) (stdout w) (calls w) (dock_calls w).

Definition set_stop (v : bool) (w : World) : World :=
  mkWorld (SRLE w) (SRSE w) (numiter w) (supervisor w) (config w) v (nbiter
    w) (refreshTime w) (dispStatsInTerminal w) (SRCrossX w) (SRCrossY w)
    (SRcircles w) (PyrEdgeX w) (PyrEdgeY w) (natm w) (nwfs w) (ndm w) (ntar
    w) (firstTime w) (expert w) (devices w) (defaultParPath w)
    (defaultAreaPath w) (loopLock w) (docks w) (imgs w) (viewboxes w) (uiAO
    w) (uiBase w) (curveSRSE w) (curveSRLE w) (wao_bound w) (sys_path w)
    (clock w) (ticks w) (stdout w) (calls w) (dock_calls w).

Definition set_nbiter (v : Z) (w : World) : World :=
  mkWorld (SRLE w) (SRSE w) (numiter w) (supervisor w) (config w) (stop w) v
    (refreshTime w) (dispStatsInTerminal w) (SRCrossX w) (SRCrossY w)
    (SRcircles w) (PyrEdgeX w) (PyrEdgeY w) (natm w) (nwfs w) (ndm w) (ntar
    w) (firstTime w) (expert w) (devices w) (defaultParPath w)
    (defaultAreaPath w) (loopLock w) (docks w) (imgs w) (viewboxes w) (uiAO
    w) (uiBase w) (curveSRSE w) (curveSRLE w) (wao_bound w) (sys_path w)
    (clock w) (ticks w) (stdout w) (calls w) (dock_calls w).

Definition set_refreshTime (v : Q) (w : World) : World :=
  mkWorld (SRLE w) (SRSE w) (numiter w) (supervisor w) (config w) (stop w)
    (nbiter w) v (dispStatsInTerminal w) (SRCrossX w) (SRCrossY w) (SRcircles
    w) (PyrEdgeX w) (PyrEdgeY w) (natm w) (nwfs w) (ndm w) (ntar w)
    (firstTime w) (expert w) (devices w) (defaultParPath w) (defaultAreaPath
    w) (loopLock w) (docks w) (imgs w) (viewboxes w) (uiAO w) (uiBase w)
    (curveSRSE w) (curveSRLE w) (wao_bound w) (sys_path w) (clock w) (ticks
    w) (stdout w) (calls w) (dock_calls w).

Definition set_dispStatsInTerminal (v : bool) (w : World) : World :=
  mkWorld (SRLE w) (SRSE w) (numiter w) (supervisor w) (config w) (stop w)
    (nbiter w) (refreshTime w) v (SRCrossX w) (SRCrossY w) (SRcircles w)
    (PyrEdgeX w) (PyrEdgeY w) (natm w) (nwfs w) (ndm w) (ntar w) (firstTime
    w) (expert w) (devices w) (defaultParPath w) (defaultAreaPath w)
    (loopLock w) (docks w) (imgs w) (viewboxes w) (uiAO w) (uiBase w)
    (curveSRSE w) (curveSRLE w) (wao_bound w) (sys_path w) (clock w) (ticks
    w) (stdout w) (calls w) (dock_calls w).

Definition set_SRCrossX (v : dict Item) (w : World) : World :=
  mkWorld (SRLE w) (SRSE w) (numiter w) (supervisor w) (config w) (stop w)
    (nbiter w) (refreshTime w) (dispStatsInTerminal w) v (SRCrossY w)
    (SRcircles w) (PyrEdgeX w) (PyrEdgeY w) (natm w) (nwfs w) (ndm w) (ntar
    w) (firstTime w) (expert w) (devices w) (defaultParPath w)
    (defaultAreaPath w) (loopLock w) (docks w) (imgs w) (viewboxes w) (uiAO
    w) (uiBase w) (curveSRSE w) (curveSRLE w) (wao_bound w) (sys_path w)
    (clock w) (ticks w) (stdout w) (calls w) (dock_calls w).

Definition set_SRCrossY (v : dict Item) (w : World) : World :=
  mkWorld (SRLE w) (SRSE w) (numiter w) (supervisor w) (config w) (stop w)
    (nbiter w) (refreshTime w) (dispStatsInTerminal w) (SRCrossX w) v
    (SRcircles w) (PyrEdgeX w) (PyrEdgeY w) (natm w) (nwfs w) (ndm w) (ntar
    w) (firstTime w) (expert w) (devices w) (defaultParPath w)
    (defaultAreaPath w) (loopLock w) (docks w) (imgs w) (viewboxes w) (uiAO
    w) (uiBase w) (curveSRSE w) (curveSRLE w) (wao_bound w) (sys_path w)
    (clock w) (ticks w) (stdout w) (calls w) (dock_calls w).

Definition set_SRcircles (v : dict Item) (w : World) : World :=
  mkWorld (SRLE w) (SRSE w) (numiter w) (supervisor w) (config w) (stop w)
    (nbiter w) (refreshTime w) (dispStatsInTerminal w) (SRCrossX w) (SRCrossY
    w) v (PyrEdgeX w) (PyrEdgeY w) (natm w) (nwfs w) (ndm w) (ntar w)
    (firstTime w) (expert w) (devices w) (defaultParPath w) (defaultAreaPath
    w) (loopLock w) (docks w) (imgs w) (viewboxes w) (uiAO w) (uiBase w)
    (curveSRSE w) (curveSRLE w) (wao_bound w) (sys_path w) (clock w) (ticks
    w) (stdout w) (calls w) (dock_calls w).

Definition set_PyrEdgeX (v : dict Item) (w : World) : World :=
  mkWorld (SRLE w) (SRSE w) (numiter w) (supervisor w) (config w) (stop w)
    (nbiter w) (refreshTime w) (dispStatsInTerminal w) (SRCrossX w) (SRCrossY
    w) (SRcircles w) v (PyrEdgeY w) (natm w) (nwfs w) (ndm w) (ntar w)
    (firstTime w) (expert w) (devices w) (defaultParPath w) (defaultAreaPath
    w) (loopLock w) (docks w) (imgs w) (viewboxes w) (uiAO w) (uiBase w)
    (curveSRSE w) (curveSRLE w) (wao_bound w) (sys_path w) (clock w) (ticks
    w) (stdout w) (calls w) (dock_calls w).

Definition set_PyrEdgeY (v : dict Item) (w : World) : World :=
  mkWorld (SRLE w) (SRSE w) (numiter w) (supervisor w) (config w) (stop w)
    (nbiter w) (refreshTime w) (dispStatsInTerminal w) (SRCrossX w) (SRCrossY
    w) (SRcircles w) (PyrEdgeX w) v (natm w) (nwfs w) (ndm w) (ntar w)
    (firstTime w) (expert w) (devices w) (defaultParPath w) (defaultAreaPath
    w) (loopLock w) (docks w) (imgs w) (viewboxes w) (uiAO w) (uiBase w)
    (curveSRSE w) (curveSRLE w) (wao_bound w) (sys_path w) (clock w) (ticks
    w) (stdout w) (calls w) (dock_calls w).

Definition set_natm (v : nat) (w : World) : World :=
  mkWorld (SRLE w) (SRSE w) (numiter w) (supervisor w) (config w) (stop w)
    (nbiter w) (refreshTime w) (dispStatsInTerminal w) (SRCrossX w) (SRCrossY
    w) (SRcircles w) (PyrEdgeX w) (PyrEdgeY w) v (nwfs w) (ndm w) (ntar w)
    (firstTime w) (expert w) (devices w) (defaultParPath w) (defaultAreaPath
    w) (loopLock w) (docks w) (imgs w) (viewboxes w) (uiAO w) (uiBase w)
    (curveSRSE w) (curveSRLE w) (wao_bound w) (sys_path w) (clock w) (ticks
    w) (stdout w) (calls w) (dock_calls w).

Definition set_nwfs (v : nat) (w : World) : World :=
  mkWorld (SRLE w) (SRSE w) (numiter w) (supervisor w) (config w) (stop w)
    (nbiter w) (refreshTime w) (dispStatsInTerminal w) (SRCrossX w) (SRCrossY
    w) (SRcircles w) (PyrEdgeX w) (PyrEdgeY w) (natm w) v (ndm w) (ntar w)
    (firstTime w) (expert w) (devices w) (defaultParPath w) (defaultAreaPath
    w) (loopLock w) (docks w) (imgs w) (viewboxes w) (uiAO w) (uiBase w)
    (curveSRSE w) (curveSRLE w) (wao_bound w) (sys_path w) (clock w) (ticks
    w) (stdout w) (calls w) (dock_calls w).

Definition set_ndm (v : nat) (w : World) : World :=
  mkWorld (SRLE w) (SRSE w) (numiter w) (supervisor w) (config w) (stop w)
    (nbiter w) (refreshTime w) (dispStatsInTerminal w) (SRCrossX w) (SRCrossY
    w) (SRcircles w) (PyrEdgeX w) (PyrEdgeY w) (natm w) (nwfs w) v (ntar w)
    (firstTime w) (expert w) (devices w) (defaultParPath w) (defaultAreaPath
    w) (loopLock w) (docks w) (imgs w) (viewboxes w) (uiAO w) (uiBase w)
    (curveSRSE w) (curveSRLE w) (wao_bound w) (sys_path w) (clock w) (ticks
    w) (stdout w) (calls w) (dock_calls w).

Definition set_ntar (v : nat) (w : World) : World :=
  mkWorld (SRLE w) (SRSE w) (numiter w) (supervisor w) (config w) (stop w)
    (nbiter w) (refreshTime w) (dispStatsInTerminal w) (SRCrossX w) (SRCrossY
    w) (SRcircles w) (PyrEdgeX w) (PyrEdgeY w) (natm w) (nwfs w) (ndm w) v
    (firstTime w) (expert w) (devices w) (defaultParPath w) (defaultAreaPath
    w) (loopLock w) (docks w) (imgs w) (viewboxes w) (uiAO w) (uiBase w)
    (curveSRSE w) (curveSRLE w) (wao_bound w) (sys_path w) (clock w) (ticks
    w) (stdout w) (calls w) (dock_calls w).

Definition set_firstTime (v : Z) (w : World) : World :=
  mkWorld (SRLE w) (SRSE w) (numiter w) (supervisor w) (config w) (stop w)
    (nbiter w) (refreshTime w) (dispStatsInTerminal w) (SRCrossX w) (SRCrossY
    w) (SRcircles w) (PyrEdgeX w) (PyrEdgeY w) (natm w) (nwfs w) (ndm w)
    (ntar w) v (expert w) (devices w) (defaultParPath w) (defaultAreaPath w)
    (loopLock w) (docks w) (imgs w) (viewboxes w) (uiAO w) (uiBase w)
    (curveSRSE w) (curveSRLE w) (wao_bound w) (sys_path w) (clock w) (ticks
    w) (stdout w) (calls w) (dock_calls w).

Definition set_loopLock (v : bool) (w : World) : World :=
  mkWorld (SRLE w) (SRSE w) (numiter w) (supervisor w) (config w) (stop w)
    (nbiter w) (refreshTime w) (dispStatsInTerminal w) (SRCrossX w) (SRCrossY
    w) (SRcircles w) (PyrEdgeX w) (PyrEdgeY w) (natm w) (nwfs w) (ndm w)
    (ntar w) (firstTime w) (expert w) (devices w) (defaultParPath w)
    (defaultAreaPath w) v (docks w) (imgs w) (viewboxes w) (uiAO w) (uiBase
    w) (curveSRSE w) (curveSRLE w) (wao_bound w) (sys_path w) (clock w)
    (ticks w) (stdout w) (calls w) (dock_calls w).

Definition set_docks (v : dict Dock) (w : World) : World :=
  mkWorld (SRLE w) (SRSE w) (numiter w) (supervisor w) (config w) (stop w)
    (nbiter w) (refreshTime w) (dispStatsInTerminal w) (SRCrossX w) (SRCrossY
    w) (SRcircles w) (PyrEdgeX w) (PyrEdgeY w) (natm w) (nwfs w) (ndm w)
    (ntar w) (firstTime w) (expert w) (devices w) (defaultParPath w)
    (defaultAreaPath w) (loopLock w) v (imgs w) (viewboxes w) (uiAO w)
    (uiBase w) (curveSRSE w) (curveSRLE w) (wao_bound w) (sys_path w) (clock
    w) (ticks w) (stdout w) (calls w) (dock_calls w).

Definition set_imgs (v : dict Img) (w : World) : World :=
  mkWorld (SRLE w) (SRSE w) (numiter w) (supervisor w) (config w) (stop w)
    (nbiter w) (refreshTime w) (dispStatsInTerminal w) (SRCrossX w) (SRCrossY
    w) (SRcircles w) (PyrEdgeX w) (PyrEdgeY w) (natm w) (nwfs w) (ndm w)
    (ntar w) (firstTime w) (expert w) (devices w) (defaultParPath w)
    (defaultAreaPath w) (loopLock w) (docks w) v (viewboxes w) (uiAO w)
    (uiBase w) (curveSRSE w) (curveSRLE w) (wao_bound w) (sys_path w) (clock
    w) (ticks w) (stdout w) (calls w) (dock_calls w).

Definition set_viewboxes (v : dict ViewBox) (w : World) : World :=
  mkWorld (SRLE w) (SRSE w) (numiter w) (supervisor w) (config w) (stop w)
    (nbiter w) (refreshTime w) (dispStatsInTerminal w) (SRCrossX w) (SRCrossY
    w) (SRcircles w) (PyrEdgeX w) (PyrEdgeY w) (natm w) (nwfs w) (ndm w)
    (ntar w) (firstTime w) (expert w) (devices w) (defaultParPath w)
    (defaultAreaPath w) (loopLock w) (docks w) (imgs w) v (uiAO w) (uiBase w)
    (curveSRSE w) (curveSRLE w) (wao_bound w) (sys_path w) (clock w) (ticks
    w) (stdout w) (calls w) (dock_calls w).

Definition set_uiAO (v : UiAO) (w : World) : World :=
  mkWorld (SRLE w) (SRSE w) (numiter w) (supervisor w) (config w) (stop w)
    (nbiter w) (refreshTime w) (dispStatsInTerminal w) (SRCrossX w) (SRCrossY
    w) (SRcircles w) (PyrEdgeX w) (PyrEdgeY w) (natm w) (nwfs w) (ndm w)
    (ntar w) (firstTime w) (expert w) (devices w) (defaultParPath w)
    (defaultAreaPath w) (loopLock w) (docks w) (imgs w) (viewboxes w) v
    (uiBase w) (curveSRSE w) (curveSRLE w) (wao_bound w) (sys_path w) (clock
    w) (ticks w) (stdout w) (calls w) (dock_calls w).

Definition set_uiBase (v : UiBase) (w : World) : World :=
  mkWorld (SRLE w) (SRSE w) (numiter w) (supervisor w) (config w) (stop w)
    (nbiter w) (refreshTime w) (dispStatsInTerminal w) (SRCrossX w) (SRCrossY
    w) (SRcircles w) (PyrEdgeX w) (PyrEdgeY w) (natm w) (nwfs w) (ndm w)
    (ntar w) (firstTime w) (expert w) (devices w) (defaultParPath w)
    (defaultAreaPath w) (loopLock w) (docks w) (imgs w) (viewboxes w) (uiAO
    w) v (curveSRSE w) (curveSRLE w) (wao_bound w) (sys_path w) (clock w)
    (ticks w) (stdout w) (calls w) (dock_calls w).

Definition set_curveSRSE (v : list Z * list Q) (w : World) : World :=
  mkWorld (SRLE w) (SRSE w) (numiter w) (supervisor w) (config w) (stop w)
    (nbiter w) (refreshTime w) (dispStatsInTerminal w) (SRCrossX w) (SRCrossY
    w) (SRcircles w) (PyrEdgeX w) (PyrEdgeY w) (natm w) (nwfs w) (ndm w)
    (ntar w) (firstTime w) (expert w) (devices w) (defaultParPath w)
    (defaultAreaPath w) (loopLock w) (docks w) (imgs w) (viewboxes w) (uiAO
    w) (uiBase w) v (curveSRLE w) (wao_bound w) (sys_path w) (clock w) (ticks
    w) (stdout w) (calls w) (dock_calls w).

Definition set_curveSRLE (v : list Z * list Q) (w : World) : World :=
  mkWorld (SRLE w) (SRSE w) (numiter w) (supervisor w) (config w) (stop w)
    (nbiter w) (refreshTime w) (dispStatsInTerminal w) (SRCrossX w) (SRCrossY
    w) (SRcircles w) (PyrEdgeX w) (PyrEdgeY w) (natm w) (nwfs w) (ndm w)
    (ntar w) (firstTime w) (expert w) (devices w) (defaultParPath w)
    (defaultAreaPath w) (loopLock w) (docks w) (imgs w) (viewboxes w) (uiAO
    w) (uiBase w) (curveSRSE w) v (wao_bound w) (sys_path w) (clock w) (ticks
    w) (stdout w) (calls w) (dock_calls w).

Definition set_sys_path (v : list string) (w : World) : World :=
  mkWorld (SRLE w) (SRSE w) (numiter w) (supervisor w) (config w) (stop w)
    (nbiter w) (refreshTime w) (dispStatsInTerminal w) (SRCrossX w) (SRCrossY
    w) (SRcircles w) (PyrEdgeX w) (PyrEdgeY w) (natm w) (nwfs w) (ndm w)
    (ntar w) (firstTime w) (expert w) (devices w) (defaultParPath w)
    (defaultAreaPath w) (loopLock w) (docks w) (imgs w) (viewboxes w) (uiAO
    w) (uiBase w) (curveSRSE w) (curveSRLE w) (wao_bound w) v (clock w)
    (ticks w) (stdout w) (calls w) (dock_calls w).

Definition set_ticks (v : nat) (w : World) : World :=
  mkWorld (SRLE w) (SRSE w) (numiter w) (supervisor w) (config w) (stop w)
    (nbiter w) (refreshTime w) (dispStatsInTerminal w) (SRCrossX w) (SRCrossY
    w) (SRcircles w) (PyrEdgeX w) (PyrEdgeY w) (natm w) (nwfs w) (ndm w)
    (ntar w) (firstTime w) (expert w) (devices w) (defaultParPath w)
    (defaultAreaPath w) (loopLock w) (docks w) (imgs w) (viewboxes w) (uiAO
    w) (uiBase w) (curveSRSE w) (curveSRLE w) (wao_bound w) (sys_path w)
    (clock w) v (stdout w) (calls w) (dock_calls w).

Definition set_stdout (v : list string) (w : World) : World :=
  mkWorld (SRLE w) (SRSE w) (numiter w) (supervisor w) (config w) (stop w)
    (nbiter w) (refreshTime w) (dispStatsInTerminal w) (SRCrossX w) (SRCrossY
    w) (SRcircles w) (PyrEdgeX w) (PyrEdgeY w) (natm w) (nwfs w) (ndm w)
    (ntar w) (firstTime w) (expert w) (devices w) (defaultParPath w)
    (defaultAreaPath w) (loopLock w) (docks w) (imgs w) (viewboxes w) (uiAO
    w) (uiBase w) (curveSRSE w) (curveSRLE w) (wao_bound w) (sys_path w)
    (clock w) (ticks w) v (calls w) (dock_calls w).

Definition set_calls (v : list SupCall) (w : World) : World :=
  mkWorld (SRLE w) (SRSE w) (numiter w) (supervisor w) (config w) (stop w)
    (nbiter w) (refreshTime w) (dispStatsInTerminal w) (SRCrossX w) (SRCrossY
    w) (SRcircles w) (PyrEdgeX w) (PyrEdgeY w) (natm w) (nwfs w) (ndm w)
    (ntar w) (firstTime w) (expert w) (devices w) (defaultParPath w)
    (defaultAreaPath w) (loopLock w) (docks w) (imgs w) (viewboxes w) (uiAO
    w) (uiBase w) (curveSRSE w) (curveSRLE w) (wao_bound w) (sys_path w)
    (clock w) (ticks w) (stdout w) v (dock_calls w).

Definition set_dock_calls (v : list (string * Group * string)) (w : World) : World :=
  mkWorld (SRLE w) (SRSE w) (numiter w) (supervisor w) (config w) (stop w)
    (nbiter w) (refreshTime w) (dispStatsInTerminal w) (SRCrossX w) (SRCrossY
    w) (SRcircles w) (PyrEdgeX w) (PyrEdgeY w) (natm w) (nwfs w) (ndm w)
    (ntar w) (firstTime w) (expert w) (devices w) (defaultParPath w)
    (defaultAreaPath w) (loopLock w) (docks w) (imgs w) (viewboxes w) (uiAO
    w) (uiBase w) (curveSRSE w) (curveSRLE w) (wao_bound w) (sys_path w)
    (clock w) (ticks w) (stdout w) (calls w) v.

End State.

(** ** Computations on the window

    A method is a function from the window before the call to its result,
    a value or a raised exception, and the window after the call: what a
    method has written before it raises stays written. *)

Section Monad.
Context {D : Domain}.

Definition M (A : Type) : Type := World -> result A * World.

Definition ret {A} (a : A) : M A := fun w => (Ok a, w).

Definition bind {A B} (m : M A) (k : A -> M B) : M B :=
  fun w =>
    match m w with
    | (Ok a, w1) => k a w1
    | (Raise e, w1) => (Raise e, w1)
    end.

Definition raise {A} (e : exn) : M A := fun w => (Raise e, w).

Definition lift {A} (r : result A) : M A := fun w => (r, w).

Definition gets {A} (f : World -> A) : M A := fun w => (Ok (f w), w).

Definition modify (f : World -> World) : M unit := fun w => (Ok tt, f w).

(** [try: body / except: handler], the bare [except] that catches all. *)
Definition try_except {A} (body handler : M A) : M A :=
  fun w =>
    match body w with
    | (Ok a, w1) => (Ok a, w1)
    | (Raise _, w1) => handler w1
    end.

(** [try: body / finally: fin] *)
Definition try_finally {A} (body : M A) (fin : M unit) : M A :=
  fun w =>
    match body w with
    | (r, w1) =>
        match fin w1 with
        | (Ok _, w2) => (r, w2)
        | (Raise e, w2) => (Raise e, w2)
        end
    end.

(** [for a in l: body(a)] *)
Fixpoint for_each {A} (l : list A) (body : A -> M unit) : M unit :=
  match l with
  | [] => ret tt
  | a :: l' => bind (body a) (fun _ => for_each l' body)
  end.

(** A loop that carries the local variables [acc] from one round to the
    next. *)
Fixpoint for_fold {A B} (l : list A) (acc : B) (body : B -> A -> M B)
  : M B :=
  match l with
  | [] => ret acc
  | a :: l' => bind (body acc a) (fun acc' => for_fold l' acc' body)
  end.

Definition exec {A} (m : M A) (w : World) : World := snd (m w).

Definition outcome {A} (m : M A) (w : World) : result A := fst (m w).

End Monad.

Declare Scope py_scope.
Delimit Scope py_scope with py.
Notation "x <- c1 ;; c2" := (bind c1 (fun x => c2))
  (at level 61, c1 at next level, right associativity) : py_scope.
Notation "c1 ;; c2" := (bind c1 (fun _ => c2))
  (at level 61, right associativity) : py_scope.

(** ** What the window calls into *)

Module Supervisor.

(** The attribute [_sim] of a supervisor: absent, [None], or a simulator. *)
Inductive SimAttr : Type :=
| SimAbsent
| SimNone
| SimReady.

(** The supervisor, as far as the window uses it.  Getters observe the
    supervisor; the other methods may change it, also when they raise. *)
Class Ops {D : Domain} : Type := {
  new : result Sup;
  loadConfig : string -> Sup -> result unit * Sup;
  getConfig : Sup -> result Config;
  sim : Sup -> SimAttr;
  seeAtmos : Sup -> bool;
  d_targets : Sup -> nat;
  isInit : Sup -> result bool;
  enableAtmos : bool -> Sup -> result unit * Sup;
  resetStrehl : Z -> Sup -> result unit * Sup;
  closeLoop : Sup -> result unit * Sup;
  openLoop : Sup -> result unit * Sup;
  singleNext : bool -> Sup -> result unit * Sup;
  comp_image : nat -> Sup -> result unit * Sup;
  getStrehl : Sup -> Z -> result (list Q);
  getFrameCounter : Sup -> result Z;
  getAtmScreen : Sup -> Z -> result frame;
  getWfsPhase : Sup -> Z -> result frame;
  getDmShape : Sup -> Z -> result frame;
  getTarPhase : Sup -> Z -> result frame;
  getTarImage : Sup -> Z -> string -> result frame;
  getWfsImage : Sup -> Z -> result frame;
  getPyrHRImage : Sup -> Z -> result frame;
  getPyrFocalPlane : Sup -> Z -> result frame;
  getSlopeGeom : Sup -> Z -> result slopes;
  getSlope : Sup -> result slopes
}.

End Supervisor.

Module Np.

(** The numpy operations applied to frames and slope vectors. *)
Class Ops {D : Domain} : Type := {
  any_nonpos : frame -> bool;          (* np.any(data <= 0) *)
  fill_nonpos : frame -> result frame; (* data[data <= 0] = np.min(data[data > 0]) *)
  log10 : frame -> frame;
  shape0 : frame -> Z;
  shape1 : frame -> Z;
  slice : slopes -> Z -> Z -> slopes   (* a[lo:hi] *)
}.

End Np.

(** Code of the repository that lives in other files: the base class
    [WidgetBase], the expert panel, the plotting helpers of
    [shesha.util.tools]; and the formatting of floats. *)
Class Helpers {D : Domain} : Type := {
  fmt_1_2f : Q -> string;              (* "%1.2f" % x *)
  fmt_4_1f : Q -> string;              (* "%4.1f" % x *)
  plsh : slopes -> Z -> Q -> result quiver;
  plpyr : slopes -> WfsParam -> result unit;
  WidgetBase_run : M unit;
  WidgetBase_loadConfig : M unit;
  WidgetBase_add_dispDock : string -> Group -> string -> M string;
  loadArea : string -> M unit;
  printInPlace : string -> M unit;
  expertWidget_setSupervisor : M unit;
  expertWidget_updatePanels : M unit
}.

(** ** The methods of [widgetAOWindow] *)

Section Widget.
Context {D : Domain} {SV : Supervisor.Ops} {NP : Np.Ops} {HP : Helpers}.

Local Open Scope py_scope.
Local Open Scope string_scope.

Definition PSFzoom : Q := 50.

(** *** Primitives *)

(** [print(line)] *)
Definition print (line : string) : M unit :=
  modify (fun w => set_stdout (stdout w ++ [line])%list w).

(** [time.time()] *)
Definition time_time : M Q :=
  fun w => (Ok (clock w (ticks w)), set_ticks (S (ticks w)) w).

(** [self.loopLock.acquire(False)] *)
Definition loopLock_acquire : M bool :=
  fun w =>
    if loopLock w then (Ok false, w) else (Ok true, set_loopLock true w).

(** [self.loopLock.release()] *)
Definition loopLock_release : M unit :=
  fun w =>
    if loopLock w then (Ok tt, set_loopLock false w)
    else (Raise (ExternalError "release unlocked lock"), w).

(** [self.supervisor], about to be used: [None] has no attributes. *)
Definition the_supervisor : M Sup :=
  fun w =>
    match supervisor w with
    | Some s => (Ok s, w)
    | None => (Raise AttributeError, w)
    end.

(** [self.config], about to be used. *)
Definition the_config : M Config :=
  fun w =>
    match config w with
    | Some c => (Ok c, w)
    | None => (Raise AttributeError, w)
    end.

Definition log_call (c : SupCall) : M unit :=
  modify (fun w => set_calls (calls w ++ [c])%list w).

(** A call of a getter [f] of [self.supervisor]. *)
Definition sup_get {A} (c : SupCall) (f : Sup -> result A) : M A :=
  s <- the_supervisor ;;
  log_call c ;;
  lift (f s).

(** A call of a method [f] of [self.supervisor] that may change it. *)
Definition sup_do (c : SupCall) (f : Sup -> result unit * Sup) : M unit :=
  s <- the_supervisor ;;
  log_call c ;;
  modify (set_supervisor (Some (snd (f s)))) ;;
  lift (fst (f s)).

Definition update_uiAO (f : UiAO -> UiAO) : M unit :=
  modify (fun w => set_uiAO (f (uiAO w)) w).

Definition update_uiBase (f : UiBase -> UiBase) : M unit :=
  modify (fun w => set_uiBase (f (uiBase w)) w).

(** [self.imgs[key]] changed by [f]. *)
Definition update_img (key : string) (f : Img -> Img) : M unit :=
  ims <- gets imgs ;;
  i <- lift (dict_item key ims) ;;
  modify (set_imgs (dict_set key (f i) ims)).

(** [self.viewboxes[key]] changed by [f]. *)
Definition update_viewbox (key : string) (f : ViewBox -> ViewBox) : M unit :=
  vbs <- gets viewboxes ;;
  v <- lift (dict_item key vbs) ;;
  modify (set_viewboxes (dict_set key (f v) vbs)).

(** A value that must not be [None] (or unbound) where it is used. *)
Definition need {A} (e : exn) (o : option A) : M A :=
  match o with
  | Some a => ret a
  | None => raise e
  end.

(** [np.sum(..., dtype=np.int32)] wraps around. *)
Definition wrap_int32 (z : Z) : Z :=
  ((z + 2 ^ 31) mod 2 ^ 32 - 2 ^ 31)%Z.

(** *** Small slots *)

Definition updateAllTarget (state : bool) : M unit :=
  update_uiAO (set_wao_resetSR_tarNum_disabled state).

Definition updateForever (state : bool) : M unit :=
  update_uiAO (set_wao_nbiters_disabled state).

Definition set_see_atmos (atmos : bool) : M unit :=
  sup_do (Call_enableAtmos atmos) (Supervisor.enableAtmos atmos).

Definition resetSR : M unit :=
  allTarget <- gets (fun w => wao_allTarget (uiAO w)) ;;
  if allTarget then
    cfg <- the_config ;;
    for_each (range (List.length (p_targets cfg)))
      (fun t =>
         sup_do (Call_resetStrehl (Z.of_nat t))
                (Supervisor.resetStrehl (Z.of_nat t)))
  else
    tarnum <- gets (fun w => wao_resetSR_tarNum (uiAO w)) ;;
    print ("Reset SR on target " ++ PyStr.dec_Z tarnum) ;;
    sup_do (Call_resetStrehl tarnum) (Supervisor.resetStrehl tarnum).

(** [d.addWidget(widget)] on the dock known as [d]. *)
Definition dock_addWidget (d : string) (widget : string) : M unit :=
  modify (fun w =>
    match dict_get d (docks w) with
    | Some dk =>
        set_docks
          (dict_set d (mkDock (isVisible dk) (dock_widgets dk ++ [widget])%list)
                    (docks w)) w
    | None => w
    end).

Definition add_dispDock (name : string) (parent : Group) (type : string)
  : M unit :=
  modify (fun w => set_dock_calls (dock_calls w ++ [(name, parent, type)])%list w) ;;
  d <- WidgetBase_add_dispDock name parent type ;;
  if String.eqb type "SR" then dock_addWidget d "wao_Strehl" else ret tt.

Definition clearSR : M unit :=
  modify (set_SRLE (deque_new 20)) ;;
  modify (set_SRSE (deque_new 20)) ;;
  modify (set_numiter (deque_new 20)).

Definition updateSRDisplay (le se : Q) (n : Z) : M unit :=
  modify (fun w => set_SRLE (deque_append le (SRLE w)) w) ;;
  modify (fun w => set_SRSE (deque_append se (SRSE w)) w) ;;
  modify (fun w => set_numiter (deque_append n (numiter w)) w) ;;
  modify (fun w => set_curveSRSE (items (numiter w), items (SRSE w)) w) ;;
  modify (fun w => set_curveSRLE (items (numiter w), items (SRLE w)) w).

Definition updateSRSE (s : string) : M unit :=
  update_uiAO (set_wao_strehlSE s).

Definition updateSRLE (s : string) : M unit :=
  update_uiAO (set_wao_strehlLE s).

Definition updateCurrentLoopFrequency (freq : Q) : M unit :=
  update_uiAO (set_wao_currentFreq freq).

Definition aoLoopOpen (pressed : bool) : M unit :=
  if pressed then
    sup_do Call_closeLoop Supervisor.closeLoop ;;
    update_uiAO (set_wao_openLoop_text "Open Loop")
  else
    sup_do Call_openLoop Supervisor.openLoop ;;
    update_uiAO (set_wao_openLoop_text "Close Loop").

(** *** The simulation loop *)

(** The Strehl part of a refresh: one [getStrehl] per configured target,
    the plot fed from the target selected in the GUI, and the two lines of
    text built up target by target.  [sig] is [(signal_se, signal_le)]. *)
Definition strehl_round (sig : string * string) (t : nat)
  : M (string * string) :=
  SR <- sup_get (Call_getStrehl (Z.of_nat t))
                (fun s => Supervisor.getStrehl s (Z.of_nat t)) ;;
  sel <- gets (fun w => wao_dispSR_tar (uiAO w)) ;;
  (if (Z.of_nat t =? sel)%Z then
     sr1 <- lift (py_index SR 1) ;;
     sr0 <- lift (py_index SR 0) ;;
     fc <- sup_get Call_getFrameCounter Supervisor.getFrameCounter ;;
     updateSRDisplay sr1 sr0 fc
   else ret tt) ;;
  sr0 <- lift (py_index SR 0) ;;
  sr1 <- lift (py_index SR 1) ;;
  ret (fst sig ++ fmt_1_2f sr0 ++ "   ", snd sig ++ fmt_1_2f sr1 ++ "   ").

(** The body of the [if] that refreshes the Strehl displays. *)
Definition refresh_displays (start loopTime : Q) : M unit :=
  cfg <- the_config ;;
  sig <- for_fold (range (List.length (p_targets cfg))) ("", "") strehl_round ;;
  currentFreq <- lift (float_div 1 loopTime) ;;
  now <- time_time ;;
  rt <- gets refreshTime ;;
  refreshFreq <- lift (float_div 1 (now - rt)) ;;
  updateSRSE (fst sig) ;;
  updateSRLE (snd sig) ;;
  updateCurrentLoopFrequency currentFreq ;;
  stats <- gets dispStatsInTerminal ;;
  (if stats then
     fc <- sup_get Call_getFrameCounter Supervisor.getFrameCounter ;;
     printInPlace
       ("iter #" ++ PyStr.dec_Z fc ++ " SR: (L.E, S.E.)= (" ++ snd sig
        ++ ", " ++ fst sig ++ ") running at " ++ fmt_4_1f refreshFreq
        ++ "Hz (real " ++ fmt_4_1f currentFreq ++ "Hz)")
   else ret tt) ;;
  modify (set_refreshTime start).

(** [for t in self.supervisor._sim.tar.d_targets: t.comp_image()] *)
Definition comp_all_images : M unit :=
  s <- the_supervisor ;;
  match Supervisor.sim s with
  | Supervisor.SimReady =>
      for_each (range (Supervisor.d_targets s))
        (fun t => sup_do (Call_comp_image t) (Supervisor.comp_image t))
  | _ => raise AttributeError
  end.

(** From [loopTime = time.time() - start] to the end of the [try]
    block. *)
Definition throttled_refresh (start : Q) : M unit :=
  t1 <- time_time ;;
  let loopTime := (t1 - start)%Q in
  rate <- gets (fun w => wao_frameRate (uiBase w)) ;;
  refreshDisplayTime <- lift (float_div 1 rate) ;;
  now <- time_time ;;
  rt <- gets refreshTime ;;
  if Qlt_bool refreshDisplayTime (now - rt)
  then refresh_displays start loopTime
  else ret tt.

(** The [try] block of [loopOnce]. *)
Definition loopOnce_body : M unit :=
  start <- time_time ;;
  s <- the_supervisor ;;
  sup_do (Call_singleNext (Supervisor.seeAtmos s))
         (Supervisor.singleNext (Supervisor.seeAtmos s)) ;;
  comp_all_images ;;
  throttled_refresh start.

Definition loopOnce : M unit :=
  acquired <- loopLock_acquire ;;
  if negb acquired then print "Display locked"
  else
    try_finally
      (try_except loopOnce_body (print "error!!"))
      loopLock_release.

Definition run : M unit :=
  WidgetBase_run ;;
  forever <- gets (fun w => wao_forever (uiAO w)) ;;
  (if negb forever
   then modify (fun w => set_nbiter (nbiter w - 1)%Z w)
   else ret tt) ;;
  n <- gets nbiter ;;
  if (n <=? 0)%Z then
    modify (set_stop true) ;;
    update_uiAO (set_wao_run_checked false)
  else ret tt.

Definition aoLoopClicked (pressed : bool) : M unit :=
  if pressed then
    modify (set_stop false) ;;
    now <- time_time ;;
    modify (set_refreshTime now) ;;
    modify (fun w => set_nbiter (wao_nbiters (uiAO w)) w) ;;
    stats <- gets dispStatsInTerminal ;;
    (if stats then
       forever <- gets (fun w => wao_forever (uiAO w)) ;;
       if forever then print "LOOP STARTED"
       else
         n <- gets nbiter ;;
         print ("LOOP STARTED FOR " ++ PyStr.dec_Z n ++ " iterations")
     else ret tt) ;;
    run
  else modify (set_stop true).

(** *** The display refresh *)

(** The guard of [updateDisplay]: no supervisor, no simulator, or a
    supervisor that is not initialised. *)
Definition not_ready : M bool :=
  sv <- gets supervisor ;;
  match sv with
  | None => ret true
  | Some s =>
      match Supervisor.sim s with
      | Supervisor.SimReady =>
          b <- sup_get Call_isInit Supervisor.isInit ;;
          ret (negb b)
      | _ => ret true
      end
  end.

(** [if pat in key: data = getter(index)] *)
Definition fetch (pat key : string) (c : SupCall) (get : Sup -> result frame)
    (data : option frame) : M (option frame) :=
  if PyStr.contains pat key then
    f <- sup_get c get ;;
    ret (Some f)
  else ret data.

(** The block under [if "psf" in key]. *)
Definition psf_block (key : string) (data : option frame)
  : M (option frame) :=
  logscale <- gets (fun w => actionPSF_Log_Scale (uiAO w)) ;;
  data <- (if logscale then
             d <- need TypeError data ;;
             d <- (if Np.any_nonpos d then lift (Np.fill_nonpos d) else ret d) ;;
             ret (Some (Np.log10 d))
           else ret data) ;;
  fc <- sup_get Call_getFrameCounter Supervisor.getFrameCounter ;;
  (if (fc <? 10)%Z then
     vbs <- gets viewboxes ;;
     _ <- lift (dict_item key vbs) ;;
     d <- need AttributeError data ;;
     let cx := (inject_Z (Np.shape0 d) / 2 + 0.5)%Q in
     let cy := (inject_Z (Np.shape1 d) / 2 + 0.5)%Q in
     update_viewbox key
       (setRange (cx - PSFzoom, cx + PSFzoom)%Q (cy - PSFzoom, cy + PSFzoom)%Q)
   else ret tt) ;;
  ret data.

(** The block under [if "Comp" in key] of a slope dock. *)
Definition slope_comp (key : string) (index : Z) (xyv : option quiver)
  : M (option quiver) :=
  centroids <- sup_get Call_getSlope Supervisor.getSlope ;;
  cfg <- the_config ;;
  let nmes := map (fun p => (2 * nvalid p)%Z) (p_wfss cfg) in
  let first_ind := wrap_int32 (sum_Z (py_slice_to nmes index)) in
  wfs <- lift (py_index (p_wfss cfg) index) ;;
  xyv <- (if is_pyr (wfs_type wfs) then
            n <- lift (py_index nmes index) ;;
            bound <- gets wao_bound ;;
            (if bound then ret tt else raise (NameError "wao")) ;;
            wcfg <- the_config ;;
            wwfs <- lift (py_index (p_wfss wcfg) index) ;;
            lift (plpyr (Np.slice centroids first_ind (first_ind + n)) wwfs) ;;
            ret xyv
          else
            n <- lift (py_index nmes index) ;;
            q <- lift (plsh (Np.slice centroids first_ind (first_ind + n))
                            (nxsub wfs) (p_tel_cobs cfg)) ;;
            ret (Some q)) ;;
  q <- need (NameError "x") xyv ;;
  update_img key (canvas_do (AxesQuiver q)) ;;
  ret xyv.

(** The block under [elif "slp" in key]. *)
Definition slope_block (key : string) (index : Z) (xyv : option quiver)
  : M (option quiver) :=
  update_img key (canvas_do AxesClear) ;;
  xyv <- (if PyStr.contains "Geom" key then
            sl <- sup_get (Call_getSlopeGeom index)
                          (fun s => Supervisor.getSlopeGeom s index) ;;
            cfg <- the_config ;;
            wfs <- lift (py_index (p_wfss cfg) index) ;;
            q <- lift (plsh sl (nxsub wfs) (p_tel_cobs cfg)) ;;
            ret (Some q)
          else ret xyv) ;;
  xyv <- (if PyStr.contains "Comp" key then slope_comp key index xyv
          else ret xyv) ;;
  update_img key (canvas_do CanvasDraw) ;;
  ret xyv.

(** One visible dock.  [xyv] stands for the local variables
    [x, y, vx, vy], which keep their values from one dock to the next. *)
Definition display_dock (key : string) (xyv : option quiver)
  : M (option quiver) :=
  index <- lift (PyStr.index_of_key key) ;;
  data <- fetch "atm" key (Call_getAtmScreen index)
            (fun s => Supervisor.getAtmScreen s index) None ;;
  data <- fetch "wfs" key (Call_getWfsPhase index)
            (fun s => Supervisor.getWfsPhase s index) data ;;
  data <- (if PyStr.contains "dm" key then
             cfg <- the_config ;;
             _ <- lift (py_index (p_dms cfg) index) ;;
             f <- sup_get (Call_getDmShape index)
                    (fun s => Supervisor.getDmShape s index) ;;
             ret (Some f)
           else ret data) ;;
  data <- fetch "tar" key (Call_getTarPhase index)
            (fun s => Supervisor.getTarPhase s index) data ;;
  data <- fetch "psfLE" key (Call_getTarImage index "le")
            (fun s => Supervisor.getTarImage s index "le") data ;;
  data <- fetch "psfSE" key (Call_getTarImage index "se")
            (fun s => Supervisor.getTarImage s index "se") data ;;
  data <- (if PyStr.contains "psf" key then psf_block key data
           else ret data) ;;
  data <- fetch "SH" key (Call_getWfsImage index)
            (fun s => Supervisor.getWfsImage s index) data ;;
  data <- fetch "pyrLR" key (Call_getWfsImage index)
            (fun s => Supervisor.getWfsImage s index) data ;;
  data <- fetch "pyrHR" key (Call_getPyrHRImage index)
            (fun s => Supervisor.getPyrHRImage s index) data ;;
  data <- fetch "pyrFocalPlane" key (Call_getPyrFocalPlane index)
            (fun s => Supervisor.getPyrFocalPlane s index) data ;;
  match data with
  | Some d => update_img key (setImage d) ;; ret xyv
  | None =>
      if PyStr.contains "slp" key then slope_block key index xyv
      else ret xyv
  end.

(** One round of the loop over [self.docks.items()]. *)
Definition display_round (xyv : option quiver) (kd : string * Dock)
  : M (option quiver) :=
  if String.eqb (fst kd) "Strehl" then ret xyv
  else if isVisible (snd kd) then display_dock (fst kd) xyv
  else ret xyv.

Definition updateDisplay : M unit :=
  nr <- not_ready ;;
  if nr then ret tt
  else
    acquired <- loopLock_acquire ;;
    if negb acquired then ret tt
    else
      try_finally
        (ds <- gets docks ;;
         _ <- for_fold ds None display_round ;;
         modify (set_firstTime 1))
        loopLock_release.

(** *** Loading a configuration *)

(** [for key, pgpl in items.items(): self.viewboxes[key].removeItem(pgpl)] *)
Definition remove_overlays (items : dict Item) : M unit :=
  for_each items (fun kp => update_viewbox (fst kp) (removeItem (snd kp))).

Fixpoint remove_string (x : string) (l : list string) : option (list string) :=
  match l with
  | [] => None
  | y :: l' =>
      if String.eqb x y then Some l'
      else match remove_string x l' with
           | Some r => Some (y :: r)
           | None => None
           end
  end.

(** [sys.path.remove(p)]: a [ValueError] when [p] is not on the path. *)
Definition sys_path_remove (p : string) : M unit :=
  fun w =>
    match remove_string p (sys_path w) with
    | Some l => (Ok tt, set_sys_path l w)
    | None => (Raise ValueError, w)
    end.

(** [[int(device) for device in devices.split(",")]] *)
Fixpoint ints_of (l : list PyStr.chars) : result (list Z) :=
  match l with
  | [] => Ok []
  | d :: l' =>
      match PyStr.int_of d with
      | Raise e => Raise e
      | Ok z =>
          match ints_of l' with
          | Raise e => Raise e
          | Ok zs => Ok (z :: zs)
          end
      end
  end.

(** The docks of one wavefront sensor, the body of the loop over
    [range(self.nwfs)]. *)
Definition wfs_docks (wfs : nat) : M unit :=
  add_dispDock ("wfs_" ++ PyStr.dec wfs) wao_phasesgroup_cb "pg_image" ;;
  add_dispDock ("slpComp_" ++ PyStr.dec wfs) wao_graphgroup_cb "MPL" ;;
  add_dispDock ("slpGeom_" ++ PyStr.dec wfs) wao_graphgroup_cb "MPL" ;;
  cfg <- the_config ;;
  p <- lift (py_index (p_wfss cfg) (Z.of_nat wfs)) ;;
  if is_SH (wfs_type p) then
    add_dispDock ("SH_" ++ PyStr.dec wfs) wao_imagesgroup_cb "pg_image"
  else if is_pyr (wfs_type p) then
    add_dispDock ("pyrFocalPlane_" ++ PyStr.dec wfs) wao_imagesgroup_cb "pg_image" ;;
    add_dispDock ("pyrHR_" ++ PyStr.dec wfs) wao_imagesgroup_cb "pg_image" ;;
    add_dispDock ("pyrLR_" ++ PyStr.dec wfs) wao_imagesgroup_cb "pg_image"
  else raise TypeError.

(** [for i in range(n): self.add_dispDock(prefix + "%d" % i, parent)] *)
Definition numbered_docks (prefix : string) (n : nat) (parent : Group)
  : M unit :=
  for_each (range n)
    (fun i => add_dispDock (prefix ++ PyStr.dec i) parent "pg_image").

(** From [self.natm = ...] to the Strehl dock. *)
Definition create_docks : M unit :=
  cfg <- the_config ;;
  modify (set_natm (List.length (p_atmos_alt cfg))) ;;
  n <- gets natm ;;
  numbered_docks "atm_" n wao_phasesgroup_cb ;;
  cfg <- the_config ;;
  modify (set_nwfs (List.length (p_wfss cfg))) ;;
  n <- gets nwfs ;;
  for_each (range n) wfs_docks ;;
  cfg <- the_config ;;
  modify (set_ndm (List.length (p_dms cfg))) ;;
  n <- gets ndm ;;
  numbered_docks "dm_" n wao_phasesgroup_cb ;;
  cfg <- the_config ;;
  modify (set_ntar (List.length (p_targets cfg))) ;;
  n <- gets ntar ;;
  numbered_docks "tar_" n wao_phasesgroup_cb ;;
  n <- gets ntar ;;
  numbered_docks "psfSE_" n wao_imagesgroup_cb ;;
  n <- gets ntar ;;
  numbered_docks "psfLE_" n wao_imagesgroup_cb ;;
  add_dispDock "Strehl" wao_graphgroup_cb "SR".

(** From [self.uiAO.wao_resetSR_tarNum.setValue(0)] to the end. *)
Definition finish_loadConfig : M unit :=
  cfg <- the_config ;;
  let top := (Z.of_nat (List.length (p_targets cfg)) - 1)%Z in
  update_uiAO (set_wao_resetSR_tarNum 0%Z) ;;
  update_uiAO (set_wao_resetSR_tarNum_max top) ;;
  update_uiAO (set_wao_dispSR_tar 0%Z) ;;
  update_uiAO (set_wao_dispSR_tar_max top) ;;
  update_uiAO (set_wao_run_disabled true) ;;
  update_uiAO (set_wao_next_disabled true) ;;
  update_uiAO (set_wao_unzoom_disabled true) ;;
  update_uiAO (set_wao_resetSR_disabled true) ;;
  update_uiBase (set_wao_init_disabled false) ;;
  ex <- gets expert ;;
  (if ex then expertWidget_setSupervisor ;; expertWidget_updatePanels
   else ret tt) ;;
  cfg <- the_config ;;
  match layout cfg with
  | Some l =>
      area <- gets defaultAreaPath ;;
      loadArea (area ++ "/" ++ l ++ ".area")
  | None => ret tt
  end.

(** From [self.SRcircles.clear()] to [self.PyrEdgeY.clear()]. *)
Definition clear_overlays : M unit :=
  modify (set_SRcircles []) ;;
  modify (set_SRCrossX []) ;;
  modify (set_SRCrossY []) ;;
  modify (set_PyrEdgeX []) ;;
  modify (set_PyrEdgeY []).

(** From [if configFile is None] to the [try] around
    [sys.path.remove]. *)
Definition load_supervisor (configFile : option string)
    (supervisor_arg : option Sup) : M unit :=
  configFile <- match configFile with
                | Some f => ret f
                | None =>
                    f <- gets (fun w => wao_selectConfig (uiBase w)) ;;
                    modify (fun w =>
                      set_sys_path (defaultParPath w :: sys_path w) w) ;;
                    ret f
                end ;;
  match supervisor_arg with
  | None =>
      log_call Call_CompassSupervisor ;;
      s <- lift Supervisor.new ;;
      modify (set_supervisor (Some s)) ;;
      sup_do (Call_loadConfig configFile) (Supervisor.loadConfig configFile)
  | Some s => modify (set_supervisor (Some s))
  end ;;
  cfg <- sup_get Call_getConfig Supervisor.getConfig ;;
  modify (set_config (Some cfg)) ;;
  dev <- gets devices ;;
  match dev with
  | Some (String c d) =>
      l <- lift (ints_of (PyStr.split ","%char (String c d))) ;;
      cfg <- the_config ;;
      modify (set_config (Some (set_p_loop_devices l cfg)))
  | _ => ret tt
  end ;;
  par <- gets defaultParPath ;;
  try_except (sys_path_remove par) (ret tt).

Definition loadConfig (configFile : option string)
    (supervisor_arg : option Sup) : M unit :=
  WidgetBase_loadConfig ;;
  its <- gets SRcircles ;; remove_overlays its ;;
  its <- gets SRCrossX ;; remove_overlays its ;;
  its <- gets SRCrossY ;; remove_overlays its ;;
  its <- gets PyrEdgeX ;; remove_overlays its ;;
  its <- gets PyrEdgeY ;; remove_overlays its ;;
  load_supervisor configFile supervisor_arg ;;
  clear_overlays ;;
  create_docks ;;
  finish_loadConfig.

(** *** Construction and wiring *)

(** The attributes [__init__] sets on the window, with [parPath] and
    [areaPath] the two default paths built from the environment. *)
Definition init_attributes (parPath areaPath : string) (expert_arg : bool)
    (devs : option string) (w : World) : World :=
  let ui := set_wao_resetSR_disabled true
              (set_wao_unzoom_disabled true
                 (set_wao_next_disabled true
                    (set_wao_run_disabled true
                       (set_wao_nbiters 1000%Z (uiAO w))))) in
  mkWorld (deque_new 100) (deque_new 100) (deque_new 100) None None false
    (wao_nbiters ui) 0%Q false [] [] [] [] [] 0 0 0 0 1%Z expert_arg devs
    parPath areaPath (loopLock w) (docks w) (imgs w) (viewboxes w) ui
    (uiBase w) ([], []) ([], []) (wao_bound w) (sys_path w) (clock w)
    (ticks w) (stdout w) (calls w) (dock_calls w).

(** The signals [__init__] connects. *)
Inductive Signal : Type :=
| wao_run_clicked (pressed : bool)
| wao_openLoop_clicked (pressed : bool)
| wao_next_clicked
| wao_resetSR_clicked
| wao_allTarget_stateChanged (state : bool)
| wao_forever_stateChanged (state : bool)
| wao_atmosphere_clicked (atmos : bool)
| wao_clearSR_clicked.

(** The slot each signal is connected to. *)
Definition slot (s : Signal) : M unit :=
  match s with
  | wao_run_clicked pressed => aoLoopClicked pressed
  | wao_openLoop_clicked pressed => aoLoopOpen pressed
  | wao_next_clicked => loopOnce
  | wao_resetSR_clicked => resetSR
  | wao_allTarget_stateChanged state => updateAllTarget state
  | wao_forever_stateChanged state => updateForever state
  | wao_atmosphere_clicked atmos => set_see_atmos atmos
  | wao_clearSR_clicked => clearSR
  end.

End Widget.

(** ** Properties of computations *)

Section Properties.
Context {D : Domain} {SV : Supervisor.Ops} {NP : Np.Ops} {HP : Helpers}.

(** [m] leaves the observation [f] of the window as it was, whether it
    returns or raises. *)
Definition keeps {A B} (f : World -> B) (m : M A) : Prop :=
  forall w, f (exec m w) = f w.

(** [m] maintains [P]. *)
Definition preserves {A} (P : World -> Prop) (m : M A) : Prop :=
  forall w, P w -> P (exec m w).

(** Every window before and after [m] is related by [R]. *)
Definition relates {A} (R : World -> World -> Prop) (m : M A) : Prop :=
  forall w, R w (exec m w).

(** The code taken through [Helpers] maintains [P]. *)
Definition helpers_preserve (P : World -> Prop) : Prop :=
  preserves P WidgetBase_run /\
  preserves P WidgetBase_loadConfig /\
  (forall n g t, preserves P (WidgetBase_add_dispDock n g t)) /\
  (forall f, preserves P (loadArea f)) /\
  (forall s, preserves P (printInPlace s)) /\
  preserves P expertWidget_setSupervisor /\
  preserves P expertWidget_updatePanels.

(** *** The Strehl history *)

(** The three buffers have one length and one bound, 100 or 20. *)
Definition SR_inv (w : World) : Prop :=
  deque_len (SRSE w) = deque_len (SRLE w) /\
  deque_len (numiter w) = deque_len (SRLE w) /\
  maxlen (SRSE w) = maxlen (SRLE w) /\
  maxlen (numiter w) = maxlen (SRLE w) /\
  (maxlen (SRLE w) = 100 \/ maxlen (SRLE w) = 20)%nat /\
  (deque_len (SRLE w) <= maxlen (SRLE w))%nat.

(** What can happen to a window once it is built: a connected signal
    fires, the display timer calls [updateDisplay], the loop calls [run]
    again, a configuration is loaded, [updateSRDisplay] is called, or the
    user edits a widget. *)
Inductive Event : Type :=
| E_signal (s : Signal)
| E_updateDisplay
| E_run
| E_loadConfig (configFile : option string) (supervisor_arg : option Sup)
| E_updateSRDisplay (le se : Q) (n : Z)
| E_edit (f : UiAO -> UiAO) (g : UiBase -> UiBase).

Local Open Scope py_scope.

Definition handle (e : Event) : M unit :=
  match e with
  | E_signal s => slot s
  | E_updateDisplay => updateDisplay
  | E_run => run
  | E_loadConfig f s => loadConfig f s
  | E_updateSRDisplay le se n => updateSRDisplay le se n
  | E_edit f g => update_uiAO f ;; update_uiBase g
  end.

Fixpoint after (es : list Event) (w : World) : World :=
  match es with
  | [] => w
  | e :: es' => after es' (exec (handle e) w)
  end.

(** *** The loop *)


(** *** One simulation step *)

Fixpoint comp_images (ts : list nat) (s : Sup) : result unit * Sup :=
  match ts with
  | [] => (Ok tt, s)
  | t :: ts' =>
      match Supervisor.comp_image t s with
      | (Ok _, s1) => comp_images ts' s1
      | (Raise e, s1) => (Raise e, s1)
      end
  end.

(** [singleNext] followed by [comp_image] on each target object. *)
Definition sim_step (s : Sup) : result unit * Sup :=
  match Supervisor.singleNext (Supervisor.seeAtmos s) s with
  | (Ok _, s1) =>
      match Supervisor.sim s1 with
      | Supervisor.SimReady => comp_images (range (Supervisor.d_targets s1)) s1
      | _ => (Raise AttributeError, s1)
      end
  | (Raise e, s1) => (Raise e, s1)
  end.

Definition count_singleNext (cs : list SupCall) : nat :=
  List.length
    (filter (fun c => match c with Call_singleNext _ => true | _ => false end)
            cs).

(** The three clock readings of an iteration that starts in [w]. *)
Definition start_time (w : World) : Q := clock w (ticks w).
Definition check_time (w : World) : Q := clock w (2 + ticks w).

(** The throttle: more than [1 / frame rate] since [refreshTime]. *)
Definition refresh_due (w : World) : bool :=
  negb (Qeq_bool (wao_frameRate (uiBase w)) 0) &&
  Qlt_bool (1 / wao_frameRate (uiBase w)) (check_time w - refreshTime w).

(** What the throttle guards: the Strehl plot, the two Strehl text
    fields and the loop-frequency display. *)
Definition strehl_displays (w : World)
  : (deque Q * deque Q * deque Z) * ((list Z * list Q) * (list Z * list Q))
    * (string * string * Q) :=
  ((SRLE w, SRSE w, numiter w), (curveSRSE w, curveSRLE w),
   (wao_strehlSE (uiAO w), wao_strehlLE (uiAO w), wao_currentFreq (uiAO w))).

(** *** One iteration, piece by piece *)

(** The calls of a simulation step in which nothing raises. *)
Definition step_calls (s : Sup) : list SupCall :=
  Call_singleNext (Supervisor.seeAtmos s) ::
  map Call_comp_image
    (range (Supervisor.d_targets
              (snd (Supervisor.singleNext (Supervisor.seeAtmos s) s)))).

(** The first half of the [try] block of [loopOnce]: the start time is
    read and the simulation is advanced. *)
Definition simulate : M Q :=
  start <- time_time ;;
  s <- the_supervisor ;;
  sup_do (Call_singleNext (Supervisor.seeAtmos s))
         (Supervisor.singleNext (Supervisor.seeAtmos s)) ;;
  comp_all_images ;;
  ret start.

(** The short- and long-exposure Strehl ratios the supervisor reports
    for target [t]. *)
Definition strehl_se (s : Sup) (t : nat) : Q :=
  match Supervisor.getStrehl s (Z.of_nat t) with
  | Ok (se :: _) => se
  | _ => 0
  end.

Definition strehl_le (s : Sup) (t : nat) : Q :=
  match Supervisor.getStrehl s (Z.of_nat t) with
  | Ok (_ :: le :: _) => le
  | _ => 0
  end.

(** [getStrehl(t)] returns, with at least two entries. *)
Definition strehl_ok (s : Sup) (t : nat) : Prop :=
  exists se le rest,
    Supervisor.getStrehl s (Z.of_nat t) = Ok (se :: le :: rest).

(** The line of text shown for the targets [ts]. *)
Fixpoint strehl_text (f : nat -> Q) (ts : list nat) : string :=
  match ts with
  | [] => ""
  | t :: ts' => (fmt_1_2f (f t) ++ "   " ++ strehl_text f ts')%string
  end.

(** The calls of the Strehl loop over the targets [ts], [sel] being the
    target selected for the plot. *)
Definition strehl_calls (sel : Z) (ts : list nat) : list SupCall :=
  flat_map
    (fun t =>
       Call_getStrehl (Z.of_nat t) ::
       (if (Z.of_nat t =? sel)%Z then [Call_getFrameCounter] else []))
    ts.

(** The window after the Strehl loop over [ts], when no call raises:
    [vals] gives the values [(SR[1], SR[0], frame counter)] to plot. *)
Fixpoint strehl_world (vals : nat -> Q * Q * Z) (ts : list nat) (w : World)
  : World :=
  match ts with
  | [] => w
  | t :: ts' =>
      let w1 := set_calls (calls w ++ [Call_getStrehl (Z.of_nat t)]) w in
      let w2 :=
        if (Z.of_nat t =? wao_dispSR_tar (uiAO w))%Z then
          let '(le, se, n) := vals t in
          exec (updateSRDisplay le se n)
            (set_calls (calls w1 ++ [Call_getFrameCounter]) w1)
        else w1 in
      strehl_world vals ts' w2
  end.

(** A history to which the values of the selected target, if it is
    among [ts], have been appended. *)
Definition plotted {A} (sel : Z) (f : nat -> A) (ts : list nat)
    (d : deque A) : deque A :=
  fold_left
    (fun d t => if (Z.of_nat t =? sel)%Z then deque_append (f t) d else d)
    ts d.

(** [m], when it returns, leaves the window in a state where [Q]
    holds. *)
Definition ensures {A} (m : M A) (Q : World -> Prop) : Prop :=
  forall w, is_ok (outcome m w) = true -> Q (exec m w).

(** A window that differs from [w] in nothing the throttle guards. *)
Definition same_displays (w w' : World) : Prop :=
  strehl_displays w' = strehl_displays w /\ refreshTime w' = refreshTime w.


(** The window [w] with the fields the Strehl loop writes taken from [W]. *)
Definition touched (W w : World) : World :=
  set_curveSRLE (curveSRLE W)
    (set_curveSRSE (curveSRSE W)
       (set_numiter (numiter W)
          (set_SRSE (SRSE W) (set_SRLE (SRLE W) (set_calls (calls W) w))))).

(** The iteration that starts in [w] changes what the throttle guards. *)
Definition refreshes (w : World) : Prop :=
  ~ same_displays w (exec loopOnce w).

(** The displays are never refreshed more often than the frame rate: two
    iterations in a row that both refresh have their throttle tests at
    least one frame period apart. *)
Definition throttled_at_frame_rate : Prop :=
  forall w,
    refreshes w -> refreshes (exec loopOnce w) ->
    (1 / wao_frameRate (uiBase w) <=
     check_time (exec loopOnce w) - check_time w)%Q.

(** *** Loading a configuration *)

(** From [P] before, [m] returns, with [Q] after. *)
Definition triple {A} (P : World -> Prop) (m : M A)
    (Q : A -> World -> Prop) : Prop :=
  forall w, P w -> exists a, outcome m w = Ok a /\ Q a (exec m w).

(** What the creation of the docks relies on from one step to the next. *)
Definition load_frame (w : World)
  : option Config * list (string * Group * string)
    * (dict Item * dict Item * dict Item * dict Item * dict Item)
    * (nat * nat * nat * nat) :=
  (config w, dock_calls w,
   (SRcircles w, SRCrossX w, SRCrossY w, PyrEdgeX w, PyrEdgeY w),
   (natm w, nwfs w, ndm w, ntar w)).



(** The supervisor [loadConfig] works with: the one it is given, or a
    new one that has loaded the configuration file. *)
Definition supplied (configFile : string) (supervisor_arg : option Sup)
  : result Sup :=
  match supervisor_arg with
  | Some s => Ok s
  | None =>
      match Supervisor.new with
      | Ok s0 =>
          match Supervisor.loadConfig configFile s0 with
          | (Ok _, s1) => Ok s1
          | (Raise e, _) => Raise e
          end
      | Raise e => Raise e
      end
  end.

(** The devices given on the command line, if any. *)
Definition device_list (devs : option string) : result (option (list Z)) :=
  match devs with
  | Some (String c d) =>
      match ints_of (PyStr.split ","%char (String c d)) with
      | Ok l => Ok (Some l)
      | Raise e => Raise e
      end
  | _ => Ok None
  end.

(** The docks of a configuration, as the claim lists them: one phase
    dock per atmosphere layer, per sensor, per mirror and per target, two
    slope docks per sensor, the image docks of each sensor by its type,
    two PSF docks per target, and the Strehl dock. *)
Definition dock_name (prefix : string) (i : nat) : string :=
  (prefix ++ PyStr.dec i)%string.

Definition numbered (prefix : string) (n : nat) (parent : Group)
  : list (string * Group * string) :=
  map (fun i => (dock_name prefix i, parent, "pg_image"%string)) (range n).

Definition sensor_docks (i : nat) (p : WfsParam)
  : list (string * Group * string) :=
  [(dock_name "wfs_" i, wao_phasesgroup_cb, "pg_image"%string);
   (dock_name "slpComp_" i, wao_graphgroup_cb, "MPL"%string);
   (dock_name "slpGeom_" i, wao_graphgroup_cb, "MPL"%string)] ++
  (if is_SH (wfs_type p) then
     [(dock_name "SH_" i, wao_imagesgroup_cb, "pg_image"%string)]
   else if is_pyr (wfs_type p) then
     [(dock_name "pyrFocalPlane_" i, wao_imagesgroup_cb, "pg_image"%string);
      (dock_name "pyrHR_" i, wao_imagesgroup_cb, "pg_image"%string);
      (dock_name "pyrLR_" i, wao_imagesgroup_cb, "pg_image"%string)]
   else []).

Fixpoint sensors_docks (i : nat) (ps : list WfsParam)
  : list (string * Group * string) :=
  match ps with
  | [] => []
  | p :: ps' => sensor_docks i p ++ sensors_docks (S i) ps'
  end.

Definition expected_docks (cfg : Config) : list (string * Group * string) :=
  numbered "atm_" (List.length (p_atmos_alt cfg)) wao_phasesgroup_cb ++
  sensors_docks 0 (p_wfss cfg) ++
  numbered "dm_" (List.length (p_dms cfg)) wao_phasesgroup_cb ++
  numbered "tar_" (List.length (p_targets cfg)) wao_phasesgroup_cb ++
  numbered "psfSE_" (List.length (p_targets cfg)) wao_imagesgroup_cb ++
  numbered "psfLE_" (List.length (p_targets cfg)) wao_imagesgroup_cb ++
  [("Strehl"%string, wao_graphgroup_cb, "SR"%string)].

Definition known_sensor (p : WfsParam) : bool :=
  is_SH (wfs_type p) || is_pyr (wfs_type p).

(** What the helpers are relied on for while the docks are created. *)
Definition dock_helper_ok : Prop :=
  forall name g t,
    (forall w, is_ok (outcome (WidgetBase_add_dispDock name g t) w) = true) /\
    keeps load_frame (WidgetBase_add_dispDock name g t).

(** A sensor to stand for the ones out of range. *)
Definition no_sensor : WfsParam := mkWfsParam SH 0 0.



(** *** The buttons *)

(** The window just before [aoLoopClicked(True)] calls [run]. *)
Definition armed (w : World) : World :=
  let w1 :=
    set_nbiter (wao_nbiters (uiAO w))
      (set_refreshTime (clock w (ticks w))
         (set_ticks (S (ticks w)) (set_stop false w))) in
  if dispStatsInTerminal w then
    set_stdout
      (stdout w ++
       [if wao_forever (uiAO w) then "LOOP STARTED"%string
        else ("LOOP STARTED FOR " ++ PyStr.dec_Z (wao_nbiters (uiAO w))
              ++ " iterations")%string]) w1
  else w1.

(** The supervisor after [resetStrehl] on each target of [ts] in turn. *)
Definition reset_all (ts : list nat) (s : Sup) : Sup :=
  fold_left (fun s t => snd (Supervisor.resetStrehl (Z.of_nat t) s)) ts s.



End Properties.

(** ** The docks and what they show *)

(** The characters of a decimal numeral. *)
Definition digits (d : uint) : PyStr.chars :=
  list_ascii_of_string (NilEmpty.string_of_uint d).

(** A pattern of letters: not empty, no digit in it. *)
Definition letters (p : PyStr.chars) : bool :=
  match p with
  | [] => false
  | _ => forallb (fun c => negb (PyStr.is_digit c)) p
  end.


Section Display.
Context {D : Domain} {SV : Supervisor.Ops} {NP : Np.Ops} {HP : Helpers}.

(** The docks that show an image. *)
Inductive ImageKind : Type :=
| K_atm
| K_wfs
| K_dm
| K_tar
| K_psfSE
| K_psfLE
| K_SH
| K_pyrLR
| K_pyrHR
| K_pyrFocalPlane.

Definition kind_name (k : ImageKind) : string :=
  match k with
  | K_atm => "atm"%string
  | K_wfs => "wfs"%string
  | K_dm => "dm"%string
  | K_tar => "tar"%string
  | K_psfSE => "psfSE"%string
  | K_psfLE => "psfLE"%string
  | K_SH => "SH"%string
  | K_pyrLR => "pyrLR"%string
  | K_pyrHR => "pyrHR"%string
  | K_pyrFocalPlane => "pyrFocalPlane"%string
  end.

(** The dock [name_i]. *)
Definition image_key (k : ImageKind) (i : nat) : string :=
  dock_name (kind_name k ++ "_")%string i.

(** The getter each kind of dock is fed from, as the claim lists
    them. *)
Definition source (k : ImageKind) (s : Sup) (i : Z) : result frame :=
  match k with
  | K_atm => Supervisor.getAtmScreen s i
  | K_wfs => Supervisor.getWfsPhase s i
  | K_dm => Supervisor.getDmShape s i
  | K_tar => Supervisor.getTarPhase s i
  | K_psfSE => Supervisor.getTarImage s i "se"%string
  | K_psfLE => Supervisor.getTarImage s i "le"%string
  | K_SH => Supervisor.getWfsImage s i
  | K_pyrLR => Supervisor.getWfsImage s i
  | K_pyrHR => Supervisor.getPyrHRImage s i
  | K_pyrFocalPlane => Supervisor.getPyrFocalPlane s i
  end.

Definition is_psf (k : ImageKind) : bool :=
  match k with K_psfSE | K_psfLE => true | _ => false end.

(** A PSF in logarithmic scale: what is not positive is first replaced
    by the least positive value. *)
Definition log_scaled (f : frame) : result frame :=
  if Np.any_nonpos f then
    match Np.fill_nonpos f with
    | Ok g => Ok (Np.log10 g)
    | Raise e => Raise e
    end
  else Ok (Np.log10 f).

(** What a dock of kind [k] shows of the frame [f]. *)
Definition shown (k : ImageKind) (logscale : bool) (f : frame)
  : result frame :=
  if is_psf k && logscale then log_scaled f else Ok f.

(** The image shown by the dock [key], if there is such a dock. *)
Definition image_of (key : string) (w : World) : option (option frame) :=
  option_map image (dict_get key (imgs w)).

(** The claim, for the image docks: with an initialised supervisor and
    the lock free, [updateDisplay] leaves in every visible dock the frame
    its getter returns. *)
Definition shows_the_frames : Prop :=
  forall w s k i dock,
    supervisor w = Some s ->
    Supervisor.sim s = Supervisor.SimReady ->
    Supervisor.isInit s = Ok true ->
    loopLock w = false ->
    In (image_key k i, dock) (docks w) -> isVisible dock = true ->
    exists f,
      source k s (Z.of_nat i) = Ok f /\
      image_of (image_key k i) (exec updateDisplay w) = Some (Some f).

(** [W] differs from [w], as far as the display goes, only in the images
    and view boxes of the keys in [T] and in the calls made since. *)
Definition display_frame (T : string -> Prop) (w W : World) : Prop :=
  supervisor W = supervisor w /\ config W = config w /\
  uiAO W = uiAO w /\ docks W = docks w /\ loopLock W = loopLock w /\
  wao_bound W = wao_bound w /\
  (forall k, ~ T k ->
     dict_get k (imgs W) = dict_get k (imgs w) /\
     dict_get k (viewboxes W) = dict_get k (viewboxes w)) /\
  (exists l, calls W = calls w ++ l).

(** The call [c] was made on the supervisor between [w] and [W]. *)
Definition called_since (w W : World) (c : SupCall) : Prop :=
  exists l, calls W = calls w ++ l /\ In c l.

(** The canvas operations applied to the item [key] between [w] and
    [W]. *)
Definition drawn_since (key : string) (w W : World) (ops : list CanvasOp)
  : Prop :=
  exists i, dict_get key (imgs w) = Some i /\
            dict_get key (imgs W) = Some (mkImg (image i) (canvas i ++ ops)).

(** The keys of the visible docks of [ds], the Strehl dock apart. *)
Definition shown_in (ds : dict Dock) (k : string) : Prop :=
  exists dock, In (k, dock) ds /\ isVisible dock = true /\ k <> "Strehl"%string.

(** What a run of the loop of [updateDisplay] over the docks [ds], from
    [w] to [W], has done for each visible dock: the image docks show the
    frame of their getter, the slope docks have had their slopes read. *)
Definition refreshed (s : Sup) (ds : dict Dock) (w W : World) : Prop :=
  (forall k i dock,
     In (image_key k i, dock) ds -> isVisible dock = true ->
     exists f g,
       source k s (Z.of_nat i) = Ok f /\
       shown k (actionPSF_Log_Scale (uiAO w)) f = Ok g /\
       image_of (image_key k i) W = Some (Some g)) /\
  (forall i dock,
     In (dock_name "slpGeom_" i, dock) ds -> isVisible dock = true ->
     called_since w W (Call_getSlopeGeom (Z.of_nat i))) /\
  (forall i dock,
     In (dock_name "slpComp_" i, dock) ds -> isVisible dock = true ->
     called_since w W Call_getSlope).

(** The image and the view box of [key] are in [W] what they are in [w]. *)
Definition untouched (key : string) (w W : World) : Prop :=
  dict_get key (imgs W) = dict_get key (imgs w) /\
  dict_get key (viewboxes W) = dict_get key (viewboxes w).

End Display.

(** ** A supervisor to run the window against

    A small stand-in for the simulation engine: frames are kept symbolic,
    named after the getter that produced them and the frame counter at
    that moment, with the numpy operations applied on top. *)

Module Mock.

Inductive mframe : Type :=
| Buf (name : string) (i : Z) (counter : Z)
| Filled (f : mframe)
| Log10 (f : mframe).

Record msup : Type := mkSup {
  counter : Z;
  ready : bool;
  loop_closed : bool;
  resets : list Z;
  imaged : list nat;
  sim_config : Config
}.

Definition dom : Domain :=
  {| Sup := msup; frame := mframe; slopes := list Z; quiver := list Z |}.
#[local] Existing Instance dom.

Definition sv : @Supervisor.Ops dom :=
  {| Supervisor.new := Ok (mkSup 0 false false [] [] (mkConfig [] [] [] [] 0 [] None));
     Supervisor.loadConfig := fun _ s => (Ok tt, s);
     Supervisor.getConfig := fun s => Ok (sim_config s);
     Supervisor.sim := fun s =>
       if ready s then Supervisor.SimReady else Supervisor.SimNone;
     Supervisor.seeAtmos := fun _ => true;
     Supervisor.d_targets := fun s => List.length (p_targets (sim_config s));
     Supervisor.isInit := fun s => Ok (ready s);
     Supervisor.enableAtmos := fun _ s => (Ok tt, s);
     Supervisor.resetStrehl := fun t s =>
       (Ok tt, mkSup (counter s) (ready s) (loop_closed s) (resets s ++ [t])
                 (imaged s) (sim_config s));
     Supervisor.closeLoop := fun s =>
       (Ok tt, mkSup (counter s) (ready s) true (resets s) (imaged s)
                 (sim_config s));
     Supervisor.openLoop := fun s =>
       (Ok tt, mkSup (counter s) (ready s) false (resets s) (imaged s)
                 (sim_config s));
     Supervisor.singleNext := fun _ s =>
       (Ok tt, mkSup (counter s + 1) (ready s) (loop_closed s) (resets s)
                 (imaged s) (sim_config s));
     Supervisor.comp_image := fun t s =>
       (Ok tt, mkSup (counter s) (ready s) (loop_closed s) (resets s)
                 (imaged s ++ [t]) (sim_config s));
     Supervisor.getStrehl := fun s t =>
       Ok [1 # Pos.succ (Z.to_pos (t + 1)); 1 # Z.to_pos (t + 1); 0; 0]%Q;
     Supervisor.getFrameCounter := fun s => Ok (counter s);
     Supervisor.getAtmScreen := fun s i => Ok (Buf "atm" i (counter s));
     Supervisor.getWfsPhase := fun s i => Ok (Buf "wfs" i (counter s));
     Supervisor.getDmShape := fun s i => Ok (Buf "dm" i (counter s));
     Supervisor.getTarPhase := fun s i => Ok (Buf "tar" i (counter s));
     Supervisor.getTarImage := fun s i k => Ok (Buf k i (counter s));
     Supervisor.getWfsImage := fun s i => Ok (Buf "wfsimg" i (counter s));
     Supervisor.getPyrHRImage := fun s i => Ok (Buf "pyrhr" i (counter s));
     Supervisor.getPyrFocalPlane := fun s i => Ok (Buf "pyrfp" i (counter s));
     Supervisor.getSlopeGeom := fun s i => Ok [i; counter s];
     Supervisor.getSlope := fun s => Ok [counter s] |}.

Definition np : @Np.Ops dom :=
  {| Np.any_nonpos := fun f => match f with Buf _ _ _ => true | _ => false end;
     Np.fill_nonpos := fun f => Ok (Filled f);
     Np.log10 := Log10;
     Np.shape0 := fun _ => 64%Z;
     Np.shape1 := fun _ => 64%Z;
     Np.slice := fun (l : list Z) lo hi =>
       firstn (Z.to_nat (hi - lo)) (skipn (Z.to_nat lo) l) |}.

Definition show_Q (q : Q) : string :=
  (PyStr.dec_Z (Qnum q) ++ "/" ++ PyStr.dec (Pos.to_nat (Qden q)))%string.

(** A base class that registers a visible dock with an empty image and
    an empty view box under the name it is given. *)
Definition register (name : string) : @M dom string :=
  fun w =>
    (Ok name,
     set_docks (dict_set name (mkDock true []) (docks w))
       (set_imgs (dict_set name (mkImg None []) (imgs w))
          (set_viewboxes (dict_set name (mkViewBox [] None) (viewboxes w))
             w))).

(** Helpers whose [WidgetBase.run] does nothing. *)
Definition idle : @Helpers dom :=
  {| fmt_1_2f := show_Q;
     fmt_4_1f := show_Q;
     plsh := fun sl _ _ => Ok sl;
     plpyr := fun _ _ => Ok tt;
     WidgetBase_run := ret tt;
     WidgetBase_loadConfig := ret tt;
     WidgetBase_add_dispDock := fun name _ _ => register name;
     loadArea := fun _ => ret tt;
     printInPlace := fun s => @print dom s;
     expertWidget_setSupervisor := ret tt;
     expertWidget_updatePanels := ret tt |}.

(** Helpers whose [WidgetBase.run] takes one simulation step. *)
Definition hp : @Helpers dom :=
  {| fmt_1_2f := show_Q;
     fmt_4_1f := show_Q;
     plsh := fun sl _ _ => Ok sl;
     plpyr := fun _ _ => Ok tt;
     WidgetBase_run := @loopOnce dom sv idle;
     WidgetBase_loadConfig := ret tt;
     WidgetBase_add_dispDock := fun name _ _ => register name;
     loadArea := fun _ => ret tt;
     printInPlace := fun s => @print dom s;
     expertWidget_setSupervisor := ret tt;
     expertWidget_updatePanels := ret tt |}.

(** A window fresh from [__init__] in the script of the file, which
    binds it to [wao], on a clock that reads [clk]. *)
Definition fresh (clk : nat -> Q) : @World dom :=
  init_attributes "par" "layouts" false None
    (mkWorld (deque_new 0) (deque_new 0) (deque_new 0) None None false 0 0
       false [] [] [] [] [] 0 0 0 0 0 false None "" "" false [] [] []
       (mkUiAO 0 false false false 0 0 false false 0 0 "" "" "" 0 false
          false false false false)
       (mkUiBase 2 false "config.py")
       ([], []) ([], []) true [] clk 0 [] [] []).

(** What the user does to the widgets: the iteration box set to [n] and
    the check boxes and the log-scale action set as given. *)
Definition user (n : Z) (forever allTarget logscale : bool) (w : @World dom)
  : @World dom :=
  let u := uiAO w in
  set_uiAO
    (mkUiAO n (wao_run_checked u) forever allTarget (wao_resetSR_tarNum u)
       (wao_resetSR_tarNum_max u) (wao_resetSR_tarNum_disabled u)
       (wao_nbiters_disabled u) (wao_dispSR_tar u) (wao_dispSR_tar_max u)
       (wao_openLoop_text u) (wao_strehlSE u) (wao_strehlLE u)
       (wao_currentFreq u) logscale (wao_run_disabled u)
       (wao_next_disabled u) (wao_unzoom_disabled u)
       (wao_resetSR_disabled u))
    w.

(** A configuration with one atmosphere layer, a Shack-Hartmann and a
    pyramid sensor, one mirror and two targets. *)
Definition config2 : Config :=
  mkConfig [0%Q] [mkWfsParam SH 8 52; mkWfsParam PYRHR 16 200]
    [mkDmParam "pzt" 0] [tt; tt] (1 # 10) [] None.

Definition sup2 : msup := mkSup 0 true false [] [] config2.

(** The window after loading [config2] from [sup2]. *)
Definition loaded (clk : nat -> Q) : @World dom :=
  exec (@loadConfig dom sv idle (Some "config.py"%string) (Some sup2))
       (fresh clk).

(** A clock that reads [t0 + n * dt] at its [n]th reading. *)
Definition steady (t0 dt : Q) (n : nat) : Q := t0 + inject_Z (Z.of_nat n) * dt.

(** A clock that starts at 100 and jumps by 0.3 between the first and
    the second reading of each iteration that refreshes. *)
Definition jumpy (n : nat) : Q :=
  100 + (3 # 10) * inject_Z (Z.of_nat ((n + 3) / 4)).

(** The window with the configuration loaded, as the user leaves it. *)
Definition shown (logscale : bool) : @World dom :=
  user 1000 false false logscale (loaded (steady 0 1)).

Fixpoint distinct (l : list string) : bool :=
  match l with
  | [] => true
  | x :: l' => negb (existsb (String.eqb x) l') && distinct l'
  end.

End Mock.

(** ** More of the window: what the claims leave out *)

Section MoreDisplay.
Context {D : Domain} {SV : Supervisor.Ops} {NP : Np.Ops} {HP : Helpers}.

(** The call that feeds a dock of kind [k]. *)
Definition getter_call (k : ImageKind) (i : Z) : SupCall :=
  match k with
  | K_atm => Call_getAtmScreen i
  | K_wfs => Call_getWfsPhase i
  | K_dm => Call_getDmShape i
  | K_tar => Call_getTarPhase i
  | K_psfSE => Call_getTarImage i "se"
  | K_psfLE => Call_getTarImage i "le"
  | K_SH => Call_getWfsImage i
  | K_pyrLR => Call_getWfsImage i
  | K_pyrHR => Call_getPyrHRImage i
  | K_pyrFocalPlane => Call_getPyrFocalPlane i
  end.

(** The range [setRange] gives the view box of a PSF of shape
    [n0] by [n1]: [PSFzoom] on each side of the centre. *)
Definition zoomed (n0 n1 : Z) : (Q * Q) * (Q * Q) :=
  ((inject_Z n0 / 2 + 0.5 - PSFzoom, inject_Z n0 / 2 + 0.5 + PSFzoom),
   (inject_Z n1 / 2 + 0.5 - PSFzoom, inject_Z n1 / 2 + 0.5 + PSFzoom))%Q.

(** [first_ind]: where the measurements of sensor [i] start in the
    vector of centroids, summed as [np.int32]. *)
Definition first_ind (cfg : Config) (i : Z) : Z :=
  wrap_int32
    (sum_Z (py_slice_to (map (fun p => (2 * nvalid p)%Z) (p_wfss cfg)) i)).

(** What the display refresh has no business with: the simulation, the
    configuration, the Strehl history, the loop control, the widgets
    and the docks. *)
Definition beside_display (w : World)
  : option Sup * option Config * (deque Q * deque Q * deque Z)
    * (bool * Z * Q) * (UiAO * UiBase) * dict Dock :=
  (supervisor w, config w, (SRLE w, SRSE w, numiter w),
   (stop w, nbiter w, refreshTime w), (uiAO w, uiBase w), docks w).

(** No decimal digit in [s]. *)
Definition undigited (s : PyStr.chars) : bool :=
  forallb (fun c => negb (PyStr.is_digit c)) s.

End MoreDisplay.

Section MoreHistory.
Context {D : Domain} {SV : Supervisor.Ops} {NP : Np.Ops} {HP : Helpers}.

(** The two plotted curves are well formed: as many abscissas as
    ordinates, and no more points than the rolling window holds. *)
Definition plot_inv (w : World) : Prop :=
  SR_inv w /\
  List.length (fst (curveSRSE w)) = List.length (snd (curveSRSE w)) /\
  List.length (fst (curveSRLE w)) = List.length (snd (curveSRLE w)) /\
  (List.length (fst (curveSRSE w)) <= 100)%nat /\
  (List.length (fst (curveSRLE w)) <= 100)%nat.

End MoreHistory.

Section MoreConfig.
Context {D : Domain} {SV : Supervisor.Ops} {NP : Np.Ops} {HP : Helpers}.

(** [sys.path] once [p] has been removed from it, if it was there. *)
Definition without (p : string) (path : list string) : list string :=
  match remove_string p path with
  | Some l => l
  | None => path
  end.

(** [",".join("%d" % n for n in l)] *)
Fixpoint comma_list (l : list nat) : string :=
  match l with
  | [] => ""
  | [n] => PyStr.dec n
  | n :: l' => (PyStr.dec n ++ "," ++ comma_list l')%string
  end.

End MoreConfig.

Section MoreTriples.
Context {D : Domain} {SV : Supervisor.Ops} {NP : Np.Ops} {HP : Helpers}.

(** From [P] before, [m] raises [e], with [Q] after. *)
Definition fails {A} (P : World -> Prop) (m : M A) (e : exn)
    (Q : World -> Prop) : Prop :=
  forall w, P w -> outcome m w = Raise e /\ Q (exec m w).

(** The docks a sensor gets whatever its type. *)
Definition slope_docks (i : nat) : list (string * Group * string) :=
  [(dock_name "wfs_" i, wao_phasesgroup_cb, "pg_image"%string);
   (dock_name "slpComp_" i, wao_graphgroup_cb, "MPL"%string);
   (dock_name "slpGeom_" i, wao_graphgroup_cb, "MPL"%string)].

End MoreTriples.

(** ** Initialising the simulation

    What [initConfig] and [initConfigFinished] call beyond the
    interfaces above: two more methods of the supervisor, the default
    target type of [getTarImage], the pupil diameter of the
    configuration, the trigonometry of numpy, the plot items of
    pyqtgraph, a widget the window only enables, and the code of
    [WidgetBase] and of the expert panel. *)
Class InitEnv {D : Domain} : Type := {
  clearInitSim : Sup -> result unit * Sup;
  forceContext : Sup -> result unit * Sup;
  default_tarType : string;            (* getTarImage(i) *)
  len_frame : frame -> Z;              (* len(data) *)
  p_geom_pupdiam : Config -> Q;
  str_supervisor : Sup -> string;      (* what print(self.supervisor) shows *)
  np_sin : Q -> Q;
  np_cos : Q -> Q;
  np_pi : Q;
  ScatterPlotItem : list Q -> list Q -> M Item;
  setPoints : Item -> list Q -> list Q -> M unit;
  PlotCurveItem : list Q -> list Q -> string -> M Item;
  wao_openLoop_setDisabled : bool -> M unit;
  displayRtcMatrix : M unit;
  WidgetBase_initConfig : M unit;
  WidgetBase_initConfigFinished : M unit
}.

Section WidgetInit.
Context {D : Domain} {SV : Supervisor.Ops} {NP : Np.Ops} {HP : Helpers}
        {IE : InitEnv}.

Local Open Scope py_scope.
Local Open Scope string_scope.

(** [viewbox.addItem(item)] *)
Definition addItem (i : Item) (v : ViewBox) : ViewBox :=
  mkViewBox (vb_items v ++ [i])%list (vb_range v).

(** A call of one of the two methods above; these calls are not in
    the record of calls. *)
Definition sup_act (f : Sup -> result unit * Sup) : M unit :=
  s <- the_supervisor ;;
  modify (set_supervisor (Some (snd (f s)))) ;;
  lift (fst (f s)).

Definition initConfig : M unit :=
  sup_act clearInitSim ;;
  WidgetBase_initConfig.

(** [circleCoords]: [npts] points on a circle, as the two arrays
    [cx] and [cy]. *)
Definition circleCoords (ampli : Q) (npts : nat) (datashape0 datashape1 : Z)
  : list Q * list Q :=
  let angle (k : nat) : Q :=
    ((inject_Z (Z.of_nat k) + 1) * 2 * np_pi / inject_Z (Z.of_nat npts))%Q in
  (map (fun k => ampli * np_sin (angle k) + inject_Z datashape0 / 2)%Q
       (range npts),
   map (fun k => ampli * np_cos (angle k) + inject_Z datashape1 / 2)%Q
       (range npts)).

(** The pupil circle laid over the phase screen of the dock [key]. *)
Definition pupil_circle (key : string) (data : frame) : M unit :=
  cfg <- the_config ;;
  let c := circleCoords (p_geom_pupdiam cfg / 2) 1000
             (Np.shape0 data) (Np.shape1 data) in
  it <- ScatterPlotItem (fst c) (snd c) ;;
  modify (fun w => set_SRcircles (dict_set key it (SRcircles w)) w) ;;
  its <- gets SRcircles ;;
  it' <- lift (dict_item key its) ;;
  update_viewbox key (addItem it') ;;
  its <- gets SRcircles ;;
  it' <- lift (dict_item key its) ;;
  setPoints it' (fst c) (snd c).

(** The two strokes of a cross, or of the edges of a pyramid, around the
    centre of [data], [Delta] long on each side, laid over the dock
    [key]. *)
Definition centre_cross (key : string) (n0 n1 : Z) (Delta : Q) (pen : string)
    (setX setY : dict Item -> World -> World)
    (getX getY : World -> dict Item) : M unit :=
  let c0 := (inject_Z n0 / 2 + 0.5)%Q in
  let c1 := (inject_Z n1 / 2 + 0.5)%Q in
  x <- PlotCurveItem [c0 - Delta; c0 + Delta]%Q [c1; c1] pen ;;
  modify (fun w => setX (dict_set key x (getX w)) w) ;;
  y <- PlotCurveItem [c0; c0] [c1 - Delta; c1 + Delta]%Q pen ;;
  modify (fun w => setY (dict_set key y (getY w)) w) ;;
  its <- gets getX ;;
  x' <- lift (dict_item key its) ;;
  update_viewbox key (addItem x') ;;
  its <- gets getY ;;
  y' <- lift (dict_item key its) ;;
  update_viewbox key (addItem y').

Definition initConfigFinished : M unit :=
  sup_act forceContext ;;
  n <- gets natm ;;
  for_each (range n) (fun i =>
    data <- sup_get (Call_getAtmScreen (Z.of_nat i))
              (fun s => Supervisor.getAtmScreen s (Z.of_nat i)) ;;
    pupil_circle ("atm_" ++ PyStr.dec i) data) ;;
  n <- gets nwfs ;;
  for_each (range n) (fun i =>
    data <- sup_get (Call_getWfsPhase (Z.of_nat i))
              (fun s => Supervisor.getWfsPhase s (Z.of_nat i)) ;;
    pupil_circle ("wfs_" ++ PyStr.dec i) data) ;;
  n <- gets ndm ;;
  for_each (range n) (fun i =>
    cfg <- the_config ;;
    _ <- lift (py_index (p_dms cfg) (Z.of_nat i)) ;;
    cfg <- the_config ;;
    _ <- lift (py_index (p_dms cfg) (Z.of_nat i)) ;;
    data <- sup_get (Call_getDmShape (Z.of_nat i))
              (fun s => Supervisor.getDmShape s (Z.of_nat i)) ;;
    pupil_circle ("dm_" ++ PyStr.dec i) data) ;;
  cfg <- the_config ;;
  for_each (range (List.length (p_targets cfg))) (fun i =>
    data <- sup_get (Call_getTarPhase (Z.of_nat i))
              (fun s => Supervisor.getTarPhase s (Z.of_nat i)) ;;
    pupil_circle ("tar_" ++ PyStr.dec i) data ;;
    data <- sup_get (Call_getTarImage (Z.of_nat i) default_tarType)
              (fun s => Supervisor.getTarImage s (Z.of_nat i)
                          default_tarType) ;;
    for_each ["psfSE_"; "psfLE_"] (fun psf =>
      centre_cross (psf ++ PyStr.dec i) (Np.shape0 data) (Np.shape1 data) 5
        "r" set_SRCrossX set_SRCrossY SRCrossX SRCrossY)) ;;
  cfg <- the_config ;;
  for_each (range (List.length (p_wfss cfg))) (fun i =>
    cfg <- the_config ;;
    p <- lift (py_index (p_wfss cfg) (Z.of_nat i)) ;;
    if is_pyr (wfs_type p) then
      data <- sup_get (Call_getPyrFocalPlane (Z.of_nat i))
                (fun s => Supervisor.getPyrFocalPlane s (Z.of_nat i)) ;;
      centre_cross ("pyrFocalPlane_" ++ PyStr.dec i)
        (Np.shape0 data) (Np.shape1 data) (inject_Z (len_frame data) / 2)
        "b" set_PyrEdgeX set_PyrEdgeY PyrEdgeX PyrEdgeY
    else ret tt) ;;
  sv <- gets supervisor ;;
  print (match sv with
         | Some s => str_supervisor s
         | None => "None"
         end) ;;
  ex <- gets expert ;;
  (if ex then displayRtcMatrix else ret tt) ;;
  updateDisplay ;;
  update_uiAO (set_wao_run_disabled false) ;;
  update_uiAO (set_wao_next_disabled false) ;;
  wao_openLoop_setDisabled false ;;
  update_uiAO (set_wao_unzoom_disabled false) ;;
  update_uiAO (set_wao_resetSR_disabled false) ;;
  WidgetBase_initConfigFinished.

(** *** What is said of it *)

(** From [P] before, [m] leaves [Q] when it returns. *)
Definition hoare {A} (P : World -> Prop) (m : M A) (Q : A -> World -> Prop)
  : Prop :=
  forall w a W, P w -> m w = (Ok a, W) -> Q a W.

(** The items of each view box. *)
Definition items_of (vbs : dict ViewBox) : dict (list Item) :=
  map (fun kv => (fst kv, vb_items (snd kv))) vbs.

(** Each overlay stored in [d] is among the items of the view box of
    its key. *)
Definition shown_overlays (d : dict Item) (its : dict (list Item)) : Prop :=
  forall k it,
    dict_get k d = Some it ->
    exists l, dict_get k its = Some l /\ In it l.

(** [d] has an entry for each key of [ks]. *)
Definition has_keys (ks : list string) (d : dict Item) : Prop :=
  forall k, In k ks -> dict_get k d <> None.

(** What laying the overlays reads and writes: the five dictionaries,
    the items of the view boxes, the three counters and the
    configuration. *)
Definition init_part (w : World)
  : (dict Item * dict Item * dict Item * dict Item * dict Item)
    * dict (list Item) * (nat * nat * nat) * option Config :=
  ((SRcircles w, SRCrossX w, SRCrossY w, PyrEdgeX w, PyrEdgeY w),
   items_of (viewboxes w), (natm w, nwfs w, ndm w), config w).

(** Every overlay the window has stored is in the view box of its key. *)
Definition overlays_shown (w : World) : Prop :=
  shown_overlays (SRcircles w) (items_of (viewboxes w)) /\
  shown_overlays (SRCrossX w) (items_of (viewboxes w)) /\
  shown_overlays (SRCrossY w) (items_of (viewboxes w)) /\
  shown_overlays (PyrEdgeX w) (items_of (viewboxes w)) /\
  shown_overlays (PyrEdgeY w) (items_of (viewboxes w)).

(** The overlays are shown, there is a circle for each key of [K1], a
    cross for each key of [K2] and pyramid edges for each key of [K3],
    and the counters and the configuration are those of [w0]. *)
Definition laid (w0 : World) (K1 K2 K3 : list string) (w : World) : Prop :=
  overlays_shown w /\
  has_keys K1 (SRcircles w) /\
  (has_keys K2 (SRCrossX w) /\ has_keys K2 (SRCrossY w)) /\
  (has_keys K3 (PyrEdgeX w) /\ has_keys K3 (PyrEdgeY w)) /\
  (natm w, nwfs w, ndm w) = (natm w0, nwfs w0, ndm w0) /\
  config w = config w0.

(** The code taken through [InitEnv] leaves [f] as it is. *)
Definition init_helpers_keep {B} (f : World -> B) : Prop :=
  (forall cx cy, keeps f (ScatterPlotItem cx cy)) /\
  (forall it cx cy, keeps f (setPoints it cx cy)) /\
  (forall x y pen, keeps f (PlotCurveItem x y pen)) /\
  (forall b, keeps f (wao_openLoop_setDisabled b)) /\
  keeps f displayRtcMatrix /\
  keeps f WidgetBase_initConfigFinished.

(** The keys [q0], [q1], ... up to [n]. *)
Definition keys_upto (q : string) (n : nat) : list string :=
  map (dock_name q) (range n).


End WidgetInit.

(** ** More stand-ins to run the window against *)

Module MockInit.
#[local] Existing Instance Mock.dom.

(** pyqtgraph items known by the number of their points, a pupil of 60
    pixels, and in place of the trigonometry of numpy a point of the unit
    circle with rational coordinates. *)
Definition ie : @InitEnv Mock.dom :=
  {| clearInitSim := fun s => (Ok tt, s);
     forceContext := fun s => (Ok tt, s);
     default_tarType := "se"%string;
     len_frame := fun _ => 64%Z;
     p_geom_pupdiam := fun _ => 60%Q;
     str_supervisor := fun _ => "CompassSupervisor"%string;
     np_sin := fun _ => (3 # 5)%Q;
     np_cos := fun _ => (4 # 5)%Q;
     np_pi := (355 # 113)%Q;
     ScatterPlotItem := fun cx _ => ret (List.length cx);
     setPoints := fun _ _ _ => ret tt;
     PlotCurveItem := fun x _ _ => ret (List.length x);
     wao_openLoop_setDisabled := fun _ => ret tt;
     displayRtcMatrix := ret tt;
     WidgetBase_initConfig := ret tt;
     WidgetBase_initConfigFinished := ret tt |}.

(** A supervisor like [Mock.sv] that cannot reset the Strehl ratio of
    target 1. *)
Definition faulty : @Supervisor.Ops Mock.dom :=
  {| Supervisor.new := @Supervisor.new _ Mock.sv;
     Supervisor.loadConfig := @Supervisor.loadConfig _ Mock.sv;
     Supervisor.getConfig := @Supervisor.getConfig _ Mock.sv;
     Supervisor.sim := @Supervisor.sim _ Mock.sv;
     Supervisor.seeAtmos := @Supervisor.seeAtmos _ Mock.sv;
     Supervisor.d_targets := @Supervisor.d_targets _ Mock.sv;
     Supervisor.isInit := @Supervisor.isInit _ Mock.sv;
     Supervisor.enableAtmos := @Supervisor.enableAtmos _ Mock.sv;
     Supervisor.resetStrehl := fun t s =>
       if (t =? 1)%Z then (Raise (ExternalError "no such target"), s)
       else @Supervisor.resetStrehl _ Mock.sv t s;
     Supervisor.closeLoop := @Supervisor.closeLoop _ Mock.sv;
     Supervisor.openLoop := @Supervisor.openLoop _ Mock.sv;
     Supervisor.singleNext := @Supervisor.singleNext _ Mock.sv;
     Supervisor.comp_image := @Supervisor.comp_image _ Mock.sv;
     Supervisor.getStrehl := @Supervisor.getStrehl _ Mock.sv;
     Supervisor.getFrameCounter := @Supervisor.getFrameCounter _ Mock.sv;
     Supervisor.getAtmScreen := @Supervisor.getAtmScreen _ Mock.sv;
     Supervisor.getWfsPhase := @Supervisor.getWfsPhase _ Mock.sv;
     Supervisor.getDmShape := @Supervisor.getDmShape _ Mock.sv;
     Supervisor.getTarPhase := @Supervisor.getTarPhase _ Mock.sv;
     Supervisor.getTarImage := @Supervisor.getTarImage _ Mock.sv;
     Supervisor.getWfsImage := @Supervisor.getWfsImage _ Mock.sv;
     Supervisor.getPyrHRImage := @Supervisor.getPyrHRImage _ Mock.sv;
     Supervisor.getPyrFocalPlane := @Supervisor.getPyrFocalPlane _ Mock.sv;
     Supervisor.getSlopeGeom := @Supervisor.getSlopeGeom _ Mock.sv;
     Supervisor.getSlope := @Supervisor.getSlope _ Mock.sv |}.

(** A configuration whose second sensor is a curvature sensor, a kind
    the window does not know. *)
Definition config3 : Config :=
  mkConfig [0%Q] [mkWfsParam SH 8 52; mkWfsParam (OtherWFS "curvature") 4 10]
    [mkDmParam "pzt" 0] [tt] (1 # 10) [] None.

(** The loaded window with the frame rate of the GUI set to 0. *)
Definition unpaced : @World Mock.dom :=
  set_uiBase (mkUiBase 0 false "config.py") (Mock.loaded (Mock.steady 0 1)).


End MockInit.
(** * Proofs *)

(** ** Reasoning about computations *)

Section MonadFacts.
Context {D : Domain}.

Lemma exec_bind {A B} (m : M A) (k : A -> M B) (w : World) :
  exec (bind m k) w =
  match outcome m w with
  | Ok a => exec (k a) (exec m w)
  | Raise _ => exec m w
  end.
Proof.
  unfold exec, outcome, bind. destruct (m w) as [[a | e] w1]; reflexivity.
Qed.

Lemma outcome_bind {A B} (m : M A) (k : A -> M B) (w : World) :
  outcome (bind m k) w =
  match outcome m w with
  | Ok a => outcome (k a) (exec m w)
  | Raise e => Raise e
  end.
Proof.
  unfold exec, outcome, bind. destruct (m w) as [[a | e] w1]; reflexivity.
Qed.

Lemma run_eq {A} (m : M A) (w : World) : m w = (outcome m w, exec m w).
Proof. unfold outcome, exec. destruct (m w); reflexivity. Qed.

Lemma preserves_ret {A} (P : World -> Prop) (a : A) : preserves P (ret a).
Proof. intros w H. exact H. Qed.

Lemma preserves_raise {A} (P : World -> Prop) (e : exn) :
  preserves P (@raise _ A e).
Proof. intros w H. exact H. Qed.

Lemma preserves_lift {A} (P : World -> Prop) (r : result A) :
  preserves P (lift r).
Proof. intros w H. exact H. Qed.

Lemma preserves_gets {A} (P : World -> Prop) (f : World -> A) :
  preserves P (gets f).
Proof. intros w H. exact H. Qed.

Lemma preserves_need {A} (P : World -> Prop) (e : exn) (o : option A) :
  preserves P (need e o).
Proof. destruct o; intros w H; exact H. Qed.

Lemma preserves_modify (P : World -> Prop) (f : World -> World) :
  (forall w, P w -> P (f w)) -> preserves P (modify f).
Proof. intros Hf w H. apply Hf, H. Qed.

Lemma preserves_bind {A B} (P : World -> Prop) (m : M A) (k : A -> M B) :
  preserves P m -> (forall a, preserves P (k a)) -> preserves P (bind m k).
Proof.
  intros Hm Hk w H. rewrite exec_bind.
  destruct (outcome m w); [apply Hk|]; apply Hm, H.
Qed.

Lemma preserves_try_except {A} (P : World -> Prop) (body handler : M A) :
  preserves P body -> preserves P handler ->
  preserves P (try_except body handler).
Proof.
  intros Hb Hh w H. specialize (Hb w H). unfold exec, try_except in *.
  destruct (body w) as [[a | e] w1]; simpl in *; [exact Hb|].
  apply Hh, Hb.
Qed.

Lemma preserves_try_finally {A} (P : World -> Prop) (body : M A)
    (fin : M unit) :
  preserves P body -> preserves P fin -> preserves P (try_finally body fin).
Proof.
  intros Hb Hf w H. specialize (Hb w H). unfold exec, try_finally in *.
  destruct (body w) as [r w1]; simpl in *.
  specialize (Hf w1 Hb). unfold exec in Hf.
  destruct (fin w1) as [[u | e] w2]; exact Hf.
Qed.

Lemma preserves_for_each {A} (P : World -> Prop) (l : list A)
    (body : A -> M unit) :
  (forall a, preserves P (body a)) -> preserves P (for_each l body).
Proof.
  intros Hb. induction l as [| a l IH]; simpl.
  - apply preserves_ret.
  - apply preserves_bind; [apply Hb | intros _; exact IH].
Qed.

Lemma preserves_for_fold {A B} (P : World -> Prop) (l : list A)
    (body : B -> A -> M B) (acc : B) :
  (forall b a, preserves P (body b a)) -> preserves P (for_fold l acc body).
Proof.
  intros Hb. revert acc. induction l as [| a l IH]; intros acc; simpl.
  - apply preserves_ret.
  - apply preserves_bind; [apply Hb | intros b; apply IH].
Qed.

(** A property that only looks at [f w] survives what leaves [f]
    alone. *)
Lemma keeps_preserves {A B} (f : World -> B) (Q : B -> Prop) (m : M A) :
  keeps f m -> preserves (fun w => Q (f w)) m.
Proof. intros Hk w H. rewrite Hk. exact H. Qed.

Lemma preserves_keeps {A B} (f : World -> B) (m : M A) :
  (forall b, preserves (fun w => f w = b) m) -> keeps f m.
Proof. intros H w. apply (H (f w) w). reflexivity. Qed.

End MonadFacts.

(** Decomposes a goal [preserves P m] along the structure of [m]; what is
    left are the primitives, which [solve_prim] settles by computation. *)
Ltac pres_step :=
  match goal with
  | |- preserves _ (bind _ _) => apply preserves_bind; [| intro]
  | |- preserves _ (ret _) => apply preserves_ret
  | |- preserves _ (raise _) => apply preserves_raise
  | |- preserves _ (lift _) => apply preserves_lift
  | |- preserves _ (gets _) => apply preserves_gets
  | |- preserves _ (need _ _) => apply preserves_need
  | |- preserves _ (try_except _ _) => apply preserves_try_except
  | |- preserves _ (try_finally _ _) => apply preserves_try_finally
  | |- preserves _ (for_each _ _) => apply preserves_for_each; intro
  | |- preserves _ (for_fold _ _ _) => apply preserves_for_fold; intros
  | |- preserves _ (if ?b then _ else _) => destruct b
  | |- preserves _ (match ?x with _ => _ end) => destruct x
  | |- preserves _ (let (_, _) := ?x in _) => destruct x
  end.

(** The primitives of the window, settled by computation: the property
    at hand must not depend on what the primitive writes. *)
Ltac pres_prim :=
  let w := fresh "w" in
  let H := fresh "H" in
  intros w H;
  unfold exec, modify, time_time, loopLock_acquire, loopLock_release,
    the_supervisor, the_config, sys_path_remove;
  repeat match goal with
         | |- context [match ?x with _ => _ end] => destruct x
         end;
  simpl; try exact H.

Ltac pres_unfold :=
  unfold loopOnce_body, comp_all_images, throttled_refresh,
    refresh_displays, strehl_round, sup_get, sup_do,
    log_call, print, update_uiAO, update_uiBase, update_img, update_viewbox,
    updateSRSE, updateSRLE, updateCurrentLoopFrequency, updateSRDisplay,
    clearSR, dock_addWidget.

Ltac pres := repeat first [ pres_step | progress pres_unfold ].

Ltac pres_all_unfold :=
  unfold loopOnce, loopOnce_body, comp_all_images, throttled_refresh,
    refresh_displays, strehl_round, sup_get,
    sup_do, log_call, print, update_uiAO, update_uiBase, update_img,
    update_viewbox, updateSRSE, updateSRLE, updateCurrentLoopFrequency,
    dock_addWidget, run, aoLoopClicked, aoLoopOpen, resetSR, set_see_atmos,
    updateAllTarget, updateForever, updateDisplay, not_ready, fetch,
    psf_block, slope_comp, slope_block, display_dock, display_round,
    loadConfig, remove_overlays, wfs_docks, numbered_docks, create_docks,
    finish_loadConfig, clear_overlays, load_supervisor, add_dispDock, slot,
    handle.

(** Reduces the projections of a window that is written as setters over
    another window. *)
Ltac wsimpl :=
  cbn [fst snd SRLE SRSE numiter supervisor config stop nbiter refreshTime
       dispStatsInTerminal SRCrossX SRCrossY SRcircles PyrEdgeX PyrEdgeY
       natm nwfs ndm ntar firstTime expert devices defaultParPath
       defaultAreaPath loopLock docks imgs viewboxes uiAO uiBase curveSRSE
       curveSRLE wao_bound sys_path clock ticks stdout calls dock_calls
       set_SRLE set_SRSE set_numiter set_supervisor set_config set_stop
       set_nbiter set_refreshTime set_dispStatsInTerminal set_SRCrossX
       set_SRCrossY set_SRcircles set_PyrEdgeX set_PyrEdgeY set_natm
       set_nwfs set_ndm set_ntar set_firstTime set_loopLock set_docks
       set_imgs set_viewboxes set_uiAO set_uiBase set_curveSRSE
       set_curveSRLE set_sys_path set_ticks set_stdout set_calls
       set_dock_calls wao_nbiters wao_run_checked wao_forever wao_allTarget
       wao_resetSR_tarNum wao_resetSR_tarNum_max wao_resetSR_tarNum_disabled
       wao_nbiters_disabled wao_dispSR_tar wao_dispSR_tar_max
       wao_openLoop_text wao_strehlSE wao_strehlLE wao_currentFreq
       actionPSF_Log_Scale wao_run_disabled wao_next_disabled
       wao_unzoom_disabled wao_resetSR_disabled set_wao_run_checked
       set_wao_resetSR_tarNum set_wao_resetSR_tarNum_max
       set_wao_resetSR_tarNum_disabled set_wao_nbiters_disabled
       set_wao_dispSR_tar set_wao_dispSR_tar_max set_wao_openLoop_text
       set_wao_strehlSE set_wao_strehlLE set_wao_currentFreq
       set_wao_run_disabled set_wao_next_disabled set_wao_unzoom_disabled
       set_wao_resetSR_disabled set_wao_nbiters wao_frameRate
       wao_init_disabled wao_selectConfig set_wao_init_disabled].

(** Reduces the projections of a window that is written as setters over
    another window. *)
Ltac wsimpl_in H :=
  cbn [fst snd SRLE SRSE numiter supervisor config stop nbiter refreshTime
       dispStatsInTerminal SRCrossX SRCrossY SRcircles PyrEdgeX PyrEdgeY
       natm nwfs ndm ntar firstTime expert devices defaultParPath
       defaultAreaPath loopLock docks imgs viewboxes uiAO uiBase curveSRSE
       curveSRLE wao_bound sys_path clock ticks stdout calls dock_calls
       set_SRLE set_SRSE set_numiter set_supervisor set_config set_stop
       set_nbiter set_refreshTime set_dispStatsInTerminal set_SRCrossX
       set_SRCrossY set_SRcircles set_PyrEdgeX set_PyrEdgeY set_natm
       set_nwfs set_ndm set_ntar set_firstTime set_loopLock set_docks
       set_imgs set_viewboxes set_uiAO set_uiBase set_curveSRSE
       set_curveSRLE set_sys_path set_ticks set_stdout set_calls
       set_dock_calls wao_nbiters wao_run_checked wao_forever wao_allTarget
       wao_resetSR_tarNum wao_resetSR_tarNum_max wao_resetSR_tarNum_disabled
       wao_nbiters_disabled wao_dispSR_tar wao_dispSR_tar_max
       wao_openLoop_text wao_strehlSE wao_strehlLE wao_currentFreq
       actionPSF_Log_Scale wao_run_disabled wao_next_disabled
       wao_unzoom_disabled wao_resetSR_disabled set_wao_run_checked
       set_wao_resetSR_tarNum set_wao_resetSR_tarNum_max
       set_wao_resetSR_tarNum_disabled set_wao_nbiters_disabled
       set_wao_dispSR_tar set_wao_dispSR_tar_max set_wao_openLoop_text
       set_wao_strehlSE set_wao_strehlLE set_wao_currentFreq
       set_wao_run_disabled set_wao_next_disabled set_wao_unzoom_disabled
       set_wao_resetSR_disabled set_wao_nbiters wao_frameRate
       wao_init_disabled wao_selectConfig set_wao_init_disabled] in H.

(** ** The names of the docks *)

Section Keys.

Lemma digits_are_digits (d : uint) :
  Forall (fun c => PyStr.is_digit c = true) (digits d).
Proof.
  unfold digits. induction d; simpl; constructor; try reflexivity; assumption.
Qed.

Lemma digits_value_digits (d : uint) :
  forall acc, (0 <= acc)%Z ->
    PyStr.digits_value acc (digits d) =
    Some (Z.of_nat (Nat.of_uint_acc d (Z.to_nat acc))).
Proof.
  unfold digits.
  induction d; intros acc Hacc; cbn [NilEmpty.string_of_uint list_ascii_of_string
    PyStr.digits_value Nat.of_uint_acc].
  1: rewrite Z2Nat.id by assumption; reflexivity.
  all: change (PyStr.is_digit _) with true; cbv iota;
    match goal with
    | |- context [(Z.of_nat (nat_of_ascii ?c) - 48)%Z] =>
        let v := eval vm_compute in (Z.of_nat (nat_of_ascii c) - 48)%Z in
        change (Z.of_nat (nat_of_ascii c) - 48)%Z with v
    end;
    rewrite IHd by lia;
    rewrite Nat.tail_mul_spec; do 3 f_equal; lia.
Qed.

Lemma digit_not_space (c : ascii) :
  PyStr.is_digit c = true -> PyStr.is_space c = false.
Proof.
  unfold PyStr.is_digit, PyStr.is_space. intros H.
  apply andb_true_iff in H. destruct H as [H1 H2].
  apply Nat.leb_le in H1. apply Nat.leb_le in H2.
  destruct (Nat.eqb_spec (nat_of_ascii c) 32); [lia|].
  destruct (Nat.leb_spec (nat_of_ascii c) 13); [lia|].
  rewrite andb_false_r. reflexivity.
Qed.

Lemma lstrip_digits (l : PyStr.chars) :
  Forall (fun c => PyStr.is_digit c = true) l -> PyStr.lstrip l = l.
Proof.
  intros H. destruct H as [| c l Hc Hl]; simpl; [reflexivity|].
  rewrite (digit_not_space c Hc). reflexivity.
Qed.

Lemma strip_digits (l : PyStr.chars) :
  Forall (fun c => PyStr.is_digit c = true) l -> PyStr.strip l = l.
Proof.
  intros H. unfold PyStr.strip. rewrite (lstrip_digits l H).
  rewrite lstrip_digits by (apply Forall_rev, H). apply rev_involutive.
Qed.

Lemma int_of_digits (d : uint) :
  d <> Nil ->
  PyStr.int_of (digits d) = Ok (Z.of_nat (Nat.of_uint d)).
Proof.
  intros Hd. unfold PyStr.int_of.
  rewrite (strip_digits _ (digits_are_digits d)).
  pose proof (digits_value_digits d 0 (Z.le_refl 0)) as Hv.
  destruct d; [contradiction | ..];
    unfold digits in *; cbn [NilEmpty.string_of_uint list_ascii_of_string] in *;
    cbv iota beta; unfold PyStr.unsigned_of; rewrite Hv; reflexivity.
Qed.
Lemma to_uint_nonnil (n : nat) : Nat.to_uint n <> Nil.
Proof.
  intros H. pose proof (Unsigned.of_to n) as E. rewrite H in E.
  simpl in E. subst n. discriminate H.
Qed.

Lemma chars_app (a b : string) :
  list_ascii_of_string (a ++ b) =
  list_ascii_of_string a ++ list_ascii_of_string b.
Proof. induction a as [| c a IH]; simpl; [| rewrite IH]; reflexivity. Qed.

Lemma last_field_from_sep (sep : ascii) (ds : PyStr.chars) :
  forall pre acc,
    PyStr.last_field_from sep acc (pre ++ sep :: ds) =
    PyStr.last_field_from sep ds ds.
Proof.
  induction pre as [| c pre IH]; intros acc; simpl.
  - rewrite Ascii.eqb_refl. reflexivity.
  - destruct (Ascii.eqb c sep); apply IH.
Qed.

Lemma last_field_from_none (sep : ascii) (ds : PyStr.chars) :
  Forall (fun c => Ascii.eqb c sep = false) ds ->
  forall acc, PyStr.last_field_from sep acc ds = acc.
Proof.
  induction 1 as [| c ds Hc Hds IH]; intros acc; simpl; [reflexivity|].
  rewrite Hc. apply IH.
Qed.

Lemma digit_not_underscore (c : ascii) :
  PyStr.is_digit c = true -> Ascii.eqb c "_" = false.
Proof.
  intros H. destruct (Ascii.eqb_spec c "_"); [subst; discriminate | reflexivity].
Qed.

Lemma index_of_key_dock_name (q : string) (i : nat) :
  PyStr.index_of_key (dock_name (q ++ "_") i) = Ok (Z.of_nat i).
Proof.
  unfold PyStr.index_of_key, dock_name, PyStr.dec, PyStr.last_field.
  rewrite !chars_app. change (list_ascii_of_string "_") with ["_"%char].
  rewrite <- app_assoc. change (["_"%char] ++ ?l) with ("_"%char :: l).
  fold (digits (Nat.to_uint i)).
  rewrite last_field_from_sep, last_field_from_none.
  - rewrite int_of_digits by apply to_uint_nonnil.
    rewrite Unsigned.of_to. reflexivity.
  - eapply Forall_impl; [| apply digits_are_digits].
    apply digit_not_underscore.
Qed.

Lemma starts_with_digits (p ds : PyStr.chars) :
  forallb (fun c => negb (PyStr.is_digit c)) p = true ->
  Forall (fun c => PyStr.is_digit c = true) ds ->
  forall pre,
    PyStr.starts_with p (pre ++ ds) = PyStr.starts_with p pre.
Proof.
  intros Hp Hds. induction p as [| x p IH]; intros pre'; [reflexivity|].
  simpl in Hp. apply andb_true_iff in Hp. destruct Hp as [Hx Hp].
  destruct pre' as [| c pre']; simpl.
  - destruct Hds as [| d ds Hd Hds]; [reflexivity|].
    destruct (Ascii.eqb_spec x d); [| reflexivity].
    subst. rewrite Hd in Hx. discriminate.
  - rewrite IH by assumption. reflexivity.
Qed.

Lemma occurs_digits (p ds : PyStr.chars) :
  letters p = true ->
  Forall (fun c => PyStr.is_digit c = true) ds ->
  forall pre, PyStr.occurs p (pre ++ ds) = PyStr.occurs p pre.
Proof.
  intros Hp Hds.
  assert (Hf : forallb (fun c => negb (PyStr.is_digit c)) p = true)
    by (destruct p; [discriminate | exact Hp]).
  assert (Hnil : forall l, Forall (fun c => PyStr.is_digit c = true) l ->
                           PyStr.occurs p l = false).
  { induction 1 as [| d l Hd Hl IH]; simpl.
    - destruct p; [discriminate | reflexivity].
    - rewrite IH, orb_false_r.
      pose proof (starts_with_digits p (d :: l) Hf (Forall_cons d Hd Hl) [])
        as E.
      change ([] ++ d :: l) with (d :: l) in E. rewrite E.
      destruct p; [discriminate | reflexivity]. }
  induction pre as [| c pre IH].
  - change ([] ++ ds) with ds. rewrite (Hnil ds Hds).
    destruct p; [discriminate | reflexivity].
  - change ((c :: pre) ++ ds) with (c :: (pre ++ ds)).
    cbn [PyStr.occurs]. rewrite IH.
    pose proof (starts_with_digits p ds Hf Hds (c :: pre)) as E.
    change ((c :: pre) ++ ds) with (c :: (pre ++ ds)) in E.
    rewrite E. reflexivity.
Qed.

Lemma contains_dock_name (pat prefix : string) (i : nat) :
  letters (list_ascii_of_string pat) = true ->
  PyStr.contains pat (dock_name prefix i) = PyStr.contains pat prefix.
Proof.
  intros H. unfold PyStr.contains, dock_name, PyStr.dec.
  rewrite chars_app. apply occurs_digits; [exact H|].
  apply digits_are_digits.
Qed.

End Keys.

(** ** The guards of [loopOnce] and [updateDisplay] *)

Section Guards.
Context {D : Domain} {SV : Supervisor.Ops} {NP : Np.Ops} {HP : Helpers}.

Lemma loopOnce_body_holds_lock :
  (forall msg, keeps loopLock (printInPlace msg)) ->
  preserves (fun w => loopLock w = true) loopOnce_body.
Proof.
  intros Hp. pres; try (pres_prim; fail).
  apply (keeps_preserves loopLock (fun b => b = true)), Hp.
Qed.

Lemma loopOnce_locked (w : World) :
  loopLock w = true ->
  loopOnce w = (Ok tt, set_stdout (stdout w ++ ["Display locked"%string]) w).
Proof.
  intros H. unfold loopOnce, bind, loopLock_acquire. rewrite H. reflexivity.
Qed.

(** With the lock free, [loopOnce] is its guarded body run with the lock
    held. *)
Lemma loopOnce_free (w : World) :
  loopLock w = false ->
  loopOnce w =
  try_finally (try_except loopOnce_body (print "error!!")) loopLock_release
    (set_loopLock true w).
Proof.
  intros H. unfold loopOnce, bind, loopLock_acquire. rewrite H. reflexivity.
Qed.

Lemma loopOnce_releases (w : World) :
  (forall msg, keeps loopLock (printInPlace msg)) ->
  loopLock w = false ->
  outcome loopOnce w = Ok tt /\ loopLock (exec loopOnce w) = false.
Proof.
  intros Hp H. unfold outcome, exec. rewrite (loopOnce_free w H).
  pose proof (loopOnce_body_holds_lock Hp (set_loopLock true w) eq_refl) as Hb.
  unfold outcome, exec, try_finally, try_except, print, modify,
    loopLock_release in *.
  destruct (loopOnce_body (set_loopLock true w)) as [[[] | e] w1];
    simpl in *; rewrite Hb; simpl; split; reflexivity.
Qed.

Lemma loopOnce_catches (w : World) (e : exn) :
  (forall msg, keeps loopLock (printInPlace msg)) ->
  loopLock w = false ->
  outcome loopOnce_body (set_loopLock true w) = Raise e ->
  stdout (exec loopOnce w) =
  stdout (exec loopOnce_body (set_loopLock true w)) ++ ["error!!"%string].
Proof.
  intros Hp H He. unfold exec at 1. rewrite (loopOnce_free w H).
  pose proof (loopOnce_body_holds_lock Hp (set_loopLock true w) eq_refl) as Hb.
  unfold outcome, exec, try_finally, try_except, print, modify,
    loopLock_release in *.
  destruct (loopOnce_body (set_loopLock true w)) as [[[] | e'] w1];
    simpl in *; [discriminate|].
  rewrite Hb. reflexivity.
Qed.

Lemma updateDisplay_locked (w : World) :
  loopLock w = true ->
  exec updateDisplay w = w \/
  exec updateDisplay w = set_calls (calls w ++ [Call_isInit]) w.
Proof.
  intros H.
  unfold updateDisplay, not_ready, sup_get, the_supervisor, log_call,
    loopLock_acquire, exec, bind, gets, modify, lift, ret.
  simpl. destruct (supervisor w) as [s |] eqn:Es; [| left; reflexivity].
  destruct (Supervisor.sim s); try (left; reflexivity).
  simpl. rewrite Es. simpl.
  destruct (Supervisor.isInit s) as [[] | e]; simpl;
    try rewrite H; right; reflexivity.
Qed.

Lemma updateDisplay_no_supervisor (w : World) :
  supervisor w = None -> updateDisplay w = (Ok tt, w).
Proof.
  intros H. unfold updateDisplay, not_ready, bind, gets. rewrite H.
  reflexivity.
Qed.

Lemma updateDisplay_no_sim (w : World) (s : Sup) :
  supervisor w = Some s -> Supervisor.sim s <> Supervisor.SimReady ->
  updateDisplay w = (Ok tt, w).
Proof.
  intros H Hs. unfold updateDisplay, not_ready, bind, gets. rewrite H.
  destruct (Supervisor.sim s); try reflexivity. contradiction.
Qed.

Lemma updateDisplay_not_init (w : World) (s : Sup) :
  supervisor w = Some s -> Supervisor.sim s = Supervisor.SimReady ->
  Supervisor.isInit s = Ok false ->
  updateDisplay w = (Ok tt, set_calls (calls w ++ [Call_isInit]) w).
Proof.
  intros H Hs Hi.
  unfold updateDisplay, not_ready, sup_get, the_supervisor, log_call, bind,
    gets, modify, lift, ret.
  rewrite H, Hs. simpl. rewrite H. simpl. rewrite Hi. reflexivity.
Qed.

(** C10. [loopOnce] and [updateDisplay] are guarded against re-entry
    and errors.  With the lock held, [loopOnce] only prints
    "Display locked": it makes no call on the supervisor and takes no
    simulation step; [updateDisplay] leaves the window as it is, but for
    the [isInit] query of its first test.  [updateDisplay] also returns
    at once when there is no supervisor, when the supervisor has no
    simulator, or when it is not initialised.  With the lock free,
    [loopOnce] never raises: an exception of its body is caught and
    "error!!" is printed, and in every case the lock is free again when it
    returns.  The helper [printInPlace] is assumed not to touch the
    lock. *)
Theorem guarded_loopOnce_updateDisplay :
  (forall msg, keeps loopLock (printInPlace msg)) ->
  (forall w, loopLock w = true ->
     loopOnce w =
       (Ok tt, set_stdout (stdout w ++ ["Display locked"%string]) w) /\
     calls (exec loopOnce w) = calls w /\
     supervisor (exec loopOnce w) = supervisor w) /\
  (forall w, loopLock w = true ->
     exec updateDisplay w = w \/
     exec updateDisplay w = set_calls (calls w ++ [Call_isInit]) w) /\
  (forall w, supervisor w = None -> updateDisplay w = (Ok tt, w)) /\
  (forall w s, supervisor w = Some s ->
     Supervisor.sim s <> Supervisor.SimReady ->
     updateDisplay w = (Ok tt, w)) /\
  (forall w s, supervisor w = Some s ->
     Supervisor.sim s = Supervisor.SimReady ->
     Supervisor.isInit s = Ok false ->
     updateDisplay w = (Ok tt, set_calls (calls w ++ [Call_isInit]) w)) /\
  (forall w, loopLock w = false ->
     outcome loopOnce w = Ok tt /\ loopLock (exec loopOnce w) = false) /\
  (forall w e, loopLock w = false ->
     outcome loopOnce_body (set_loopLock true w) = Raise e ->
     stdout (exec loopOnce w) =
     stdout (exec loopOnce_body (set_loopLock true w)) ++ ["error!!"%string]).
Proof.
  intros Hp. repeat split.
  - apply loopOnce_locked; assumption.
  - unfold exec. rewrite loopOnce_locked by assumption. reflexivity.
  - unfold exec. rewrite loopOnce_locked by assumption. reflexivity.
  - apply updateDisplay_locked.
  - apply updateDisplay_no_supervisor.
  - apply updateDisplay_no_sim.
  - apply updateDisplay_not_init.
  - apply loopOnce_releases; assumption.
  - apply loopOnce_releases; assumption.
  - intros w e. apply loopOnce_catches, Hp.
Qed.

End Guards.

(** ** The buttons *)

Section Buttons.
Context {D : Domain} {SV : Supervisor.Ops} {NP : Np.Ops} {HP : Helpers}.

(** A window is what its fields are. *)
Lemma set_supervisor_calls_same (w : World) :
  set_supervisor (supervisor w) (set_calls (calls w) w) = w.
Proof. destruct w; reflexivity. Qed.

Lemma aoLoopClicked_pressed (w : World) :
  aoLoopClicked true w = run (armed w).
Proof.
  unfold aoLoopClicked, armed, bind, modify, time_time, gets, print, ret.
  simpl. destruct (dispStatsInTerminal w); simpl; [| reflexivity].
  destruct (wao_forever (uiAO w)); reflexivity.
Qed.

(** C5. The run button is connected to [aoLoopClicked].  Clicked while
    pressed, it clears the stop flag, stores the current time in
    [refreshTime], copies the value of the [nbiters] box into [nbiter]
    and then calls [run]: the window [run] starts from differs from the
    window at the click in these three attributes, in the clock reading
    consumed and, when statistics go to the terminal, in one printed
    line.  Clicked while unpressed, it sets the stop flag and changes
    nothing else. *)
Theorem run_button_wired :
  (forall pressed, slot (wao_run_clicked pressed) = aoLoopClicked pressed) /\
  (forall w,
     aoLoopClicked true w = run (armed w) /\
     stop (armed w) = false /\
     refreshTime (armed w) = clock w (ticks w) /\
     nbiter (armed w) = wao_nbiters (uiAO w) /\
     (dispStatsInTerminal w = false ->
      armed w =
      set_nbiter (wao_nbiters (uiAO w))
        (set_refreshTime (clock w (ticks w))
           (set_ticks (S (ticks w)) (set_stop false w))))) /\
  (forall w, aoLoopClicked false w = (Ok tt, set_stop true w)).
Proof.
  split; [reflexivity|]. split; [| reflexivity].
  intros w. split; [apply aoLoopClicked_pressed|].
  unfold armed. destruct (dispStatsInTerminal w); repeat split; try reflexivity.
  discriminate.
Qed.


Lemma for_each_resetStrehl (ts : list nat) :
  (forall t s, fst (Supervisor.resetStrehl t s) = Ok tt) ->
  forall w s, supervisor w = Some s ->
  for_each ts
    (fun t =>
       sup_do (Call_resetStrehl (Z.of_nat t))
              (Supervisor.resetStrehl (Z.of_nat t))) w =
  (Ok tt,
   set_supervisor (Some (reset_all ts s))
     (set_calls
        (calls w ++ map (fun t => Call_resetStrehl (Z.of_nat t)) ts) w)).
Proof.
  intros Hok. induction ts as [| t ts IH]; intros w s Hs; simpl.
  - rewrite app_nil_r, <- Hs, set_supervisor_calls_same. reflexivity.
  - unfold bind at 1.
    unfold sup_do, the_supervisor, log_call, bind, modify, lift.
    rewrite Hs. simpl. rewrite Hok.
    erewrite IH by (simpl; reflexivity).
    simpl. rewrite <- app_assoc. reflexivity.
Qed.

(** C7. The reset-SR button is connected to [resetSR].  With the "all
    targets" box checked, [resetSR] calls [resetStrehl(t)] once for each
    [t] from 0 to the number of configured targets minus 1, in this
    order (the supervisor's [resetStrehl] is taken not to raise);
    otherwise it calls [resetStrehl] once, on the target number of the
    spin box, after printing which target is reset. *)
Theorem resetSR_button_wired :
  slot wao_resetSR_clicked = resetSR /\
  (forall w s cfg,
     wao_allTarget (uiAO w) = true ->
     supervisor w = Some s -> config w = Some cfg ->
     (forall t s', fst (Supervisor.resetStrehl t s') = Ok tt) ->
     resetSR w =
     (Ok tt,
      set_supervisor
        (Some (reset_all (range (List.length (p_targets cfg))) s))
        (set_calls
           (calls w ++
            map (fun t => Call_resetStrehl (Z.of_nat t))
                (range (List.length (p_targets cfg)))) w))) /\
  (forall w s,
     wao_allTarget (uiAO w) = false ->
     supervisor w = Some s ->
     let tarnum := wao_resetSR_tarNum (uiAO w) in
     calls (exec resetSR w) = calls w ++ [Call_resetStrehl tarnum] /\
     supervisor (exec resetSR w) =
       Some (snd (Supervisor.resetStrehl tarnum s)) /\
     outcome resetSR w = fst (Supervisor.resetStrehl tarnum s)).
Proof.
  split; [reflexivity|]. split.
  - intros w s cfg Hall Hs Hc Hok.
    unfold resetSR, bind at 1, gets. rewrite Hall.
    unfold bind, the_config. rewrite Hc.
    apply for_each_resetStrehl; assumption.
  - intros w s Hall Hs tarnum.
    unfold resetSR, exec, outcome, sup_do, the_supervisor, log_call, print,
      bind, gets, modify, lift.
    rewrite Hall. simpl. rewrite Hs. simpl.
    destruct (Supervisor.resetStrehl _ s) as [[[] | e] s'];
      repeat split; reflexivity.
Qed.

End Buttons.

(** ** The iteration count *)

Section Run.
Context {D : Domain} {SV : Supervisor.Ops} {NP : Np.Ops} {HP : Helpers}.







End Run.

(** ** The Strehl history *)

Section History.
Context {D : Domain} {SV : Supervisor.Ops} {NP : Np.Ops} {HP : Helpers}.

Lemma deque_len_append {A} (x : A) (d : deque A) :
  deque_len (deque_append x d) = Nat.min (S (deque_len d)) (maxlen d).
Proof.
  unfold deque_len, deque_append. cbn [items maxlen].
  rewrite length_skipn, length_app. cbn [List.length]. lia.
Qed.

Lemma deque_append_room {A} (x : A) (d : deque A) :
  (deque_len d < maxlen d)%nat ->
  items (deque_append x d) = items d ++ [x].
Proof.
  unfold deque_len, deque_append. cbn [items maxlen]. intros H.
  rewrite length_app. cbn [List.length].
  replace (_ + 1 - _)%nat with 0%nat by lia. reflexivity.
Qed.

Lemma deque_append_full {A} (x : A) (d : deque A) :
  deque_len d = maxlen d -> (0 < maxlen d)%nat ->
  items (deque_append x d) = tl (items d) ++ [x].
Proof.
  unfold deque_len, deque_append. cbn [items maxlen]. intros H H0.
  rewrite length_app. cbn [List.length].
  replace (_ + 1 - _)%nat with 1%nat by lia.
  destruct (items d); [simpl in H; lia | reflexivity].
Qed.

Lemma updateSRDisplay_inv (le se : Q) (n : Z) :
  preserves SR_inv (updateSRDisplay le se n).
Proof.
  intros w (H1 & H2 & H3 & H4 & H5 & H6).
  unfold SR_inv, updateSRDisplay, exec, bind, modify.
  cbn [snd SRLE SRSE numiter set_SRLE set_SRSE set_numiter set_curveSRSE
       set_curveSRLE].
  rewrite !deque_len_append. cbn [maxlen deque_append].
  rewrite H1, H2, H3, H4. repeat split; lia.
Qed.

Lemma clearSR_inv : preserves SR_inv clearSR.
Proof.
  intros w _. unfold SR_inv, clearSR, exec, bind, modify, deque_len. simpl.
  repeat split; lia.
Qed.

Lemma handle_inv (e : Event) :
  helpers_preserve SR_inv -> preserves SR_inv (handle e).
Proof.
  intros (H1 & H2 & H3 & H4 & H5 & H6 & H7).
  destruct e as [[] | | | | |];
    repeat first
      [ pres_step
      | apply updateSRDisplay_inv
      | apply clearSR_inv
      | assumption
      | match goal with
        | |- preserves _ (WidgetBase_add_dispDock _ _ _) => apply H3
        | |- preserves _ (loadArea _) => apply H4
        | |- preserves _ (printInPlace _) => apply H5
        end
      | progress pres_all_unfold ];
    try (pres_prim; fail).
Qed.

Lemma after_inv (es : list Event) :
  helpers_preserve SR_inv -> forall w, SR_inv w -> SR_inv (after es w).
Proof.
  intros Hh. induction es as [| e es IH]; intros w Hw; simpl; [exact Hw|].
  apply IH, handle_inv; assumption.
Qed.

Lemma init_inv (par area : string) (ex : bool) (dev : option string)
    (w0 : World) :
  SR_inv (init_attributes par area ex dev w0).
Proof. unfold SR_inv, deque_len. simpl. repeat split; lia. Qed.

(** C8. The three Strehl-history buffers [SRSE], [SRLE] and [numiter]
    always have one length and hold at most 100 entries.  [__init__]
    creates them as deques bounded by 100; whatever happens to the window
    afterwards (a signal, a display refresh, a [run] step, a
    configuration load, a direct [updateSRDisplay], an edit of a widget)
    their lengths stay equal and within their common bound, which is 100
    or 20; [updateSRDisplay] appends one element to each, the oldest one
    giving way in a full deque; [clearSR] replaces the three at once by
    empty deques bounded by 20.  The code of the other files is assumed
    to maintain the same. *)
Theorem strehl_history_bounded :
  helpers_preserve SR_inv ->
  (forall par area ex dev w0,
     let w := init_attributes par area ex dev w0 in
     SRLE w = deque_new 100 /\ SRSE w = deque_new 100 /\
     numiter w = deque_new 100) /\
  (forall par area ex dev w0 es,
     let w := after es (init_attributes par area ex dev w0) in
     deque_len (SRSE w) = deque_len (SRLE w) /\
     deque_len (numiter w) = deque_len (SRLE w) /\
     maxlen (SRSE w) = maxlen (SRLE w) /\
     maxlen (numiter w) = maxlen (SRLE w) /\
     (maxlen (SRLE w) = 100 \/ maxlen (SRLE w) = 20)%nat /\
     (deque_len (SRLE w) <= maxlen (SRLE w) <= 100)%nat) /\
  (forall le se n w,
     let w' := exec (updateSRDisplay le se n) w in
     SRLE w' = deque_append le (SRLE w) /\
     SRSE w' = deque_append se (SRSE w) /\
     numiter w' = deque_append n (numiter w)) /\
  (forall A (x : A) (d : deque A),
     maxlen (deque_append x d) = maxlen d /\
     ((deque_len d < maxlen d)%nat ->
      items (deque_append x d) = items d ++ [x]) /\
     (deque_len d = maxlen d -> (0 < maxlen d)%nat ->
      items (deque_append x d) = tl (items d) ++ [x])) /\
  (forall w,
     clearSR w =
     (Ok tt,
      set_numiter (deque_new 20)
        (set_SRSE (deque_new 20) (set_SRLE (deque_new 20) w)))).
Proof.
  intros Hh. split; [| split; [| split; [| split]]].
  - intros. repeat split; reflexivity.
  - intros par area ex dev w0 es w.
    destruct (after_inv es Hh _ (init_inv par area ex dev w0))
      as (H1 & H2 & H3 & H4 & H5 & H6).
    fold w in H1, H2, H3, H4, H5, H6. repeat split; try assumption.
    destruct H5 as [H5 | H5]; rewrite H5; lia.
  - intros. repeat split; reflexivity.
  - intros A x d. split; [reflexivity|]. split.
    + apply deque_append_room.
    + apply deque_append_full.
  - intros. reflexivity.
Qed.

End History.

(** ** One iteration of the loop *)

Section Loop.
Context {D : Domain} {SV : Supervisor.Ops} {NP : Np.Ops} {HP : Helpers}.


Lemma count_singleNext_comp_images (ts : list nat) :
  count_singleNext (map Call_comp_image ts) = 0%nat.
Proof. induction ts; simpl; auto. Qed.

Lemma bind_ok {A B} (m : M A) (k : A -> M B) w a w1 :
  m w = (Ok a, w1) -> bind m k w = k a w1.
Proof. intros H. unfold bind. rewrite H. reflexivity. Qed.

Lemma bind_raise {A B} (m : M A) (k : A -> M B) w e w1 :
  m w = (Raise e, w1) -> bind m k w = (Raise e, w1).
Proof. intros H. unfold bind. rewrite H. reflexivity. Qed.

Lemma sup_do_run (c : SupCall) (f : Sup -> result unit * Sup) w s :
  supervisor w = Some s ->
  sup_do c f w =
  (fst (f s), set_supervisor (Some (snd (f s))) (set_calls (calls w ++ [c]) w)).
Proof.
  intros H. unfold sup_do, the_supervisor, log_call, bind, modify, lift.
  rewrite H. reflexivity.
Qed.

Lemma sup_get_run {A} (c : SupCall) (f : Sup -> result A) w s :
  supervisor w = Some s ->
  sup_get c f w = (f s, set_calls (calls w ++ [c]) w).
Proof.
  intros H. unfold sup_get, the_supervisor, log_call, bind, modify, lift.
  rewrite H. reflexivity.
Qed.

Lemma for_each_comp_image (ts : list nat) :
  forall w s1, supervisor w = Some s1 ->
  fst (comp_images ts s1) = Ok tt ->
  for_each ts (fun t => sup_do (Call_comp_image t) (Supervisor.comp_image t)) w =
  (Ok tt,
   set_supervisor (Some (snd (comp_images ts s1)))
     (set_calls (calls w ++ map Call_comp_image ts) w)).
Proof.
  induction ts as [| t ts IH]; intros w s1 Hs Hok; simpl.
  - rewrite app_nil_r, <- Hs, set_supervisor_calls_same. reflexivity.
  - simpl in Hok. unfold bind. rewrite (sup_do_run _ _ w s1 Hs).
    destruct (Supervisor.comp_image t s1) as [[[] | e] s2]; simpl in *;
      [| discriminate].
    erewrite IH by (simpl; try reflexivity; exact Hok).
    simpl. rewrite <- app_assoc. reflexivity.
Qed.

Lemma for_each_comp_image_shape (ts : list nat) :
  forall w s1, supervisor w = Some s1 ->
  exists r s' ts',
    for_each ts
       (fun t => sup_do (Call_comp_image t) (Supervisor.comp_image t)) w =
    (r, set_supervisor (Some s')
      (set_calls (calls w ++ map Call_comp_image ts') w)).
Proof.
  induction ts as [| t ts IH]; intros w s1 Hs; simpl.
  - exists (Ok tt), s1, []. unfold ret. simpl.
    rewrite app_nil_r, <- Hs, set_supervisor_calls_same. reflexivity.
  - unfold bind. rewrite (sup_do_run _ _ w s1 Hs).
    destruct (Supervisor.comp_image t s1) as [[[] | e] s2]; simpl.
    + destruct (IH (set_supervisor (Some s2)
             (set_calls (calls w ++ [Call_comp_image t]) w)) s2 eq_refl)
        as (r & s' & ts' & E).
      exists r, s', (t :: ts'). rewrite E. simpl. rewrite <- app_assoc. reflexivity.
    + exists (Raise e), s2, [t]. reflexivity.
Qed.

Lemma simulate_no_supervisor (w : World) :
  supervisor w = None ->
  simulate w = (Raise AttributeError, set_ticks (S (ticks w)) w).
Proof.
  intros H. unfold simulate, bind, time_time, the_supervisor. simpl.
  rewrite H. reflexivity.
Qed.

Lemma simulate_shape (w : World) (s : Sup) :
  supervisor w = Some s ->
  exists r s' cs,
    simulate w =
    (r, set_supervisor (Some s')
          (set_calls (calls w ++ Call_singleNext (Supervisor.seeAtmos s) :: cs)
             (set_ticks (S (ticks w)) w))) /\
    count_singleNext cs = 0%nat /\
    (is_ok r = true -> r = Ok (start_time w)).
Proof.
  intros Hs. unfold simulate.
  erewrite bind_ok by (unfold time_time; reflexivity).
  erewrite bind_ok by (unfold the_supervisor; simpl; rewrite Hs; reflexivity).
  unfold bind at 1. erewrite sup_do_run by (simpl; exact Hs).
  destruct (Supervisor.singleNext (Supervisor.seeAtmos s) s) as [[[] | e] s1];
    simpl.
  2:{ exists (Raise e), s1, []. repeat split. discriminate. }
  unfold bind at 1, comp_all_images.
  erewrite bind_ok by (unfold the_supervisor; simpl; reflexivity).
  destruct (Supervisor.sim s1).
  1,2: exists (Raise AttributeError), s1, []; repeat split; discriminate.
  match goal with |- context [for_each ?l ?b ?x] =>
    destruct (for_each_comp_image_shape l x s1 eq_refl) as (r & s' & ts' & E);
    rewrite E end.
  simpl. rewrite <- app_assoc. simpl.
  destruct r as [[] | e].
  - exists (Ok (start_time w)), s', (map Call_comp_image ts').
    repeat split. apply count_singleNext_comp_images.
  - exists (Raise e), s', (map Call_comp_image ts').
    repeat split. apply count_singleNext_comp_images. discriminate.
Qed.

Lemma simulate_ok (w : World) (s : Sup) :
  supervisor w = Some s ->
  fst (sim_step s) = Ok tt ->
  simulate w =
  (Ok (start_time w),
   set_supervisor (Some (snd (sim_step s)))
     (set_calls (calls w ++ step_calls s) (set_ticks (S (ticks w)) w))).
Proof.
  intros Hs Hok. unfold simulate, sim_step, step_calls in *.
  erewrite bind_ok by (unfold time_time; reflexivity).
  erewrite bind_ok by (unfold the_supervisor; simpl; rewrite Hs; reflexivity).
  unfold bind at 1. erewrite sup_do_run by (simpl; exact Hs).
  destruct (Supervisor.singleNext (Supervisor.seeAtmos s) s) as [[[] | e] s1];
    simpl in *; [| discriminate].
  unfold bind at 1, comp_all_images.
  erewrite bind_ok by (unfold the_supervisor; simpl; reflexivity).
  destruct (Supervisor.sim s1); simpl in *; try discriminate.
  erewrite for_each_comp_image by (simpl; try reflexivity; exact Hok).
  simpl. rewrite <- app_assoc. reflexivity.
Qed.

Lemma loopOnce_body_split (w : World) :
  loopOnce_body w = bind simulate throttled_refresh w.
Proof.
  unfold loopOnce_body, simulate, bind, ret.
  destruct (time_time w) as [[start | e] w1]; [| reflexivity].
  destruct (the_supervisor w1) as [[s | e] w2]; [| reflexivity].
  destruct (sup_do _ _ w2) as [[[] | e] w3]; [| reflexivity].
  destruct (comp_all_images w3) as [[[] | e] w4]; reflexivity.
Qed.

Lemma throttled_refresh_skips (start : Q) (w : World) :
  negb (Qeq_bool (wao_frameRate (uiBase w)) 0) &&
  Qlt_bool (1 / wao_frameRate (uiBase w))
           (clock w (S (ticks w)) - refreshTime w) = false ->
  exists r k, throttled_refresh start w = (r, set_ticks k w).
Proof.
  intros H. unfold throttled_refresh.
  erewrite bind_ok by (unfold time_time; reflexivity).
  erewrite bind_ok by (unfold gets; reflexivity).
  unfold float_div. simpl.
  destruct (Qeq_bool (wao_frameRate (uiBase w)) 0); simpl in H.
  - eexists _, _. reflexivity.
  - erewrite bind_ok by (unfold lift; reflexivity).
    erewrite bind_ok by (unfold time_time; reflexivity).
    erewrite bind_ok by (unfold gets; reflexivity).
    simpl. rewrite H. eexists _, _. reflexivity.
Qed.

Lemma loopOnce_body_skips (w : World) :
  refresh_due w = false ->
  exists r W,
    loopOnce_body (set_loopLock true w) = (r, W) /\
    same_displays w W /\ loopLock W = true.
Proof.
  intros H. rewrite loopOnce_body_split.
  destruct (supervisor w) as [s |] eqn:Hs.
  - destruct (simulate_shape (set_loopLock true w) s Hs)
      as (r & s' & cs & E & _ & Hr).
    destruct r as [start | e].
    + erewrite bind_ok by exact E.
      match goal with |- context [throttled_refresh ?a ?x] =>
        destruct (throttled_refresh_skips a x H) as (r' & k & E') end.
      rewrite E'. eexists _, _. split; [reflexivity|].
      split; [split|]; reflexivity.
    + erewrite bind_raise by exact E. eexists _, _. split; [reflexivity|].
      split; [split|]; reflexivity.
  - erewrite bind_raise by (apply simulate_no_supervisor; exact Hs).
    eexists _, _. split; [reflexivity|]. split; [split|]; reflexivity.
Qed.

Lemma loopOnce_skips (w : World) :
  refresh_due w = false -> same_displays w (exec loopOnce w).
Proof.
  intros H. destruct (loopLock w) eqn:Hl.
  - unfold exec. rewrite (loopOnce_locked w Hl). split; reflexivity.
  - unfold exec. rewrite (loopOnce_free w Hl).
    destruct (loopOnce_body_skips w H) as (r & W & E & (Hd & Ht) & HL).
    unfold try_finally, try_except, print, modify, loopLock_release.
    rewrite E. destruct r as [[] | e]; simpl; rewrite HL; simpl;
      split; assumption.
Qed.







Lemma string_app_assoc (a b c : string) :
  ((a ++ b) ++ c = a ++ (b ++ c))%string.
Proof. induction a as [| x a IH]; simpl; [| rewrite IH]; reflexivity. Qed.

Lemma py_index_nth {A} (l : list A) (i : nat) (a : A) :
  nth_error l i = Some a -> py_index l (Z.of_nat i) = Ok a.
Proof.
  intros H. unfold py_index.
  assert (Hi : (i < List.length l)%nat)
    by (apply nth_error_Some; rewrite H; discriminate).
  destruct (Z.ltb_spec (Z.of_nat i) 0); [lia|].
  destruct (Z.leb_spec 0 (Z.of_nat i)); [| lia].
  destruct (Z.ltb_spec (Z.of_nat i) (Z.of_nat (List.length l))); [| lia].
  simpl. rewrite Nat2Z.id, H. reflexivity.
Qed.

Lemma py_index_0 {A} (x : A) (l : list A) : py_index (x :: l) 0 = Ok x.
Proof. apply (py_index_nth _ 0). reflexivity. Qed.

Lemma py_index_1 {A} (x y : A) (l : list A) : py_index (x :: y :: l) 1 = Ok y.
Proof. apply (py_index_nth _ 1). reflexivity. Qed.

Lemma touched_self (w : World) : touched w w = w.
Proof. destruct w; reflexivity. Qed.

Lemma strehl_world_touched vals (ts : list nat) :
  forall w, strehl_world vals ts w = touched (strehl_world vals ts w) w.
Proof.
  induction ts as [| t ts IH]; intros w; simpl.
  - symmetry. apply touched_self.
  - rewrite IH at 1.
    destruct (Z.of_nat t =? wao_dispSR_tar (uiAO w))%Z;
      [destruct (vals t) as [[le se] n] |]; reflexivity.
Qed.

Lemma strehl_world_calls vals (ts : list nat) :
  forall w,
    calls (strehl_world vals ts w) =
    calls w ++ strehl_calls (wao_dispSR_tar (uiAO w)) ts.
Proof.
  induction ts as [| t ts IH]; intros w; simpl.
  - symmetry. apply app_nil_r.
  - rewrite IH.
    destruct (Z.of_nat t =? wao_dispSR_tar (uiAO w))%Z;
      [destruct (vals t) as [[le se] n] |]; simpl;
      rewrite <- ?app_assoc; reflexivity.
Qed.

Lemma strehl_world_SRLE vals (ts : list nat) :
  forall w,
    SRLE (strehl_world vals ts w) =
    plotted (wao_dispSR_tar (uiAO w)) (fun t => fst (fst (vals t))) ts (SRLE w).
Proof.
  induction ts as [| t ts IH]; intros w; simpl; [reflexivity|].
  rewrite IH. unfold plotted. simpl.
  destruct (Z.of_nat t =? wao_dispSR_tar (uiAO w))%Z eqn:E;
      [destruct (vals t) as [[le se] n] |]; simpl; try rewrite E; reflexivity.
Qed.

Lemma strehl_world_SRSE vals (ts : list nat) :
  forall w,
    SRSE (strehl_world vals ts w) =
    plotted (wao_dispSR_tar (uiAO w)) (fun t => snd (fst (vals t))) ts (SRSE w).
Proof.
  induction ts as [| t ts IH]; intros w; simpl; [reflexivity|].
  rewrite IH. unfold plotted. simpl.
  destruct (Z.of_nat t =? wao_dispSR_tar (uiAO w))%Z eqn:E;
      [destruct (vals t) as [[le se] n] |]; simpl; try rewrite E; reflexivity.
Qed.

Lemma strehl_world_numiter vals (ts : list nat) :
  forall w,
    numiter (strehl_world vals ts w) =
    plotted (wao_dispSR_tar (uiAO w)) (fun t => snd (vals t)) ts (numiter w).
Proof.
  induction ts as [| t ts IH]; intros w; simpl; [reflexivity|].
  rewrite IH. unfold plotted. simpl.
  destruct (Z.of_nat t =? wao_dispSR_tar (uiAO w))%Z eqn:E;
      [destruct (vals t) as [[le se] n] |]; simpl; try rewrite E; reflexivity.
Qed.

Lemma strehl_rounds (s : Sup) (fc : Z) (ts : list nat) :
  (forall t, In t ts -> strehl_ok s t) ->
  Supervisor.getFrameCounter s = Ok fc ->
  forall sig w, supervisor w = Some s ->
  for_fold ts sig strehl_round w =
  (Ok ((fst sig ++ strehl_text (strehl_se s) ts)%string,
       (snd sig ++ strehl_text (strehl_le s) ts)%string),
   strehl_world (fun t => (strehl_le s t, strehl_se s t, fc)) ts w).
Proof.
  intros Hok Hfc. induction ts as [| t ts IH]; intros sig w Hs.
  - simpl. unfold ret. destruct sig as [a b]. simpl.
    assert (E : forall x : string, (x ++ "")%string = x)
      by (induction x as [| c x IHx]; simpl; [| rewrite IHx]; reflexivity).
    rewrite !E. reflexivity.
  - simpl for_fold. simpl strehl_world.
    assert (Hok' : forall x, In x ts -> strehl_ok s x)
      by (intros; apply Hok; right; assumption).
    specialize (IH Hok').
    destruct (Hok t (or_introl eq_refl)) as (se & le & rest & Eg).
    assert (Ese : strehl_se s t = se) by (unfold strehl_se; rewrite Eg; reflexivity).
    assert (Ele : strehl_le s t = le) by (unfold strehl_le; rewrite Eg; reflexivity).
    unfold bind at 1. unfold strehl_round.
    erewrite bind_ok by (rewrite (sup_get_run _ _ w s Hs), Eg; reflexivity).
    erewrite bind_ok by (unfold gets; reflexivity).
    simpl uiAO.
    destruct (Z.of_nat t =? wao_dispSR_tar (uiAO w))%Z.
    + unfold bind at 1.
      erewrite bind_ok by (unfold lift; rewrite py_index_1; reflexivity).
      erewrite bind_ok by (unfold lift; rewrite py_index_0; reflexivity).
      erewrite bind_ok by (erewrite sup_get_run by (simpl; exact Hs); rewrite Hfc; reflexivity).
      rewrite (run_eq (updateSRDisplay le se fc) _).
      assert (Eo : forall x, outcome (updateSRDisplay le se fc) x = Ok tt) by reflexivity.
      rewrite Eo.
      erewrite bind_ok by (unfold lift; rewrite py_index_0; reflexivity).
      erewrite bind_ok by (unfold lift; rewrite py_index_1; reflexivity).
      unfold ret. rewrite IH by (simpl; exact Hs).
      simpl fst. simpl snd. rewrite !string_app_assoc. simpl.
      rewrite Ese, Ele. reflexivity.
    + unfold bind at 1. unfold ret at 1.
      erewrite bind_ok by (unfold lift; rewrite py_index_0; reflexivity).
      erewrite bind_ok by (unfold lift; rewrite py_index_1; reflexivity).
      unfold ret. rewrite IH by (simpl; exact Hs).
      simpl fst. simpl snd. rewrite !string_app_assoc. simpl.
      rewrite Ese, Ele. reflexivity.
Qed.
Lemma strehl_world_frame vals (ts : list nat) (w : World) :
  let W := strehl_world vals ts w in
  ticks W = ticks w /\ clock W = clock w /\ refreshTime W = refreshTime w /\
  dispStatsInTerminal W = dispStatsInTerminal w /\ uiAO W = uiAO w /\
  uiBase W = uiBase w /\ loopLock W = loopLock w /\
  supervisor W = supervisor w /\ config W = config w.
Proof. simpl. rewrite strehl_world_touched. repeat split; reflexivity. Qed.

Lemma loopOnce_refreshes (w : World) (s : Sup) (cfg : Config) (fc : Z) :
  loopLock w = false -> supervisor w = Some s -> config w = Some cfg ->
  dispStatsInTerminal w = false ->
  fst (sim_step s) = Ok tt ->
  (forall t, In t (range (List.length (p_targets cfg))) ->
             strehl_ok (snd (sim_step s)) t) ->
  Supervisor.getFrameCounter (snd (sim_step s)) = Ok fc ->
  refresh_due w = true ->
  Qeq_bool (clock w (1 + ticks w) - start_time w) 0 = false ->
  Qeq_bool (clock w (3 + ticks w) - refreshTime w) 0 = false ->
  let s' := snd (sim_step s) in
  let ts := range (List.length (p_targets cfg)) in
  let sel := wao_dispSR_tar (uiAO w) in
  let W := exec loopOnce w in
  outcome loopOnce w = Ok tt /\
  supervisor W = Some s' /\
  calls W = calls w ++ step_calls s ++ strehl_calls sel ts /\
  wao_strehlSE (uiAO W) = strehl_text (strehl_se s') ts /\
  wao_strehlLE (uiAO W) = strehl_text (strehl_le s') ts /\
  wao_currentFreq (uiAO W) = (1 / (clock w (1 + ticks w) - start_time w))%Q /\
  SRSE W = plotted sel (strehl_se s') ts (SRSE w) /\
  SRLE W = plotted sel (strehl_le s') ts (SRLE w) /\
  numiter W = plotted sel (fun _ => fc) ts (numiter w) /\
  refreshTime W = start_time w /\
  loopLock W = false /\
  ticks W = (4 + ticks w)%nat.
Proof.
  intros Hl Hs Hc Hstat Hstep Hok Hfc Hdue Hlt Hrt s' ts sel W.
  unfold refresh_due in Hdue. apply andb_true_iff in Hdue.
  destruct Hdue as [Hrate Hdue]. apply negb_true_iff in Hrate.
  assert (E : loopOnce w =
    (Ok tt,
     let W3 := set_ticks (3 + ticks w)
                 (set_supervisor (Some s')
                    (set_calls (calls w ++ step_calls s) (set_loopLock true w))) in
     let Wf := strehl_world (fun t => (strehl_le s' t, strehl_se s' t, fc)) ts W3 in
     set_loopLock false
       (set_refreshTime (start_time w)
          (set_uiAO
             (set_wao_currentFreq (1 / (clock w (1 + ticks w) - start_time w))
                (set_wao_strehlLE (strehl_text (strehl_le s') ts)
                   (set_wao_strehlSE (strehl_text (strehl_se s') ts) (uiAO w))))
             (set_ticks (4 + ticks w) Wf))))).
  { rewrite (loopOnce_free w Hl).
    unfold try_finally, try_except. rewrite loopOnce_body_split.
    erewrite bind_ok by (apply simulate_ok; [exact Hs | exact Hstep]).
    unfold throttled_refresh.
    erewrite bind_ok by (unfold time_time; reflexivity).
    erewrite bind_ok by (unfold gets; reflexivity).
    erewrite bind_ok
      by (unfold lift, float_div; wsimpl; rewrite Hrate; reflexivity).
    erewrite bind_ok by (unfold time_time; reflexivity).
    erewrite bind_ok by (unfold gets; reflexivity).
    unfold start_time, check_time in *. wsimpl. simpl in Hdue. rewrite Hdue.
    unfold refresh_displays.
    erewrite bind_ok by (unfold the_config; wsimpl; rewrite Hc; reflexivity).
    erewrite bind_ok
      by (apply (strehl_rounds s' fc); [exact Hok | exact Hfc | reflexivity]).
    fold ts. fold s'.
    match goal with |- context [strehl_world ?v ts ?x] =>
      destruct (strehl_world_frame v ts x)
        as (Ft & Fc & Fr & Fd & Fu & Fb & Fl & Fs & Fg);
      set (Wf := strehl_world v ts x) in * end.
    wsimpl_in Ft. wsimpl_in Fc. wsimpl_in Fr. wsimpl_in Fd. wsimpl_in Fu.
    wsimpl_in Fl.
    erewrite bind_ok
      by (unfold lift, float_div; simpl in Hlt; rewrite Hlt; reflexivity).
    erewrite bind_ok by (unfold time_time; reflexivity).
    erewrite bind_ok by (unfold gets; reflexivity).
    wsimpl. rewrite Fr, Fc, Ft.
    erewrite bind_ok
      by (unfold lift, float_div; simpl in Hrt; rewrite Hrt; reflexivity).
    unfold updateSRSE, updateSRLE, updateCurrentLoopFrequency, update_uiAO.
    erewrite bind_ok by (unfold modify; reflexivity).
    erewrite bind_ok by (unfold modify; reflexivity).
    erewrite bind_ok by (unfold modify; reflexivity).
    erewrite bind_ok by (unfold gets; reflexivity).
    wsimpl. rewrite Fd, Hstat.
    erewrite bind_ok by (unfold ret; reflexivity).
    unfold modify, loopLock_release. wsimpl. rewrite ?Fl, ?Fu, ?Ft. wsimpl.
    reflexivity. }
  unfold W, outcome, exec. rewrite E. wsimpl.
  match goal with |- context [strehl_world ?v ts ?x] =>
      destruct (strehl_world_frame v ts x)
        as (Ft & Fc & Fr & Fd & Fu & Fb & Fl & Fs & Fg) end.
  rewrite Fs, strehl_world_calls, strehl_world_SRSE, strehl_world_SRLE,
    strehl_world_numiter. wsimpl.
  rewrite <- app_assoc. repeat split; reflexivity.
Qed.

End Loop.

(** ** The throttle and the calls of an iteration *)

Section Throttle.
Context {D : Domain} {SV : Supervisor.Ops} {NP : Np.Ops} {HP : Helpers}.

Lemma Qlt_bool_lt (a b : Q) : Qlt_bool a b = true -> (a < b)%Q.
Proof.
  unfold Qlt_bool. intros H. apply negb_true_iff in H.
  apply Qnot_le_lt. intros Hle. apply Qle_bool_iff in Hle. congruence.
Qed.




(** C2, amended.  The Strehl plot, the two Strehl text fields and the
    loop-frequency display are refreshed by [loopOnce] only when the time
    elapsed since [refreshTime], read after the simulation step, exceeds
    1 divided by the frame rate of the GUI (and that rate is not zero):
    otherwise they and [refreshTime] stay as they are.  A refresh that
    runs to its end sets [refreshTime] to the start time of its
    iteration, shows the inverse of the loop time as frequency, and
    leaves the lock free.  So a later refresh comes more than one frame
    period after the start of the iteration that made the previous one,
    the period being counted from that start and not from the previous
    refresh itself. *)
Theorem refresh_throttled :
  (forall w, refresh_due w = false -> same_displays w (exec loopOnce w)) /\
  (forall w s cfg fc,
     loopLock w = false -> supervisor w = Some s -> config w = Some cfg ->
     dispStatsInTerminal w = false ->
     fst (sim_step s) = Ok tt ->
     (forall t, In t (range (List.length (p_targets cfg))) ->
                strehl_ok (snd (sim_step s)) t) ->
     Supervisor.getFrameCounter (snd (sim_step s)) = Ok fc ->
     Qeq_bool (clock w (1 + ticks w) - start_time w) 0 = false ->
     Qeq_bool (clock w (3 + ticks w) - refreshTime w) 0 = false ->
     refresh_due w = true ->
     outcome loopOnce w = Ok tt /\
     refreshTime (exec loopOnce w) = start_time w /\
     wao_currentFreq (uiAO (exec loopOnce w)) =
       (1 / (clock w (1 + ticks w) - start_time w))%Q /\
     loopLock (exec loopOnce w) = false /\
     forall w',
       refreshTime w' = refreshTime (exec loopOnce w) ->
       refreshes w' ->
       (1 / wao_frameRate (uiBase w') < check_time w' - start_time w)%Q).
Proof.
  split; [exact loopOnce_skips|].
  intros w s cfg fc Hl Hs Hc Hstat Hstep Hok Hfc Hlt Hrt Hdue.
  destruct (loopOnce_refreshes w s cfg fc Hl Hs Hc Hstat Hstep Hok Hfc Hdue
              Hlt Hrt)
    as (Ho & _ & _ & _ & _ & Hf & _ & _ & _ & Hr & Hlk & _).
  repeat split; try assumption.
  intros w' Hsame Hre. rewrite Hr in Hsame. rewrite <- Hsame.
  destruct (refresh_due w') eqn:Hd.
  - unfold refresh_due in Hd. apply andb_true_iff in Hd.
    apply Qlt_bool_lt, Hd.
  - exfalso. apply Hre, loopOnce_skips, Hd.
Qed.


End Throttle.

(** ** Loading a configuration *)

Section Load.
Context {D : Domain} {SV : Supervisor.Ops} {NP : Np.Ops} {HP : Helpers}.

Lemma triple_ret {A} (P : World -> Prop) (a : A) (Q : A -> World -> Prop) :
  (forall w, P w -> Q a w) -> triple P (ret a) Q.
Proof. intros H w Hw. exists a. split; [reflexivity | apply H, Hw]. Qed.

Lemma triple_bind {A B} (P : World -> Prop) (m : M A) (k : A -> M B)
    (R : A -> World -> Prop) (Q : B -> World -> Prop) :
  triple P m R -> (forall a, triple (R a) (k a) Q) -> triple P (bind m k) Q.
Proof.
  intros Hm Hk w Hw. destruct (Hm w Hw) as (a & Ho & Ha).
  destruct (Hk a _ Ha) as (b & Hob & Hb).
  exists b. rewrite outcome_bind, exec_bind, Ho. split; assumption.
Qed.

Lemma triple_gets {A} (P : World -> Prop) (f : World -> A)
    (Q : A -> World -> Prop) :
  (forall w, P w -> Q (f w) w) -> triple P (gets f) Q.
Proof. intros H w Hw. exists (f w). split; [reflexivity | apply H, Hw]. Qed.

Lemma triple_modify (P : World -> Prop) (f : World -> World)
    (Q : unit -> World -> Prop) :
  (forall w, P w -> Q tt (f w)) -> triple P (modify f) Q.
Proof. intros H w Hw. exists tt. split; [reflexivity | apply H, Hw]. Qed.

Lemma triple_conseq {A} (P P' : World -> Prop) (m : M A)
    (Q Q' : A -> World -> Prop) :
  (forall w, P' w -> P w) -> (forall a w, Q a w -> Q' a w) ->
  triple P m Q -> triple P' m Q'.
Proof.
  intros HP1 HQ Hm w Hw. destruct (Hm w (HP1 w Hw)) as (a & Ho & Ha).
  exists a. split; [assumption | apply HQ, Ha].
Qed.

(** A loop whose invariant is indexed by the items gone through. *)
Lemma triple_for_each {A} (Inv : list A -> World -> Prop) (body : A -> M unit) :
  forall l pre,
  (forall done a, In a l ->
     triple (Inv done) (body a) (fun _ => Inv (done ++ [a]))) ->
  triple (Inv pre) (for_each l body) (fun _ => Inv (pre ++ l)).
Proof.
  induction l as [| a l IH]; intros pre Hb; simpl.
  - apply triple_ret. intros w Hw. rewrite app_nil_r. exact Hw.
  - eapply triple_bind; [apply Hb; left; reflexivity|]. intros u.
    eapply triple_conseq; [| | apply (IH (pre ++ [a]))].
    + intros w Hw; exact Hw.
    + intros u0 w Hw. rewrite <- app_assoc in Hw. exact Hw.
    + intros done x Hx. apply Hb. right. exact Hx.
Qed.

Lemma triple_gets_val {A} (P : World -> Prop) (f : World -> A) (v : A) :
  (forall w, P w -> f w = v) ->
  triple P (gets f) (fun a w => a = v /\ P w).
Proof.
  intros H. apply triple_gets. intros w Hw. split; [apply H, Hw | exact Hw].
Qed.

Lemma triple_lift_val {A} (P : World -> Prop) (r : result A) (v : A) :
  r = Ok v -> triple P (lift r) (fun a w => a = v /\ P w).
Proof.
  intros H w Hw. exists v. subst r. split; [reflexivity|]. split;
    [reflexivity | exact Hw].
Qed.

Lemma triple_pure {A} (X : Prop) (P : World -> Prop) (m : M A)
    (Q : A -> World -> Prop) :
  (X -> triple P m Q) -> triple (fun w => X /\ P w) m Q.
Proof. intros H w [HX Hw]. apply (H HX w Hw). Qed.

Lemma triple_the_config (P : World -> Prop) (c : Config) :
  (forall w, P w -> config w = Some c) ->
  triple P the_config (fun a w => a = c /\ P w).
Proof.
  intros H w Hw. exists c. unfold outcome, exec, the_config.
  rewrite (H w Hw). repeat split. exact Hw.
Qed.

Lemma triple_keeps_ok {A B} (f : World -> B) (m : M A) (b : B) :
  (forall w, is_ok (outcome m w) = true) -> keeps f m ->
  triple (fun w => f w = b) m (fun _ w => f w = b).
Proof.
  intros Hok Hk w Hw. specialize (Hok w).
  destruct (outcome m w) as [a | e] eqn:E; [| discriminate].
  exists a. split; [reflexivity|]. rewrite Hk. exact Hw.
Qed.

Lemma add_dispDock_triple c cs d n name g t :
  dock_helper_ok ->
  triple (fun w => load_frame w = (c, cs, d, n))
    (add_dispDock name g t)
    (fun _ w => load_frame w = (c, cs ++ [(name, g, t)], d, n)).
Proof.
  intros Hh. destruct (Hh name g t) as [Hok Hk]. unfold add_dispDock.
  eapply triple_bind.
  { apply triple_modify
      with (Q := fun _ w => load_frame w = (c, cs ++ [(name, g, t)], d, n)).
    intros w Hw. unfold load_frame in *. wsimpl. inversion Hw. reflexivity. }
  intros u. eapply triple_bind.
  { apply triple_keeps_ok; assumption. }
  intros dk. destruct (String.eqb t "SR").
  - unfold dock_addWidget. apply triple_modify. intros w Hw.
    destruct (dict_get dk (docks w)); exact Hw.
  - apply triple_ret. intros w Hw. exact Hw.
Qed.

Lemma numbered_docks_triple c cs d n prefix k g :
  dock_helper_ok ->
  triple (fun w => load_frame w = (c, cs, d, n))
    (numbered_docks prefix k g)
    (fun _ w => load_frame w = (c, cs ++ numbered prefix k g, d, n)).
Proof.
  intros Hh. unfold numbered_docks, numbered.
  eapply triple_conseq;
    [| | apply (triple_for_each
           (fun done w =>
              load_frame w =
              (c, cs ++ map (fun i => (dock_name prefix i, g, "pg_image"%string))
                            done, d, n))
           _ (range k) [])].
  - intros w Hw. simpl. rewrite app_nil_r. exact Hw.
  - intros u w Hw. exact Hw.
  - intros done a _.
    eapply triple_conseq; [| | apply add_dispDock_triple, Hh].
    + intros w Hw. exact Hw.
    + intros u w Hw. rewrite map_app, app_assoc. exact Hw.
Qed.

Lemma wfs_docks_triple cfg cs d n i p :
  dock_helper_ok ->
  nth_error (p_wfss cfg) i = Some p -> known_sensor p = true ->
  triple (fun w => load_frame w = (Some cfg, cs, d, n))
    (wfs_docks i)
    (fun _ w => load_frame w = (Some cfg, cs ++ sensor_docks i p, d, n)).
Proof.
  intros Hh Hn Hk. unfold wfs_docks, sensor_docks.
  eapply triple_bind; [apply add_dispDock_triple, Hh|]. intros u1.
  eapply triple_bind; [apply add_dispDock_triple, Hh|]. intros u2.
  eapply triple_bind; [apply add_dispDock_triple, Hh|]. intros u3.
  eapply triple_bind.
  { apply (triple_the_config _ cfg). intros w Hw. inversion Hw. reflexivity. }
  intros c'. apply triple_pure. intros ->.
  eapply triple_bind.
  { apply (triple_lift_val _ _ p). apply py_index_nth, Hn. }
  intros p'. apply triple_pure. intros ->.
  rewrite <- !app_assoc. simpl app.
  unfold known_sensor in Hk.
  destruct (is_SH (wfs_type p)).
  - eapply triple_conseq; [| | apply add_dispDock_triple, Hh].
    + intros w Hw; exact Hw.
    + intros u w Hw. rewrite <- !app_assoc in Hw. exact Hw.
  - simpl in Hk. rewrite Hk.
    eapply triple_bind; [apply add_dispDock_triple, Hh|]. intros u4.
    eapply triple_bind; [apply add_dispDock_triple, Hh|]. intros u5.
    eapply triple_conseq; [| | apply add_dispDock_triple, Hh].
    + intros w Hw; exact Hw.
    + intros u w Hw. rewrite <- !app_assoc in Hw. exact Hw.
Qed.

Lemma flat_map_agree {A B} (f g : A -> list B) (l : list A) :
  (forall x, In x l -> f x = g x) -> flat_map f l = flat_map g l.
Proof.
  induction l as [| x l IH]; intros H; simpl; [reflexivity|].
  rewrite (H x (or_introl eq_refl)), IH; [reflexivity|].
  intros y Hy. apply H. right. exact Hy.
Qed.

Lemma sensors_docks_seq (ps : list WfsParam) :
  forall a,
    flat_map (fun i => sensor_docks i (nth (i - a) ps no_sensor))
             (seq a (List.length ps)) =
    sensors_docks a ps.
Proof.
  induction ps as [| p ps IH]; intros a; [reflexivity|].
  cbn [List.length seq flat_map sensors_docks].
  rewrite Nat.sub_diag. cbn [nth]. f_equal. rewrite <- IH.
  apply flat_map_agree. intros i Hi. apply in_seq in Hi.
  replace (i - a)%nat with (S (i - S a)) by lia. reflexivity.
Qed.




Lemma dict_get_set_same {V} (k : string) (v : V) (d : dict V) :
  dict_get k (dict_set k v d) = Some v.
Proof.
  induction d as [| [k' v'] d IH]; simpl.
  - rewrite String.eqb_refl. reflexivity.
  - destruct (String.eqb k k') eqn:E; simpl; rewrite E; [reflexivity | exact IH].
Qed.

Lemma dict_get_set_other {V} (k k' : string) (v : V) (d : dict V) :
  k <> k' -> dict_get k (dict_set k' v d) = dict_get k d.
Proof.
  intros Hne. induction d as [| [k0 v0] d IH]; simpl.
  - destruct (String.eqb_spec k k'); [contradiction | reflexivity].
  - destruct (String.eqb_spec k' k0) as [-> | Hk]; simpl.
    + destruct (String.eqb_spec k k0); [contradiction | reflexivity].
    + rewrite IH. reflexivity.
Qed.

Lemma dict_set_keeps_keys {V} (k k' : string) (v : V) (d : dict V) :
  dict_get k d <> None -> dict_get k (dict_set k' v d) <> None.
Proof.
  intros H. destruct (String.eqb_spec k k') as [-> | Hne].
  - rewrite dict_get_set_same. discriminate.
  - rewrite dict_get_set_other by assumption. exact H.
Qed.




Lemma set_calls_same (w : World) : set_calls (calls w) w = w.
Proof. destruct w; reflexivity. Qed.


(** The supervisor is created and loads the file, or the given one is
    taken. *)
Lemma set_up_supervisor_run (f : string) (arg : option Sup) w s :
  supplied f arg = Ok s ->
  exists cl,
    match arg with
    | None =>
        bind (log_call Call_CompassSupervisor) (fun _ =>
        bind (lift Supervisor.new) (fun s =>
        bind (modify (set_supervisor (Some s))) (fun _ =>
        sup_do (Call_loadConfig f) (Supervisor.loadConfig f))))
    | Some s => modify (set_supervisor (Some s))
    end w =
    (Ok tt, set_supervisor (Some s) (set_calls cl w)).
Proof.
  unfold supplied. destruct arg as [s0 |]; intros H.
  - inversion H; subst. exists (calls w). rewrite set_calls_same. reflexivity.
  - destruct Supervisor.new as [s0 | e] eqn:En; [| discriminate].
    destruct (Supervisor.loadConfig f s0) as [[[] | e] s1] eqn:El;
      [| discriminate].
    inversion H; subst.
    exists ((calls w ++ [Call_CompassSupervisor]) ++ [Call_loadConfig f]).
    erewrite bind_ok by (unfold log_call, modify; reflexivity).
    erewrite bind_ok by (unfold lift; reflexivity).
    erewrite bind_ok by (unfold modify; reflexivity).
    erewrite sup_do_run by reflexivity. rewrite ?El. reflexivity.
Qed.

(** The devices of the command line are put into the configuration. *)
Lemma set_devices_run (devs : option string) w cfg dl :
  device_list devs = Ok dl -> config w = Some cfg ->
  match devs with
  | Some (String c d) =>
      bind (lift (ints_of (PyStr.split ","%char (String c d)))) (fun l =>
      bind the_config (fun cfg =>
      modify (set_config (Some (set_p_loop_devices l cfg)))))
  | _ => ret tt
  end w =
  (Ok tt,
   set_config (Some match dl with
                    | Some l => set_p_loop_devices l cfg
                    | None => cfg
                    end) w).
Proof.
  intros H Hc. assert (Hw : set_config (Some cfg) w = w)
    by (rewrite <- Hc; destruct w; reflexivity).
  unfold device_list in H. destruct devs as [[| c d] |].
  - inversion H; subst. rewrite Hw. reflexivity.
  - destruct (ints_of _) as [l | e] eqn:E; [| discriminate].
    inversion H; subst.
    erewrite bind_ok by (unfold lift; reflexivity).
    erewrite bind_ok by (unfold the_config; rewrite Hc; reflexivity).
    reflexivity.
  - inversion H; subst. rewrite Hw. reflexivity.
Qed.







End Load.

(** ** The display refresh *)

Section Shown.
Context {D : Domain} {SV : Supervisor.Ops} {NP : Np.Ops} {HP : Helpers}.

Lemma display_frame_refl T w : display_frame T w w.
Proof.
  unfold display_frame. repeat split; auto.
  exists []. rewrite app_nil_r. reflexivity.
Qed.

Lemma display_frame_trans (T1 T2 T : string -> Prop) w1 w2 w3 :
  (forall k, T1 k -> T k) -> (forall k, T2 k -> T k) ->
  display_frame T1 w1 w2 -> display_frame T2 w2 w3 -> display_frame T w1 w3.
Proof.
  intros H1 H2 (A1 & A2 & A3 & A4 & A5 & A6 & A7 & l1 & A8)
    (B1 & B2 & B3 & B4 & B5 & B6 & B7 & l2 & B8).
  unfold display_frame. repeat split; try congruence.
  - destruct (B7 k) as [E _]; [intros X; apply H, H2, X|].
    destruct (A7 k) as [F _]; [intros X; apply H, H1, X|]. congruence.
  - destruct (B7 k) as [_ E]; [intros X; apply H, H2, X|].
    destruct (A7 k) as [_ F]; [intros X; apply H, H1, X|]. congruence.
  - exists (l1 ++ l2). rewrite B8, A8, app_assoc. reflexivity.
Qed.

Lemma frame_update_img key f w0 :
  preserves (display_frame (eq key) w0) (update_img key f).
Proof.
  intros w (A1 & A2 & A3 & A4 & A5 & A6 & A7 & A8).
  unfold exec, update_img, bind, gets, lift, dict_item, modify.
  destruct (dict_get key (imgs w)) as [i |]; simpl;
    [| repeat split; auto; apply A7; assumption].
  unfold display_frame. wsimpl. repeat split; auto.
  - rewrite dict_get_set_other by (intros E; apply H; symmetry; exact E).
    apply A7, H.
  - apply A7, H.
Qed.

Lemma frame_update_viewbox key f w0 :
  preserves (display_frame (eq key) w0) (update_viewbox key f).
Proof.
  intros w (A1 & A2 & A3 & A4 & A5 & A6 & A7 & A8).
  unfold exec, update_viewbox, bind, gets, lift, dict_item, modify.
  destruct (dict_get key (viewboxes w)) as [i |]; simpl;
    [| repeat split; auto; apply A7; assumption].
  unfold display_frame. wsimpl. repeat split; auto.
  - apply A7, H.
  - rewrite dict_get_set_other by (intros E; apply H; symmetry; exact E).
    apply A7, H.
Qed.

Lemma frame_sup_get {A} T c (f : Sup -> result A) w0 :
  preserves (display_frame T w0) (sup_get c f).
Proof.
  intros w (A1 & A2 & A3 & A4 & A5 & A6 & A7 & l & A8).
  unfold exec, sup_get, the_supervisor, log_call, bind, modify, lift.
  destruct (supervisor w) eqn:E; simpl; unfold display_frame; wsimpl;
    repeat split; auto; try (apply A7; assumption); try congruence;
    first [ exists (l ++ [c]); rewrite A8, app_assoc; reflexivity
          | exists l; exact A8 ].
Qed.

Lemma frame_display_dock key xyv w0 :
  preserves (display_frame (eq key) w0) (display_dock key xyv).
Proof.
  repeat first
    [ pres_step
    | apply frame_update_img
    | apply frame_update_viewbox
    | apply frame_sup_get
    | progress unfold display_dock, fetch, psf_block, slope_block, slope_comp ];
    try (pres_prim; fail).
Qed.

(** *** Running a computation that returns *)

Lemma bind_inv {A B} (m : M A) (k : A -> M B) w r W :
  bind m k w = (Ok r, W) ->
  exists a w1, m w = (Ok a, w1) /\ k a w1 = (Ok r, W).
Proof.
  unfold bind. destruct (m w) as [[a | e] w1]; intros H; [| discriminate].
  exists a, w1. split; [reflexivity | exact H].
Qed.

Lemma sup_get_inv {A} (c : SupCall) (f : Sup -> result A) w s a W :
  supervisor w = Some s -> sup_get c f w = (Ok a, W) ->
  f s = Ok a /\ W = set_calls (calls w ++ [c]) w.
Proof.
  intros Hs H. rewrite (sup_get_run c f w s Hs) in H.
  injection H as H1 H2. split; [exact H1 | symmetry; exact H2].
Qed.

Lemma update_img_inv (key : string) (f : Img -> Img) w u W :
  update_img key f w = (Ok u, W) ->
  exists i, dict_get key (imgs w) = Some i /\
            W = set_imgs (dict_set key (f i) (imgs w)) w.
Proof.
  unfold update_img, bind, gets, lift, dict_item, modify.
  destruct (dict_get key (imgs w)) as [i |]; intros H; [| discriminate].
  exists i. injection H as _ H. split; [reflexivity | symmetry; exact H].
Qed.

Lemma update_viewbox_inv (key : string) (f : ViewBox -> ViewBox) w u W :
  update_viewbox key f w = (Ok u, W) ->
  exists v, dict_get key (viewboxes w) = Some v /\
            W = set_viewboxes (dict_set key (f v) (viewboxes w)) w.
Proof.
  unfold update_viewbox, bind, gets, lift, dict_item, modify.
  destruct (dict_get key (viewboxes w)) as [v |]; intros H; [| discriminate].
  exists v. injection H as _ H. split; [reflexivity | symmetry; exact H].
Qed.

Lemma the_config_inv w c W :
  the_config w = (Ok c, W) -> config w = Some c /\ W = w.
Proof.
  unfold the_config. destruct (config w); intros H; [| discriminate].
  injection H as H1 H2. subst. split; reflexivity.
Qed.

End Shown.

(** Runs the hypothesis [H : m w = (Ok a, W)] forward along [m], given
    [Hs : supervisor w0 = Some s] for the window [w0] the run starts
    from; the windows met on the way are written over [w0]. *)
Ltac fwd_leaf H Hs :=
  lazymatch type of H with
  | ret _ _ = _ => unfold ret in H; injection H as ? ?; subst
  | gets _ _ = _ => unfold gets in H; injection H as ? ?; subst
  | modify _ _ = _ => unfold modify in H; injection H as ?; subst
  | raise _ _ = _ => discriminate H
  | lift _ _ = _ =>
      unfold lift in H;
      let E := fresh "E" in injection H as E ?; subst
  | sup_get _ _ _ = _ =>
      let E := fresh "E" in
      eapply sup_get_inv in H; [| wsimpl; exact Hs];
      destruct H as [E ?]; subst
  | the_config _ = _ =>
      let E := fresh "E" in
      apply the_config_inv in H; destruct H as [E ?]; subst
  | update_img _ _ _ = _ =>
      let i := fresh "i" in let E := fresh "E" in
      apply update_img_inv in H; destruct H as (i & E & ?); subst
  | update_viewbox _ _ _ = _ =>
      let v := fresh "v" in let E := fresh "E" in
      apply update_viewbox_inv in H; destruct H as (v & E & ?); subst
  end.

Ltac fwd H Hs :=
  cbv beta match in H;
  lazymatch type of H with
  | bind _ _ _ = _ =>
      let a := fresh "a" in
      let w1 := fresh "w" in
      let H1 := fresh "H" in
      apply bind_inv in H; destruct H as (a & w1 & H1 & H);
      fwd H1 Hs; fwd H Hs
  | (if ?b then _ else _) _ = _ =>
      let B := fresh "B" in destruct b eqn:B; fwd H Hs
  | (match ?x with _ => _ end) _ = _ => destruct x eqn:?; fwd H Hs
  | need _ _ _ = _ => unfold need in H; fwd H Hs
  | psf_block _ _ _ = _ => unfold psf_block in H; fwd H Hs
  | slope_block _ _ _ _ = _ => unfold slope_block in H; fwd H Hs
  | slope_comp _ _ _ _ = _ => unfold slope_comp in H; fwd H Hs
  | _ => first [ fwd_leaf H Hs | idtac ]
  end.

(** Settles the substring tests on the name of a dock. *)
Ltac decide_contains H :=
  rewrite ?contains_dock_name in H by reflexivity;
  repeat match type of H with
         | context [PyStr.contains ?p ?q] =>
             let b := eval vm_compute in (PyStr.contains p q) in
             change (PyStr.contains p q) with b in H
         end;
  cbv beta match in H.

Section Frames.
Context {D : Domain} {SV : Supervisor.Ops} {NP : Np.Ops} {HP : Helpers}.

Lemma display_dock_image k i xyv w r W s :
  supervisor w = Some s ->
  display_dock (image_key k i) xyv w = (Ok r, W) ->
  exists f g,
    source k s (Z.of_nat i) = Ok f /\
    shown k (actionPSF_Log_Scale (uiAO w)) f = Ok g /\
    image_of (image_key k i) W = Some (Some g).
Proof.
  intros Hs H. unfold display_dock, fetch, image_key in *.
  rewrite index_of_key_dock_name in H.
  destruct k; cbn [kind_name] in *; decide_contains H.
  all: fwd H Hs; unfold image_of; wsimpl; cbn [append];
    rewrite dict_get_set_same; do 2 eexists;
    (split; [eassumption |]); (split; [| reflexivity]);
    unfold shown, log_scaled; cbn [is_psf andb]; try reflexivity.
  all: repeat match goal with
              | B : ?x = _ |- context [?x] => rewrite B
              end; reflexivity.
Qed.

Lemma display_dock_slpGeom i xyv w r W s :
  supervisor w = Some s ->
  display_dock (dock_name "slpGeom_" i) xyv w = (Ok r, W) ->
  called_since w W (Call_getSlopeGeom (Z.of_nat i)) /\
  drawn_since (dock_name "slpGeom_" i) w W [AxesClear; CanvasDraw].
Proof.
  intros Hs H. unfold display_dock, fetch, slope_block in *.
  change (dock_name "slpGeom_" i) with (dock_name ("slpGeom" ++ "_") i) in H.
  rewrite index_of_key_dock_name in H. decide_contains H.
  fwd H Hs. cbn [append] in *. split.
  - exists [Call_getSlopeGeom (Z.of_nat i)]. wsimpl.
    split; [reflexivity | left; reflexivity].
  - match goal with
    | E' : dict_get _ (imgs (set_calls _ _)) = Some _ |- _ =>
        wsimpl_in E'; rewrite dict_get_set_same in E'; injection E' as <-
    end.
    match goal with
    | E' : dict_get _ (imgs w) = Some ?j |- _ => rename E' into E; exists j
    end. wsimpl. split; [exact E |].
    rewrite dict_get_set_same. unfold canvas_do. cbn [image canvas].
    rewrite <- app_assoc. reflexivity.
Qed.

Lemma display_dock_slpComp i xyv w r W s :
  supervisor w = Some s ->
  display_dock (dock_name "slpComp_" i) xyv w = (Ok r, W) ->
  called_since w W Call_getSlope.
Proof.
  intros Hs H. unfold display_dock, fetch, slope_block, slope_comp in *.
  change (dock_name "slpComp_" i) with (dock_name ("slpComp" ++ "_") i) in H.
  rewrite index_of_key_dock_name in H. decide_contains H.
  fwd H Hs; cbn [append] in *;
    exists [Call_getSlope]; wsimpl; (split; [reflexivity | left; reflexivity]).
Qed.

Lemma keys_unique {V} (d : dict V) (k : string) (a b : V) :
  NoDup (dict_keys d) -> In (k, a) d -> In (k, b) d -> a = b.
Proof.
  unfold dict_keys. induction d as [| [k' v] d IH]; simpl; intros N Ha Hb;
    [contradiction|].
  inversion N as [| x l Hn N']; subst.
  assert (Hk : forall c, In (k, c) d -> In k (map fst d))
    by (intros c Hc; apply (in_map fst) in Hc; exact Hc).
  destruct Ha as [Ea | Ha], Hb as [Eb | Hb].
  - congruence.
  - inversion Ea; subst. destruct Hn. apply (Hk b Hb).
  - inversion Eb; subst. destruct Hn. apply (Hk a Ha).
  - apply IH; assumption.
Qed.

Lemma display_frame_weaken (T1 T : string -> Prop) w W :
  (forall k, T1 k -> T k) -> display_frame T1 w W -> display_frame T w W.
Proof.
  intros H F.
  apply (display_frame_trans T1 T1 T w W W H H F (display_frame_refl T1 W)).
Qed.

Lemma called_since_before (T : string -> Prop) w w1 W c :
  display_frame T w w1 -> called_since w1 W c -> called_since w W c.
Proof.
  intros (_ & _ & _ & _ & _ & _ & _ & l1 & E1) (l & E & Hin).
  exists (l1 ++ l). rewrite E, E1, app_assoc. split; [reflexivity|].
  apply in_or_app. right. exact Hin.
Qed.

Lemma called_since_after (T : string -> Prop) w w1 W c :
  called_since w w1 c -> display_frame T w1 W -> called_since w W c.
Proof.
  intros (l & E & Hin) (_ & _ & _ & _ & _ & _ & _ & l1 & E1).
  exists (l ++ l1). rewrite E1, E, app_assoc. split; [reflexivity|].
  apply in_or_app. left. exact Hin.
Qed.

Lemma display_round_frame xyv (kd : string * Dock) w :
  display_frame
    (fun k => k = fst kd /\ isVisible (snd kd) = true /\ k <> "Strehl"%string)
    w (exec (display_round xyv kd) w).
Proof.
  unfold display_round.
  destruct (String.eqb_spec (fst kd) "Strehl") as [E | E];
    [apply display_frame_refl|].
  destruct (isVisible (snd kd)) eqn:V; [| apply display_frame_refl].
  apply (display_frame_weaken (eq (fst kd))).
  - intros k <-. repeat split; assumption.
  - apply (frame_display_dock (fst kd) xyv w w), display_frame_refl.
Qed.

Lemma image_key_not_Strehl k i : String.eqb (image_key k i) "Strehl" = false.
Proof. destruct k; reflexivity. Qed.

Lemma rounds_refresh (s : Sup) (ds : dict Dock) :
  forall xyv w r W,
    NoDup (dict_keys ds) -> supervisor w = Some s ->
    for_fold ds xyv display_round w = (Ok r, W) ->
    refreshed s ds w W /\ display_frame (shown_in ds) w W.
Proof.
  induction ds as [| [key dock] ds IH]; intros xyv w r W N Hs H.
  - injection H as _ <-. split; [| apply display_frame_refl].
    repeat split; intros; contradiction.
  - cbn [for_fold] in H. apply bind_inv in H.
    destruct H as (a & w1 & H1 & H2).
    unfold dict_keys in N. cbn [map fst] in N.
    inversion N as [| x l Hn N']; subst.
    pose proof (display_round_frame xyv (key, dock) w) as F1.
    unfold exec in F1. rewrite H1 in F1. cbn [fst snd] in F1.
    assert (Hs1 : supervisor w1 = Some s)
      by (destruct F1 as (E & _); rewrite E; exact Hs).
    assert (Hu : uiAO w1 = uiAO w) by (destruct F1 as (_ & _ & E & _); exact E).
    destruct (IH a w1 r W N' Hs1 H2) as ((I1 & I2 & I3) & F2).
    assert (Hfresh : ~ shown_in ds key).
    { intros (d' & Hin & _). apply Hn. apply (in_map fst) in Hin. exact Hin. }
    split.
    + repeat split.
      * intros k i dk [Eq | Hin] V.
        -- injection Eq as -> ->. unfold display_round in H1.
           cbn [fst snd] in H1. rewrite image_key_not_Strehl, V in H1.
           destruct (display_dock_image k i xyv w a w1 s Hs H1)
             as (f & g & S1 & S2 & S3).
           exists f, g. repeat split; try assumption.
           unfold image_of in *.
           destruct F2 as (_ & _ & _ & _ & _ & _ & K & _).
           destruct (K _ Hfresh) as [-> _]. exact S3.
        -- rewrite <- Hu. apply (I1 k i dk Hin V).
      * intros i dk [Eq | Hin] V.
        -- injection Eq as -> ->. unfold display_round in H1.
           cbn [fst snd] in H1. rewrite V in H1.
           change (String.eqb (dock_name "slpGeom_" i) "Strehl") with false in H1.
           eapply called_since_after; [| exact F2].
           apply (display_dock_slpGeom i xyv w a w1 s Hs H1).
        -- eapply called_since_before; [exact F1 | apply (I2 i dk Hin V)].
      * intros i dk [Eq | Hin] V.
        -- injection Eq as -> ->. unfold display_round in H1.
           cbn [fst snd] in H1. rewrite V in H1.
           change (String.eqb (dock_name "slpComp_" i) "Strehl") with false in H1.
           eapply called_since_after; [| exact F2].
           apply (display_dock_slpComp i xyv w a w1 s Hs H1).
        -- eapply called_since_before; [exact F1 | apply (I3 i dk Hin V)].
    + eapply display_frame_trans; [| | exact F1 | exact F2].
      * intros k (-> & V & E). exists dock. repeat split; try assumption.
        left. reflexivity.
      * intros k (d' & Hin & V & E). exists d'. repeat split; try assumption.
        right. exact Hin.
Qed.

Lemma updateDisplay_ready (w : World) (s : Sup) :
  supervisor w = Some s ->
  Supervisor.sim s = Supervisor.SimReady ->
  Supervisor.isInit s = Ok true ->
  loopLock w = false ->
  updateDisplay w =
  try_finally
    (bind (gets docks) (fun ds =>
     bind (for_fold ds None display_round) (fun _ =>
     modify (set_firstTime 1))))
    loopLock_release
    (set_loopLock true (set_calls (calls w ++ [Call_isInit]) w)).
Proof.
  intros Hs Hsim Hinit Hl. unfold updateDisplay.
  erewrite bind_ok; cycle 1.
  { unfold not_ready, bind, gets. rewrite Hs, Hsim.
    rewrite (sup_get_run _ _ w s Hs), Hinit. reflexivity. }
  cbn [negb]. cbv beta match.
  erewrite bind_ok; cycle 1.
  { unfold loopLock_acquire. wsimpl. rewrite Hl. reflexivity. }
  reflexivity.
Qed.

Lemma not_shown_hidden (ds : dict Dock) (key : string) (dock : Dock) :
  NoDup (dict_keys ds) -> In (key, dock) ds -> isVisible dock = false ->
  ~ shown_in ds key.
Proof.
  intros N Hin V (d' & Hin' & V' & _).
  rewrite (keys_unique ds key dock d' N Hin Hin') in V. congruence.
Qed.

(** C1, amended.  With an initialised supervisor and the lock free, a call
    of [updateDisplay] that returns without an exception has, for every
    visible dock but the Strehl dock, pulled the matching buffer from the
    supervisor: the docks [atm_i], [wfs_i], [dm_i], [tar_i], [psfSE_i],
    [psfLE_i], [SH_i], [pyrLR_i], [pyrHR_i] and [pyrFocalPlane_i] show the
    frame returned by [getAtmScreen(i)], [getWfsPhase(i)], [getDmShape(i)],
    [getTarPhase(i)], [getTarImage(i, "se")], [getTarImage(i, "le")],
    [getWfsImage(i)], [getWfsImage(i)], [getPyrHRImage(i)] and
    [getPyrFocalPlane(i)]; the two PSF docks show its base-10 logarithm,
    what is not positive first replaced by the least positive value, when
    the log-scale action is checked; for [slpGeom_i] and [slpComp_i],
    [getSlopeGeom(i)] and [getSlope()] have been called.  The image and
    the view box of a dock that is not visible, and of the Strehl dock,
    are as they were. *)
Theorem updateDisplay_shows_frames (w : World) (s : Sup) :
  supervisor w = Some s ->
  Supervisor.sim s = Supervisor.SimReady ->
  Supervisor.isInit s = Ok true ->
  loopLock w = false ->
  NoDup (dict_keys (docks w)) ->
  outcome updateDisplay w = Ok tt ->
  let W := exec updateDisplay w in
  refreshed s (docks w) w W /\
  (forall key dock,
     In (key, dock) (docks w) -> isVisible dock = false -> untouched key w W) /\
  untouched "Strehl" w W.
Proof.
  intros Hs Hsim Hinit Hl N Hok W. subst W. unfold outcome, exec in *.
  rewrite (updateDisplay_ready w s Hs Hsim Hinit Hl) in *.
  set (w0 := set_loopLock true (set_calls (calls w ++ [Call_isInit]) w)) in *.
  unfold try_finally in *.
  erewrite bind_ok in * by (unfold gets; reflexivity).
  change (docks w0) with (docks w) in *.
  destruct (for_fold (docks w) None display_round w0) as [[r | e] w1] eqn:R.
  - assert (Hs0 : supervisor w0 = Some s) by exact Hs.
    destruct (rounds_refresh s (docks w) None w0 r w1 N Hs0 R)
      as ((I1 & I2 & I3) & F).
    destruct F as (_ & _ & _ & _ & Hlock & _ & K & _).
    erewrite bind_ok in * by exact R.
    unfold modify, loopLock_release in *. wsimpl. wsimpl_in Hok.
    rewrite Hlock in *. wsimpl.
    assert (C : forall c, called_since w0 w1 c -> called_since w w1 c).
    { intros c (l & E & Hin). exists (Call_isInit :: l).
      split; [| right; exact Hin].
      rewrite E. unfold w0. wsimpl. rewrite <- app_assoc. reflexivity. }
    repeat split.
    + intros k i dock Hin V. apply (I1 k i dock Hin V).
    + intros i dock Hin V. destruct (C _ (I2 i dock Hin V)) as (l & E & Hl').
      exists l. wsimpl. split; assumption.
    + intros i dock Hin V. destruct (C _ (I3 i dock Hin V)) as (l & E & Hl').
      exists l. wsimpl. split; assumption.
    + wsimpl. apply (K key), (not_shown_hidden _ _ dock); assumption.
    + wsimpl. apply (K key), (not_shown_hidden _ _ dock); assumption.
    + wsimpl. apply (K "Strehl"%string). intros (d' & _ & _ & E). apply E.
      reflexivity.
    + wsimpl. apply (K "Strehl"%string). intros (d' & _ & _ & E). apply E.
      reflexivity.
  - erewrite bind_raise in Hok by exact R.
    unfold loopLock_release in Hok.
    destruct (loopLock w1); discriminate Hok.
Qed.
End Frames.
(** ** The window at work on a small simulation *)

Section Examples.
#[local] Existing Instance Mock.dom.
#[local] Existing Instance Mock.sv.
#[local] Existing Instance Mock.np.
#[local] Existing Instance Mock.idle.

Local Open Scope string_scope.

Ltac conj := repeat match goal with |- _ /\ _ => split end.

Lemma distinct_NoDup (l : list string) : Mock.distinct l = true -> NoDup l.
Proof.
  induction l as [| x l IH]; simpl; intros H; [constructor|].
  apply andb_prop in H. destruct H as [H1 H2]. constructor; [| apply IH, H2].
  intros Hin. apply negb_true_iff in H1.
  assert (E : existsb (String.eqb x) l = true).
  { apply existsb_exists. exists x. split; [exact Hin | apply String.eqb_refl]. }
  congruence.
Qed.


(** C1, as stated, fails: with the log scale checked, the dock [psfSE_0]
    shows the logarithm of the frame, not the frame. *)
Lemma log_scale_not_the_frame : ~ shows_the_frames.
Proof.
  intros H.
  destruct (H (Mock.shown true) Mock.sup2 K_psfSE 0%nat (mkDock true []))
    as (f & Hf & Hi); try (vm_compute; reflexivity).
  - vm_compute. repeat (first [left; reflexivity | right]).
  - vm_compute in Hf, Hi. congruence.
Qed.

(** C1 at work: every hypothesis of the theorem holds of the window with
    the configuration loaded. *)
Lemma updateDisplay_shows_frames_witness :
  let w := Mock.shown true in
  let W := exec updateDisplay w in
  (supervisor w = Some Mock.sup2 /\
   Supervisor.sim Mock.sup2 = Supervisor.SimReady /\
   Supervisor.isInit Mock.sup2 = Ok true /\
   loopLock w = false /\
   NoDup (dict_keys (docks w)) /\
   outcome updateDisplay w = Ok tt) /\
  refreshed Mock.sup2 (docks w) w W /\
  (forall key dock,
     In (key, dock) (docks w) -> isVisible dock = false -> untouched key w W) /\
  untouched "Strehl" w W.
Proof.
  intros w W.
  assert (Hs : supervisor w = Some Mock.sup2) by (vm_compute; reflexivity).
  assert (Hl : loopLock w = false) by (vm_compute; reflexivity).
  assert (N : NoDup (dict_keys (docks w)))
    by (apply distinct_NoDup; vm_compute; reflexivity).
  assert (Hok : outcome updateDisplay w = Ok tt) by (vm_compute; reflexivity).
  assert (Hsim : Supervisor.sim Mock.sup2 = Supervisor.SimReady)
    by (vm_compute; reflexivity).
  assert (Hinit : Supervisor.isInit Mock.sup2 = Ok true)
    by (vm_compute; reflexivity).
  split; [conj; assumption |].
  apply (updateDisplay_shows_frames w Mock.sup2 Hs Hsim Hinit Hl N Hok).
Defined.

(** C2, as stated, fails: on a clock that jumps between the start of an
    iteration and its test, two iterations in a row refresh the displays
    0.3 s apart at a frame rate of 2 per second. *)
Lemma refreshed_twice_in_a_period : ~ throttled_at_frame_rate.
Proof.
  intros H. specialize (H (Mock.loaded Mock.jumpy)).
  assert (R1 : refreshes (Mock.loaded Mock.jumpy)).
  { intros [_ E]. vm_compute in E. discriminate E. }
  assert (R2 : refreshes (exec loopOnce (Mock.loaded Mock.jumpy))).
  { intros [_ E]. vm_compute in E. discriminate E. }
  specialize (H R1 R2). vm_compute in H. apply H. reflexivity.
Qed.

(** C2 at work: the first iteration on the loaded window refreshes and
    records its start time. *)
Lemma refresh_throttled_witness :
  let w := Mock.loaded Mock.jumpy in
  (loopLock w = false /\ supervisor w = Some Mock.sup2 /\
   config w = Some Mock.config2 /\ dispStatsInTerminal w = false /\
   fst (sim_step Mock.sup2) = Ok tt /\
   Supervisor.getFrameCounter (snd (sim_step Mock.sup2)) = Ok 1%Z /\
   refresh_due w = true) /\
  outcome loopOnce w = Ok tt /\
  refreshTime (exec loopOnce w) = start_time w /\
  loopLock (exec loopOnce w) = false.
Proof.
  intros w.
  assert (H1 : loopLock w = false) by (vm_compute; reflexivity).
  assert (H2 : supervisor w = Some Mock.sup2) by (vm_compute; reflexivity).
  assert (H3 : config w = Some Mock.config2) by (vm_compute; reflexivity).
  assert (H4 : dispStatsInTerminal w = false) by (vm_compute; reflexivity).
  assert (H5 : fst (sim_step Mock.sup2) = Ok tt) by (vm_compute; reflexivity).
  assert (H6 : forall t, In t (range (List.length (p_targets Mock.config2))) ->
                         strehl_ok (snd (sim_step Mock.sup2)) t).
  { intros t _. unfold strehl_ok. do 3 eexists. reflexivity. }
  assert (H7 : Supervisor.getFrameCounter (snd (sim_step Mock.sup2)) = Ok 1%Z)
    by (vm_compute; reflexivity).
  assert (H8 : Qeq_bool (clock w (1 + ticks w) - start_time w) 0 = false)
    by (vm_compute; reflexivity).
  assert (H9 : Qeq_bool (clock w (3 + ticks w) - refreshTime w) 0 = false)
    by (vm_compute; reflexivity).
  assert (H10 : refresh_due w = true) by (vm_compute; reflexivity).
  split; [conj; assumption |].
  destruct refresh_throttled as [_ T].
  destruct (T w Mock.sup2 Mock.config2 1%Z H1 H2 H3 H4 H5 H6 H7 H8 H9 H10)
    as (A & B & _ & C & _).
  conj; assumption.
Defined.



(** C5 at work. *)
Lemma run_button_wired_witness :
  let w := Mock.loaded (Mock.steady 0 1) in
  dispStatsInTerminal w = false /\
  aoLoopClicked true w = run (armed w) /\
  armed w =
  set_nbiter 1000
    (set_refreshTime 0 (set_ticks 1 (set_stop false w))).
Proof.
  intros w.
  assert (H : dispStatsInTerminal w = false) by (vm_compute; reflexivity).
  destruct run_button_wired as (_ & T & _).
  destruct (T w) as (A & _ & _ & _ & B).
  conj; try assumption. rewrite (B H). vm_compute. reflexivity.
Defined.


(** C7 at work, with "all targets" checked. *)
Lemma resetSR_button_wired_witness :
  let w := Mock.user 1000 false true false (Mock.loaded (Mock.steady 0 1)) in
  (wao_allTarget (uiAO w) = true /\ supervisor w = Some Mock.sup2 /\
   config w = Some Mock.config2 /\
   (forall t s', fst (Supervisor.resetStrehl t s') = Ok tt)) /\
  calls (exec resetSR w) =
  (calls w ++ [Call_resetStrehl 0; Call_resetStrehl 1])%list.
Proof.
  intros w.
  assert (H1 : wao_allTarget (uiAO w) = true) by reflexivity.
  assert (H2 : supervisor w = Some Mock.sup2) by (vm_compute; reflexivity).
  assert (H3 : config w = Some Mock.config2) by (vm_compute; reflexivity).
  assert (H4 : forall t s', fst (Supervisor.resetStrehl t s') = Ok tt)
    by (intros t s'; reflexivity).
  split; [conj; assumption |].
  destruct resetSR_button_wired as (_ & T & _).
  unfold exec. rewrite (T w Mock.sup2 Mock.config2 H1 H2 H3 H4).
  reflexivity.
Defined.

(** C8 at work: the history after a clear and two points. *)
Lemma strehl_history_bounded_witness :
  let w :=
    after [E_updateSRDisplay 1 1 1; E_signal wao_clearSR_clicked;
           E_updateSRDisplay 1 1 2; E_updateSRDisplay 1 1 3]
      (init_attributes "par" "layouts" false None
         (Mock.fresh (Mock.steady 0 1))) in
  helpers_preserve SR_inv /\
  deque_len (SRSE w) = deque_len (SRLE w) /\
  deque_len (numiter w) = deque_len (SRLE w) /\
  (deque_len (SRLE w) <= maxlen (SRLE w) <= 100)%nat.
Proof.
  intros w.
  assert (H : helpers_preserve SR_inv).
  { unfold helpers_preserve, preserves. conj; intros;
      match goal with Hx : SR_inv _ |- _ => exact Hx end. }
  split; [exact H |].
  destruct (strehl_history_bounded H) as (_ & T & _).
  destruct (T "par" "layouts" false None (Mock.fresh (Mock.steady 0 1))
              [E_updateSRDisplay 1 1 1; E_signal wao_clearSR_clicked;
               E_updateSRDisplay 1 1 2; E_updateSRDisplay 1 1 3])
    as (A & B & _ & _ & _ & C).
  conj; try assumption; apply C.
Defined.



(** C10 at work: [loopOnce] on a window whose lock is held. *)
Lemma guarded_loopOnce_updateDisplay_witness :
  let w := set_loopLock true (Mock.loaded (Mock.steady 0 1)) in
  (forall msg, keeps loopLock (printInPlace msg)) /\ loopLock w = true /\
  loopOnce w = (Ok tt, set_stdout (stdout w ++ ["Display locked"])%list w) /\
  calls (exec loopOnce w) = calls w.
Proof.
  intros w.
  assert (Hp : forall msg, keeps loopLock (printInPlace msg))
    by (intros msg x; reflexivity).
  assert (H : loopLock w = true) by reflexivity.
  conj; try assumption;
    destruct (guarded_loopOnce_updateDisplay Hp) as (T & _);
    apply (T w H).
Defined.
End Examples.
Section MoreKeys.
Context {D : Domain} {SV : Supervisor.Ops} {NP : Np.Ops} {HP : Helpers}.

Local Open Scope string_scope.
Local Open Scope list_scope.

Lemma numbered_names (q : string) (n : nat) (g g' : Group) (name t : string) :
  In (name, g', t) (numbered (q ++ "_") n g) ->
  exists i, (i < n)%nat /\ name = dock_name (q ++ "_") i.
Proof.
  unfold numbered, range. intros H. apply in_map_iff in H.
  destruct H as (i & E & Hi). apply in_seq in Hi.
  exists i. split; [lia | congruence].
Qed.

Lemma sensors_names (ps : list WfsParam) :
  forall a name g t,
    In (name, g, t) (sensors_docks a ps) ->
    exists q i, name = dock_name (q ++ "_") i.
Proof.
  induction ps as [| p ps IH]; intros a name g t H; [contradiction|].
  cbn [sensors_docks] in H. apply in_app_or in H. destruct H as [H | H];
    [| apply (IH _ _ _ _ H)].
  unfold sensor_docks in H. apply in_app_or in H. destruct H as [H | H].
  - destruct H as [H | [H | [H | []]]]; injection H as <- _ _;
      [exists "wfs" | exists "slpComp" | exists "slpGeom"]; exists a; reflexivity.
  - destruct (is_SH (wfs_type p)); [| destruct (is_pyr (wfs_type p))].
    + destruct H as [H | []]. injection H as <- _ _.
      exists "SH", a. reflexivity.
    + destruct H as [H | [H | [H | []]]]; injection H as <- _ _;
        [exists "pyrFocalPlane" | exists "pyrHR" | exists "pyrLR"]; exists a;
        reflexivity.
    + contradiction.
Qed.

(** X1.  The names [loadConfig] gives the docks and the index
    [updateDisplay] reads back from a key agree: every dock of a
    configuration but the Strehl dock is named [q_i] for some [q] and
    [i], and [int(key.split("_")[-1])] is [i]. *)
Theorem dock_keys_give_their_index (cfg : Config) (name : string)
    (g : Group) (t : string) :
  In (name, g, t) (expected_docks cfg) ->
  name = "Strehl"%string \/
  exists q i,
    name = dock_name (q ++ "_") i /\
    PyStr.index_of_key name = Ok (Z.of_nat i).
Proof.
  intros H.
  assert (G : name = "Strehl"%string \/
              exists q i, name = dock_name (q ++ "_") i).
  { unfold expected_docks in H.
    repeat (apply in_app_or in H; destruct H as [H | H]).
    - right. destruct (numbered_names "atm" _ _ _ _ _ H) as (i & _ & E).
      exists "atm"%string, i. exact E.
    - right. apply (sensors_names _ _ _ _ _ H).
    - right. destruct (numbered_names "dm" _ _ _ _ _ H) as (i & _ & E).
      exists "dm"%string, i. exact E.
    - right. destruct (numbered_names "tar" _ _ _ _ _ H) as (i & _ & E).
      exists "tar"%string, i. exact E.
    - right. destruct (numbered_names "psfSE" _ _ _ _ _ H) as (i & _ & E).
      exists "psfSE"%string, i. exact E.
    - right. destruct (numbered_names "psfLE" _ _ _ _ _ H) as (i & _ & E).
      exists "psfLE"%string, i. exact E.
    - left. destruct H as [H | []]. congruence. }
  destruct G as [G | (q & i & G)]; [left; exact G | right].
  exists q, i. split; [exact G |]. rewrite G. apply index_of_key_dock_name.
Qed.

Lemma last_field_from_Forall (P : ascii -> Prop) (sep : ascii)
    (s : PyStr.chars) :
  forall acc, Forall P acc -> Forall P s ->
              Forall P (PyStr.last_field_from sep acc s).
Proof.
  induction s as [| c s IH]; intros acc Ha Hs; simpl; [exact Ha|].
  inversion Hs; subst. destruct (Ascii.eqb c sep); apply IH; assumption.
Qed.

Lemma lstrip_Forall (P : ascii -> Prop) (s : PyStr.chars) :
  Forall P s -> Forall P (PyStr.lstrip s).
Proof.
  induction 1 as [| c s Hc Hs IH]; simpl; [constructor|].
  destruct (PyStr.is_space c); [exact IH | constructor; assumption].
Qed.

Lemma strip_Forall (P : ascii -> Prop) (s : PyStr.chars) :
  Forall P s -> Forall P (PyStr.strip s).
Proof.
  intros H. unfold PyStr.strip.
  apply Forall_rev, lstrip_Forall, Forall_rev, lstrip_Forall, H.
Qed.

Lemma unsigned_of_undigited (d : PyStr.chars) :
  Forall (fun c => PyStr.is_digit c = false) d ->
  PyStr.unsigned_of d = Raise ValueError.
Proof.
  intros H. destruct H as [| c d Hc Hd]; [reflexivity|].
  unfold PyStr.unsigned_of. cbn [PyStr.digits_value]. rewrite Hc. reflexivity.
Qed.

Lemma int_of_undigited (s : PyStr.chars) :
  Forall (fun c => PyStr.is_digit c = false) s ->
  PyStr.int_of s = Raise ValueError.
Proof.
  intros H. apply strip_Forall in H. unfold PyStr.int_of.
  destruct (PyStr.strip s) as [| c d]; [reflexivity|].
  pose proof (unsigned_of_undigited _ H) as U.
  inversion H as [| x l Hc Hd]; subst.
  pose proof (unsigned_of_undigited _ Hd) as V.
  destruct c as [[] [] [] [] [] [] [] []]; cbv beta iota;
    rewrite ?V; try reflexivity; exact U.
Qed.

(** X2.  A key without a decimal digit has no index: [int] raises
    [ValueError] before any call is made, which is why the loop of
    [updateDisplay] has to step over the Strehl dock. *)
Theorem undigited_key_raises (key : string) (xyv : option quiver)
    (w : World) :
  undigited (list_ascii_of_string key) = true ->
  PyStr.index_of_key key = Raise ValueError /\
  display_dock key xyv w = (Raise ValueError, w).
Proof.
  intros H.
  assert (E : PyStr.index_of_key key = Raise ValueError).
  { unfold PyStr.index_of_key, PyStr.last_field. apply int_of_undigited.
    assert (F : Forall (fun c => PyStr.is_digit c = false)
                  (list_ascii_of_string key)).
    { unfold undigited in H. rewrite forallb_forall in H.
      apply Forall_forall. intros c Hc. apply negb_true_iff, H, Hc. }
    apply last_field_from_Forall; exact F. }
  split; [exact E |]. unfold display_dock. apply bind_raise.
  unfold lift. rewrite E. reflexivity.
Qed.
End MoreKeys.

Section MoreShown.
Context {D : Domain} {SV : Supervisor.Ops} {NP : Np.Ops} {HP : Helpers}.

Local Open Scope list_scope.

(** X3.  A dock that shows an image pulls one buffer and nothing else:
    the tests on the key do not overlap on the names [loadConfig] gives,
    so the only calls made are the getter of the dock and, for a PSF, the
    frame counter; the slopes prepared for an earlier dock stay as they
    are. *)
Theorem image_dock_pulls_one_buffer (k : ImageKind) (i : nat)
    (xyv r : option quiver) (w W : World) (s : Sup) :
  supervisor w = Some s ->
  display_dock (image_key k i) xyv w = (Ok r, W) ->
  calls W =
  calls w ++ getter_call k (Z.of_nat i) ::
             (if is_psf k then [Call_getFrameCounter] else []) /\
  r = xyv /\ supervisor W = Some s.
Proof.
  intros Hs H. unfold display_dock, fetch, image_key in *.
  rewrite index_of_key_dock_name in H.
  destruct k; cbn [kind_name] in *; decide_contains H.
  all: fwd H Hs; wsimpl; cbn [is_psf getter_call];
    rewrite <- ?app_assoc; repeat split; try reflexivity; exact Hs.
Qed.

(** X4.  The zoom of the PSF docks: while the frame counter is below
    10, the view box of a PSF dock is set to [PSFzoom] (50) on each side
    of the centre of the data shown, that is of the logarithm when the
    log scale is on; from 10 on the view box is left as it is. *)
Theorem psf_dock_zoom (k : ImageKind) (i : nat) (xyv r : option quiver)
    (w W : World) (s : Sup) :
  is_psf k = true ->
  supervisor w = Some s ->
  display_dock (image_key k i) xyv w = (Ok r, W) ->
  exists fc g,
    Supervisor.getFrameCounter s = Ok fc /\
    image_of (image_key k i) W = Some (Some g) /\
    if (fc <? 10)%Z then
      option_map vb_range (dict_get (image_key k i) (viewboxes W)) =
      Some (Some (zoomed (Np.shape0 g) (Np.shape1 g)))
    else viewboxes W = viewboxes w.
Proof.
  intros Hk Hs H. unfold display_dock, fetch, image_key in *.
  rewrite index_of_key_dock_name in H.
  destruct k; try discriminate Hk; cbn [kind_name] in *; decide_contains H.
  all: fwd H Hs; unfold image_of; wsimpl; cbn [append];
    do 2 eexists; (split; [eassumption |]);
    (split; [rewrite dict_get_set_same; reflexivity |]);
    match goal with
    | B : (_ <? 10)%Z = _ |- _ => rewrite B
    end;
    first [ reflexivity
          | rewrite dict_get_set_same; reflexivity ].
Qed.

(** X5.  What a [slpGeom_i] dock gets: the canvas is cleared and drawn
    again with nothing plotted in between.  The geometric slopes are read
    and handed to [plsh], and the mesh and vectors it returns are left in
    the local variables, but the [quiver] call is under the test for
    "Comp" and never runs for this dock. *)
Theorem slpGeom_dock_draws_no_slopes (i : nat) (xyv r : option quiver)
    (w W : World) (s : Sup) :
  supervisor w = Some s ->
  display_dock (dock_name "slpGeom_" i) xyv w = (Ok r, W) ->
  drawn_since (dock_name "slpGeom_" i) w W [AxesClear; CanvasDraw] /\
  exists sl cfg p q,
    Supervisor.getSlopeGeom s (Z.of_nat i) = Ok sl /\
    config w = Some cfg /\
    py_index (p_wfss cfg) (Z.of_nat i) = Ok p /\
    plsh sl (nxsub p) (p_tel_cobs cfg) = Ok q /\
    r = Some q.
Proof.
  intros Hs H.
  split; [apply (display_dock_slpGeom i xyv w r W s Hs H) |].
  unfold display_dock, fetch, slope_block in *.
  change (dock_name "slpGeom_" i) with (dock_name ("slpGeom" ++ "_") i) in H.
  rewrite index_of_key_dock_name in H. decide_contains H.
  fwd H Hs.
  repeat match goal with
         | E : _ = _ |- _ => progress wsimpl_in E
         end.
  do 4 eexists. repeat split; eassumption.
Qed.

Lemma py_index_map {A B} (f : A -> B) (l : list A) (i : Z) :
  py_index (map f l) i =
  match py_index l i with
  | Ok a => Ok (f a)
  | Raise e => Raise e
  end.
Proof.
  unfold py_index. rewrite length_map.
  destruct ((0 <=? _) && _)%Z; [| reflexivity].
  rewrite nth_error_map. destruct (nth_error l _); reflexivity.
Qed.

(** X6.  What a [slpComp_i] dock gets when sensor [i] is not a pyramid:
    the canvas is cleared, the quiver of the slice of the centroids that
    belongs to sensor [i], from [first_ind] on and [2 * nvalid] long, is
    plotted, and the canvas is drawn. *)
Theorem slpComp_dock_draws_its_slice (i : nat) (xyv r : option quiver)
    (w W : World) (s : Sup) (cfg : Config) (p : WfsParam) :
  supervisor w = Some s ->
  config w = Some cfg ->
  py_index (p_wfss cfg) (Z.of_nat i) = Ok p ->
  is_pyr (wfs_type p) = false ->
  display_dock (dock_name "slpComp_" i) xyv w = (Ok r, W) ->
  exists c q,
    Supervisor.getSlope s = Ok c /\
    plsh (Np.slice c (first_ind cfg (Z.of_nat i))
                   (first_ind cfg (Z.of_nat i) + 2 * nvalid p))
         (nxsub p) (p_tel_cobs cfg) = Ok q /\
    drawn_since (dock_name "slpComp_" i) w W
      [AxesClear; AxesQuiver q; CanvasDraw] /\
    r = Some q.
Proof.
  intros Hs Hc Hp Hpyr H.
  unfold display_dock, fetch, slope_block, slope_comp in *.
  change (dock_name "slpComp_" i) with (dock_name ("slpComp" ++ "_") i) in H.
  rewrite index_of_key_dock_name in H. decide_contains H.
  fwd H Hs;
    repeat match goal with
           | E : _ = _ |- _ => progress wsimpl_in E
           end;
    repeat match goal with
           | E : config _ = Some ?c |- _ =>
               assert_fails (constr_eq c cfg);
               assert (c = cfg) by congruence; subst c; clear E
           end;
    repeat match goal with
           | E : py_index (p_wfss cfg) (Z.of_nat i) = Ok ?x |- _ =>
               assert_fails (constr_eq x p);
               assert (x = p) by congruence; subst x; clear E
           end.
  - congruence.
  - match goal with
    | E : py_index (map _ _) _ = Ok ?n |- _ =>
        rewrite py_index_map in E;
        match type of E with
        | context [py_index (p_wfss cfg) (Z.of_nat i)] =>
            replace (py_index (p_wfss cfg) (Z.of_nat i)) with (Ok p) in E
        end;
        injection E as <-
    end.
    do 2 eexists. split; [eassumption |]. split; [eassumption |].
    split; [| reflexivity].
    cbn [append] in *.
    repeat match goal with
           | E : dict_get _ (dict_set _ _ _) = Some _ |- _ =>
               rewrite dict_get_set_same in E; injection E as <-
           end.
    eexists. split; [eassumption |]. wsimpl.
    rewrite dict_get_set_same. unfold canvas_do. cbn [image canvas].
    rewrite <- !app_assoc. reflexivity.
Qed.

(** Runs the computation in the goal forward on the equations at hand. *)
Ltac run_on_facts :=
  repeat first
    [ progress unfold bind, ret, lift, gets, modify, raise, need, sup_get,
        the_supervisor, the_config, log_call, update_img, update_viewbox,
        dict_item, outcome, exec
    | progress (cbv beta match)
    | progress wsimpl
    | rewrite dict_get_set_same
    | match goal with
      | H : ?x = _ |- context [?x] => rewrite H
      end ].

(** X7.  What a [slpComp_i] dock gets when sensor [i] is a pyramid: the
    slice of the centroids goes to [plpyr], which is given a field of the
    module global [wao], so the refresh raises [NameError] unless the
    file runs as a script; and what [quiver] then plots is not the
    slopes of this sensor but the mesh and vectors left by an earlier
    dock, or nothing ([NameError]) when no dock came before. *)
Theorem slpComp_dock_of_a_pyramid (i : nat) (xyv : option quiver)
    (w : World) (s : Sup) (cfg : Config) (p : WfsParam) (c : slopes)
    (img : Img) :
  supervisor w = Some s ->
  config w = Some cfg ->
  py_index (p_wfss cfg) (Z.of_nat i) = Ok p ->
  is_pyr (wfs_type p) = true ->
  Supervisor.getSlope s = Ok c ->
  dict_get (dock_name "slpComp_" i) (imgs w) = Some img ->
  let key := dock_name "slpComp_" i in
  (wao_bound w = false ->
   outcome (display_dock key xyv) w = Raise (NameError "wao")) /\
  (wao_bound w = true ->
   plpyr (Np.slice c (first_ind cfg (Z.of_nat i))
                     (first_ind cfg (Z.of_nat i) + 2 * nvalid p)) p = Ok tt ->
   match xyv with
   | None => outcome (display_dock key xyv) w = Raise (NameError "x")
   | Some q =>
       outcome (display_dock key xyv) w = Ok (Some q) /\
       drawn_since key w (exec (display_dock key xyv) w)
         [AxesClear; AxesQuiver q; CanvasDraw]
   end).
Proof.
  intros Hs Hc Hp Hpyr Hsl Hi key.
  assert (Hn : py_index (map (fun p => (2 * nvalid p)%Z) (p_wfss cfg))
                 (Z.of_nat i) = Ok (2 * nvalid p)%Z)
    by (rewrite py_index_map, Hp; reflexivity).
  assert (E : forall W, display_dock key xyv W =
                        bind (update_img key (canvas_do AxesClear)) (fun _ =>
                        bind (slope_comp key (Z.of_nat i) xyv) (fun xyv' =>
                        bind (update_img key (canvas_do CanvasDraw)) (fun _ =>
                        ret xyv'))) W).
  { intros W. unfold display_dock, fetch, slope_block, key.
    change (dock_name "slpComp_" i) with (dock_name ("slpComp" ++ "_") i).
    rewrite index_of_key_dock_name.
    rewrite ?contains_dock_name by reflexivity.
    repeat match goal with
           | |- context [PyStr.contains ?a ?b] =>
               let v := eval vm_compute in (PyStr.contains a b) in
               change (PyStr.contains a b) with v
           end.
    reflexivity. }
  unfold outcome, exec. rewrite !E. unfold slope_comp, first_ind in *.
  clear E. subst key. split.
  - intros Hb. run_on_facts. reflexivity.
  - intros Hb Hpl. destruct xyv as [q |].
    + run_on_facts. split; [reflexivity |].
      exists img. split; [exact Hi |]. wsimpl. run_on_facts.
      unfold canvas_do. cbn [image canvas]. rewrite <- !app_assoc.
      reflexivity.
    + run_on_facts. reflexivity.
Qed.

Lemma updateDisplay_beside (v : _) :
  preserves (fun w => beside_display w = v) updateDisplay.
Proof.
  unfold updateDisplay, not_ready, display_round.
  repeat first
    [ pres_step
    | progress unfold display_dock, fetch, psf_block, slope_block,
        slope_comp, sup_get, log_call, update_img, update_viewbox ];
    try (pres_prim; fail).
Qed.

Lemma display_keeps_lock (b : bool) (ds : dict Dock) (xyv : option quiver) :
  preserves (fun w => loopLock w = b) (for_fold ds xyv display_round).
Proof.
  unfold display_round.
  repeat first
    [ pres_step
    | progress unfold display_dock, fetch, psf_block, slope_block,
        slope_comp, sup_get, log_call, update_img, update_viewbox ];
    try (pres_prim; fail).
Qed.

Lemma not_ready_keeps_lock (b : bool) :
  preserves (fun w => loopLock w = b) not_ready.
Proof.
  unfold not_ready.
  repeat first [ pres_step | progress unfold sup_get, log_call ];
    try (pres_prim; fail).
Qed.

(** X8.  [updateDisplay] only reads: whatever happens, a getter that
    raises included, it leaves the supervisor, the configuration, the
    Strehl history, the loop control, the widgets and the docks as they
    were, and a lock that was free is free again when it is done. *)
Theorem updateDisplay_only_reads (w : World) :
  loopLock w = false ->
  beside_display (exec updateDisplay w) = beside_display w /\
  loopLock (exec updateDisplay w) = false.
Proof.
  intros Hl. split; [apply (updateDisplay_beside _ w eq_refl) |].
  unfold updateDisplay, exec, bind.
  pose proof (not_ready_keeps_lock false w Hl) as H1. unfold exec in H1.
  destruct (not_ready w) as [[[] | e] w1]; cbn [fst snd] in *;
    try exact H1.
  unfold loopLock_acquire. rewrite H1. cbn [negb]. cbv beta match.
  unfold try_finally.
  pose proof (display_keeps_lock true (docks (set_loopLock true w1)) None
                (set_loopLock true w1) eq_refl) as H2.
  unfold exec, gets in *.
  destruct (for_fold _ None display_round (set_loopLock true w1))
    as [[r | e] w2]; cbn [fst snd] in *;
    unfold modify, loopLock_release; wsimpl; rewrite H2; reflexivity.
Qed.
End MoreShown.

Section MoreLoop.
Context {D : Domain} {SV : Supervisor.Ops} {NP : Np.Ops} {HP : Helpers}.

Local Open Scope list_scope.

(** X9.  A frame rate of 0 in the GUI: the simulation still takes its
    step, then [1. / 0] raises [ZeroDivisionError], which the bare
    [except] turns into a line "error!!"; the displays and [refreshTime]
    stay as they were and the lock is released, on every iteration. *)
Theorem loopOnce_at_frame_rate_zero (w : World) (s : Sup) :
  loopLock w = false ->
  supervisor w = Some s ->
  fst (sim_step s) = Ok tt ->
  Qeq_bool (wao_frameRate (uiBase w)) 0 = true ->
  let W := exec loopOnce w in
  outcome loopOnce w = Ok tt /\
  stdout W = stdout w ++ ["error!!"%string] /\
  supervisor W = Some (snd (sim_step s)) /\
  calls W = calls w ++ step_calls s /\
  same_displays w W /\
  loopLock W = false.
Proof.
  intros Hl Hs Hok Hz W. subst W. unfold outcome, exec.
  rewrite (loopOnce_free w Hl). unfold try_finally, try_except.
  rewrite loopOnce_body_split.
  erewrite bind_ok by (apply simulate_ok; [exact Hs | exact Hok]).
  unfold throttled_refresh.
  erewrite bind_ok by (unfold time_time; reflexivity).
  erewrite bind_ok by (unfold gets; reflexivity).
  wsimpl. unfold float_div. rewrite Hz.
  erewrite bind_raise by (unfold lift; reflexivity).
  unfold print, modify, loopLock_release. wsimpl.
  unfold same_displays, strehl_displays. wsimpl. repeat split.
Qed.
End MoreLoop.

Section MoreButtons.
Context {D : Domain} {SV : Supervisor.Ops} {NP : Np.Ops} {HP : Helpers}.

Local Open Scope list_scope.

Lemma sup_do_keeps_uiAO (c : SupCall) (f : Sup -> result unit * Sup) :
  keeps uiAO (sup_do c f).
Proof.
  intros w. unfold exec, sup_do, the_supervisor, log_call, bind, modify, lift.
  destruct (supervisor w); reflexivity.
Qed.

(** X10.  The label of the open-loop button follows the supervisor: it
    is set after [closeLoop()] or [openLoop()] has returned, so when the
    call raises, or there is no supervisor yet, no widget is changed. *)
Theorem aoLoopOpen_failure_keeps_label (pressed : bool) (w : World)
    (e : exn) :
  outcome (aoLoopOpen pressed) w = Raise e ->
  uiAO (exec (aoLoopOpen pressed) w) = uiAO w.
Proof.
  unfold outcome, exec, aoLoopOpen. intros H.
  destruct pressed; unfold bind in *;
    match goal with
    | |- context [sup_do ?c ?f w] =>
        pose proof (sup_do_keeps_uiAO c f w) as K; unfold exec in K;
        destruct (sup_do c f w) as [[[] | e'] w1]
    end; cbn [fst snd] in *; try exact K; discriminate H.
Qed.

Lemma seq_split (a : list nat) (k : nat) (b : list nat) :
  forall st n,
    seq st n = a ++ k :: b ->
    a = seq st (List.length a) /\ k = (st + List.length a)%nat /\
    (List.length a < n)%nat.
Proof.
  induction a as [| x a IH]; intros st n E; destruct n as [| n];
    try discriminate E; cbn [seq Datatypes.app List.length] in *.
  - injection E as <- _. repeat split; lia.
  - injection E as <- E. destruct (IH _ _ E) as (A & B & C).
    rewrite <- A. repeat split; lia.
Qed.

Lemma for_each_cons {A} (a : A) (l : list A) (body : A -> M unit)
    (w : World) :
  for_each (a :: l) body w = bind (body a) (fun _ => for_each l body) w.
Proof. reflexivity. Qed.

Lemma for_each_resetStrehl_fails (e : exn) (pre : list nat) :
  forall (t : nat) (post : list nat) w s,
    supervisor w = Some s ->
    (forall a k b, pre = a ++ k :: b ->
       fst (Supervisor.resetStrehl (Z.of_nat k) (reset_all a s)) = Ok tt) ->
    fst (Supervisor.resetStrehl (Z.of_nat t) (reset_all pre s)) = Raise e ->
    for_each (pre ++ t :: post)
      (fun t =>
         sup_do (Call_resetStrehl (Z.of_nat t))
                (Supervisor.resetStrehl (Z.of_nat t))) w =
    (Raise e,
     set_supervisor (Some (reset_all (pre ++ [t]) s))
       (set_calls
          (calls w ++ map (fun t => Call_resetStrehl (Z.of_nat t))
                          (pre ++ [t])) w)).
Proof.
  induction pre as [| k pre IH]; intros t post w s Hs Hpre Ht.
  - change ([] ++ t :: post) with (t :: post). rewrite for_each_cons.
    apply bind_raise.
    rewrite (sup_do_run _ _ w s Hs). change (reset_all [] s) with s in Ht.
    rewrite Ht. reflexivity.
  - change ((k :: pre) ++ t :: post) with (k :: (pre ++ t :: post)).
    rewrite for_each_cons.
    erewrite bind_ok; cycle 1.
    { rewrite (sup_do_run _ _ w s Hs).
      pose proof (Hpre [] k pre eq_refl) as H0.
      change (reset_all [] s) with s in H0. rewrite H0. reflexivity. }
    erewrite IH; [| wsimpl; reflexivity | | exact Ht].
    + wsimpl. cbn [map app]. rewrite <- app_assoc. reflexivity.
    + intros a k' b E. apply (Hpre (k :: a) k' b). rewrite E. reflexivity.
Qed.

(** X11.  [resetSR] on all targets stops at the first target whose
    [resetStrehl] raises: the targets before it have been reset, the
    ones after it are not reached, and the exception goes to the
    caller. *)
Theorem resetSR_stops_at_first_failure (w : World) (s : Sup) (cfg : Config)
    (t : nat) (e : exn) :
  wao_allTarget (uiAO w) = true ->
  supervisor w = Some s -> config w = Some cfg ->
  (t < List.length (p_targets cfg))%nat ->
  (forall k, (k < t)%nat ->
     fst (Supervisor.resetStrehl (Z.of_nat k) (reset_all (range k) s))
     = Ok tt) ->
  fst (Supervisor.resetStrehl (Z.of_nat t) (reset_all (range t) s))
  = Raise e ->
  outcome resetSR w = Raise e /\
  calls (exec resetSR w) =
    calls w ++ map (fun k => Call_resetStrehl (Z.of_nat k)) (range (S t)) /\
  supervisor (exec resetSR w) = Some (reset_all (range (S t)) s).
Proof.
  intros Ha Hs Hc Ht Hbefore Hat. unfold outcome, exec, resetSR.
  erewrite bind_ok by (unfold gets; reflexivity). rewrite Ha.
  erewrite bind_ok by (unfold the_config; rewrite Hc; reflexivity).
  assert (E : range (List.length (p_targets cfg)) =
              range t ++ t :: seq (S t) (List.length (p_targets cfg) - S t)).
  { unfold range.
    replace (List.length (p_targets cfg))
      with (t + S (List.length (p_targets cfg) - S t))%nat at 1 by lia.
    rewrite seq_app. reflexivity. }
  rewrite E.
  rewrite (for_each_resetStrehl_fails e (range t) t _ w s Hs); cycle 1.
  - intros a k b Ea.
    unfold range in Ea. destruct (seq_split a k b 0 t Ea) as (A & B & C).
    cbn [Nat.add] in B. subst k.
    replace (reset_all a s) with (reset_all (range (List.length a)) s)
      by (unfold range; rewrite <- A; reflexivity).
    apply Hbefore, C.
  - exact Hat.
  - cbn [fst snd]. wsimpl.
    assert (R : range (S t) = range t ++ [t]).
    { unfold range. rewrite seq_S. reflexivity. }
    rewrite R. repeat split.
Qed.
End MoreButtons.

Section MorePlot.
Context {D : Domain} {SV : Supervisor.Ops} {NP : Np.Ops} {HP : Helpers}.

Local Open Scope list_scope.

Lemma updateSRDisplay_plot_inv (le se : Q) (n : Z) :
  preserves plot_inv (updateSRDisplay le se n).
Proof.
  intros w (H & _). pose proof (updateSRDisplay_inv le se n w H) as H'.
  split; [exact H' |]. destruct H' as (H1 & H2 & H3 & H4 & H5 & H6).
  unfold deque_len in *.
  assert (E1 : curveSRSE (exec (updateSRDisplay le se n) w) =
               (items (numiter (exec (updateSRDisplay le se n) w)),
                items (SRSE (exec (updateSRDisplay le se n) w))))
    by reflexivity.
  assert (E2 : curveSRLE (exec (updateSRDisplay le se n) w) =
               (items (numiter (exec (updateSRDisplay le se n) w)),
                items (SRLE (exec (updateSRDisplay le se n) w))))
    by reflexivity.
  rewrite E1, E2. cbn [fst snd]. destruct H5 as [H5 | H5]; repeat split; lia.
Qed.

Lemma clearSR_plot_inv : preserves plot_inv clearSR.
Proof.
  intros w (H & H'). split; [apply clearSR_inv, H | exact H'].
Qed.

Lemma handle_plot_inv (e : Event) :
  helpers_preserve plot_inv -> preserves plot_inv (handle e).
Proof.
  intros (H1 & H2 & H3 & H4 & H5 & H6 & H7).
  destruct e as [[] | | | | |];
    repeat first
      [ pres_step
      | apply updateSRDisplay_plot_inv
      | apply clearSR_plot_inv
      | assumption
      | match goal with
        | |- preserves _ (WidgetBase_add_dispDock _ _ _) => apply H3
        | |- preserves _ (loadArea _) => apply H4
        | |- preserves _ (printInPlace _) => apply H5
        end
      | progress pres_all_unfold ];
    try (pres_prim; fail).
Qed.

(** X12.  The curves of the Strehl plot are well formed whatever happens
    to the window after [__init__]: [setData] is always given as many
    iteration numbers as Strehl values, at most 100 of them.  The code of
    the other files is assumed to maintain the same. *)
Theorem strehl_curves_well_formed :
  helpers_preserve plot_inv ->
  forall par area ex dev w0 es,
    let w := after es (init_attributes par area ex dev w0) in
    List.length (fst (curveSRSE w)) = List.length (snd (curveSRSE w)) /\
    List.length (fst (curveSRLE w)) = List.length (snd (curveSRLE w)) /\
    (List.length (fst (curveSRSE w)) <= 100)%nat /\
    (List.length (fst (curveSRLE w)) <= 100)%nat.
Proof.
  intros Hh par area ex dev w0 es.
  assert (G : forall l w, plot_inv w -> plot_inv (after l w)).
  { induction l as [| e l IH]; intros w Hw; [exact Hw |].
    cbn [after]. apply IH, handle_plot_inv; assumption. }
  destruct (G es (init_attributes par area ex dev w0)) as (_ & H).
  - split; [apply init_inv |]. cbn. repeat split; lia.
  - exact H.
Qed.

(** X13.  [clearSR] empties the history but does not redraw: the plot
    keeps the old curves until the next [updateSRDisplay], which then
    shows its point alone. *)
Theorem clearSR_restarts_the_plot (w : World) (le se : Q) (n : Z) :
  curveSRSE (exec clearSR w) = curveSRSE w /\
  curveSRLE (exec clearSR w) = curveSRLE w /\
  curveSRSE (exec (updateSRDisplay le se n) (exec clearSR w)) = ([n], [se]) /\
  curveSRLE (exec (updateSRDisplay le se n) (exec clearSR w)) = ([n], [le]).
Proof. repeat split. Qed.
End MorePlot.

Section MoreLoad.
Context {D : Domain} {SV : Supervisor.Ops} {NP : Np.Ops} {HP : Helpers}.

Local Open Scope list_scope.

Lemma remove_string_head (p : string) (l : list string) :
  remove_string p (p :: l) = Some l.
Proof. cbn [remove_string]. rewrite String.eqb_refl. reflexivity. Qed.

Lemma set_up_supervisor_fails (f : string) (arg : option Sup) w e :
  supplied f arg = Raise e ->
  exists W,
    match arg with
    | None =>
        bind (log_call Call_CompassSupervisor) (fun _ =>
        bind (lift Supervisor.new) (fun s =>
        bind (modify (set_supervisor (Some s))) (fun _ =>
        sup_do (Call_loadConfig f) (Supervisor.loadConfig f))))
    | Some s => modify (set_supervisor (Some s))
    end w = (Raise e, W) /\
    sys_path W = sys_path w.
Proof.
  unfold supplied. destruct arg as [s0 |]; intros H; [discriminate H |].
  erewrite bind_ok by (unfold log_call, modify; reflexivity).
  destruct Supervisor.new as [s0 | e0] eqn:En.
  - erewrite bind_ok by (unfold lift; reflexivity).
    erewrite bind_ok by (unfold modify; reflexivity).
    erewrite sup_do_run by reflexivity.
    destruct (Supervisor.loadConfig f s0) as [[[] | e1] s1] eqn:El;
      [discriminate H |].
    injection H as <-. eexists. split; reflexivity.
  - injection H as <-. eexists. split; reflexivity.
Qed.

(** X14.  What [loadConfig] does to [sys.path].  Called without a file,
    it puts the default directory in front and takes it off again once
    the supervisor has its configuration, so the path is as before; but
    when the supervisor cannot be set up the directory stays on the
    path.  Called with a file, it inserts nothing and still removes the
    first entry equal to the default directory, if there is one. *)
Theorem loadConfig_and_sys_path (arg : option Sup) (w : World) :
  (forall s cfg dl,
     supplied (wao_selectConfig (uiBase w)) arg = Ok s ->
     Supervisor.getConfig s = Ok cfg ->
     device_list (devices w) = Ok dl ->
     outcome (load_supervisor None arg) w = Ok tt /\
     sys_path (exec (load_supervisor None arg) w) = sys_path w) /\
  (forall e,
     supplied (wao_selectConfig (uiBase w)) arg = Raise e ->
     outcome (load_supervisor None arg) w = Raise e /\
     sys_path (exec (load_supervisor None arg) w) =
     defaultParPath w :: sys_path w) /\
  (forall f s cfg dl,
     supplied f arg = Ok s ->
     Supervisor.getConfig s = Ok cfg ->
     device_list (devices w) = Ok dl ->
     outcome (load_supervisor (Some f) arg) w = Ok tt /\
     sys_path (exec (load_supervisor (Some f) arg) w) =
     without (defaultParPath w) (sys_path w)).
Proof.
  split; [| split].
  - intros s cfg dl Hsup Hcfg Hdev. unfold outcome, exec, load_supervisor.
    erewrite bind_ok by (unfold bind, gets, modify, ret; reflexivity).
    set (w1 := set_sys_path (defaultParPath w :: sys_path w) w).
    destruct (set_up_supervisor_run _ arg w1 s Hsup) as (cl & E2).
    erewrite bind_ok by exact E2.
    erewrite bind_ok
      by (erewrite sup_get_run by reflexivity; rewrite Hcfg; reflexivity).
    erewrite bind_ok by (unfold modify; reflexivity).
    erewrite bind_ok by (unfold gets; reflexivity).
    wsimpl.
    erewrite bind_ok by (apply (set_devices_run _ _ cfg dl Hdev); reflexivity).
    erewrite bind_ok by (unfold gets; reflexivity).
    unfold try_except, sys_path_remove. subst w1. wsimpl.
    rewrite remove_string_head. split; reflexivity.
  - intros e Hsup. unfold outcome, exec, load_supervisor.
    erewrite bind_ok by (unfold bind, gets, modify, ret; reflexivity).
    destruct (set_up_supervisor_fails _ arg
                (set_sys_path (defaultParPath w :: sys_path w) w) e Hsup)
      as (W & E & Hp).
    erewrite bind_raise by exact E. split; [reflexivity | exact Hp].
  - intros f s cfg dl Hsup Hcfg Hdev. unfold outcome, exec, load_supervisor.
    erewrite bind_ok by (unfold ret; reflexivity).
    destruct (set_up_supervisor_run _ arg w s Hsup) as (cl & E2).
    erewrite bind_ok by exact E2.
    erewrite bind_ok
      by (erewrite sup_get_run by reflexivity; rewrite Hcfg; reflexivity).
    erewrite bind_ok by (unfold modify; reflexivity).
    erewrite bind_ok by (unfold gets; reflexivity).
    wsimpl.
    erewrite bind_ok by (apply (set_devices_run _ _ cfg dl Hdev); reflexivity).
    erewrite bind_ok by (unfold gets; reflexivity).
    unfold try_except, sys_path_remove, without. wsimpl.
    destruct (remove_string _ _); split; reflexivity.
Qed.

Lemma split_on_digits (sep : ascii) (ds : PyStr.chars) :
  Forall (fun c => Ascii.eqb c sep = false) ds ->
  forall cur s,
    PyStr.split_on sep cur (ds ++ s) = PyStr.split_on sep (List.rev ds ++ cur) s.
Proof.
  induction 1 as [| c ds Hc Hds IH]; intros cur s; [reflexivity |].
  change ((c :: ds) ++ s) with (c :: (ds ++ s)).
  cbn [PyStr.split_on]. rewrite Hc, IH. cbn [List.rev].
  rewrite <- app_assoc. reflexivity.
Qed.

Lemma digit_not_comma (c : ascii) :
  PyStr.is_digit c = true -> Ascii.eqb c "," = false.
Proof.
  intros H. destruct (Ascii.eqb_spec c ","); [subst; discriminate | reflexivity].
Qed.

Lemma digits_no_comma (n : nat) :
  Forall (fun c => Ascii.eqb c "," = false) (digits (Nat.to_uint n)).
Proof.
  eapply Forall_impl; [| apply digits_are_digits]. apply digit_not_comma.
Qed.

Lemma chars_comma_list (n : nat) (l : list nat) :
  list_ascii_of_string (comma_list (n :: l)) =
  digits (Nat.to_uint n) ++
  match l with
  | [] => []
  | _ :: _ => ","%char :: list_ascii_of_string (comma_list l)
  end.
Proof.
  destruct l as [| m l]; cbn [comma_list].
  - rewrite app_nil_r. reflexivity.
  - rewrite !chars_app. reflexivity.
Qed.

Lemma split_comma_list (l : list nat) :
  forall n,
    PyStr.split_on "," [] (list_ascii_of_string (comma_list (n :: l))) =
    map (fun k => digits (Nat.to_uint k)) (n :: l).
Proof.
  induction l as [| m l IH]; intros n; rewrite chars_comma_list,
    (split_on_digits _ _ (digits_no_comma n)), app_nil_r.
  - cbn [PyStr.split_on map]. rewrite rev_involutive. reflexivity.
  - cbn [PyStr.split_on]. rewrite Ascii.eqb_refl, rev_involutive, IH.
    reflexivity.
Qed.

Lemma ints_of_digits (l : list nat) :
  ints_of (map (fun k => digits (Nat.to_uint k)) l) = Ok (map Z.of_nat l).
Proof.
  induction l as [| n l IH]; [reflexivity |]. cbn [map ints_of].
  rewrite int_of_digits by apply to_uint_nonnil. rewrite Unsigned.of_to, IH.
  reflexivity.
Qed.

(** X15.  The devices of the command line: a comma-separated list of
    decimal numbers is read back as the list of these numbers, which is
    what [loadConfig] hands to [p_loop.set_devices]. *)
Theorem devices_are_read_back (l : list nat) :
  l <> [] ->
  ints_of (PyStr.split "," (comma_list l)) = Ok (map Z.of_nat l) /\
  device_list (Some (comma_list l)) = Ok (Some (map Z.of_nat l)).
Proof.
  intros Hl. destruct l as [| n l]; [contradiction |].
  assert (E : ints_of (PyStr.split "," (comma_list (n :: l))) =
              Ok (map Z.of_nat (n :: l))).
  { unfold PyStr.split. rewrite split_comma_list. apply ints_of_digits. }
  split; [exact E |]. unfold device_list.
  destruct (comma_list (n :: l)) as [| c d] eqn:Ec.
  - exfalso. pose proof (chars_comma_list n l) as C. rewrite Ec in C.
    pose proof (to_uint_nonnil n) as N. unfold digits in C.
    destruct (Nat.to_uint n); try contradiction; discriminate C.
  - rewrite E. reflexivity.
Qed.

Lemma ints_of_raises (l : list PyStr.chars) (e : exn) :
  ints_of l = Raise e -> e = ValueError.
Proof.
  induction l as [| d l IH]; cbn [ints_of]; [discriminate |].
  destruct (PyStr.int_of d) as [z | e'] eqn:E.
  - destruct (ints_of l) as [zs | e'']; [discriminate |].
    intros H. injection H as <-. apply IH. reflexivity.
  - intros H. injection H as <-. unfold PyStr.int_of in E.
    assert (U : forall x e0, PyStr.unsigned_of x = Raise e0 -> e0 = ValueError).
    { intros x e0. unfold PyStr.unsigned_of. destruct x; [congruence |].
      destruct (PyStr.digits_value _ _); congruence. }
    destruct (PyStr.strip d) as [| c x]; [apply (U _ _ E) |].
    destruct c as [[] [] [] [] [] [] [] []]; cbv beta iota in E;
      try (apply (U _ _ E));
      destruct (PyStr.unsigned_of x) eqn:Ex; try discriminate E;
      injection E as <-; apply (U _ _ Ex).
Qed.

Lemma ints_of_empty_field (l : list PyStr.chars) :
  In [] l -> ints_of l = Raise ValueError.
Proof.
  induction l as [| d l IH]; intros H; [contradiction |]. cbn [ints_of].
  destruct H as [-> | H]; [reflexivity |].
  destruct (PyStr.int_of d) as [z | e] eqn:E.
  - rewrite (IH H). reflexivity.
  - f_equal. apply (ints_of_raises [d] e). cbn [ints_of]. rewrite E.
    reflexivity.
Qed.


(** X17.  An empty field among the devices is such a case. *)
Theorem empty_device_field_raises (devs : string) :
  devs <> ""%string ->
  In [] (PyStr.split "," devs) ->
  device_list (Some devs) = Raise ValueError.
Proof.
  intros Hne Hin. unfold device_list. destruct devs as [| c d];
    [contradiction |].
  rewrite (ints_of_empty_field _ Hin). reflexivity.
Qed.
End MoreLoad.

Section MoreDocks.
Context {D : Domain} {SV : Supervisor.Ops} {NP : Np.Ops} {HP : Helpers}.

Local Open Scope list_scope.

Lemma fails_bind_ok {A B} (P : World -> Prop) (m : M A) (k : A -> M B)
    (R : A -> World -> Prop) (e : exn) (Q : World -> Prop) :
  triple P m R -> (forall a, fails (R a) (k a) e Q) ->
  fails P (bind m k) e Q.
Proof.
  intros Hm Hk w Hw. destruct (Hm w Hw) as (a & Ho & Ha).
  destruct (Hk a _ Ha) as (Hob & Hb).
  rewrite outcome_bind, exec_bind, Ho. split; assumption.
Qed.

Lemma fails_bind_raise {A B} (P : World -> Prop) (m : M A) (k : A -> M B)
    (e : exn) (Q : World -> Prop) :
  fails P m e Q -> fails P (bind m k) e Q.
Proof.
  intros Hm w Hw. destruct (Hm w Hw) as (Ho & Hq).
  unfold outcome, exec, bind in *.
  destruct (m w) as [[a | e'] w1]; simpl in *; [discriminate Ho |].
  injection Ho as ->. split; [reflexivity | exact Hq].
Qed.

Lemma fails_raise {A} (P : World -> Prop) (e : exn) :
  fails P (@raise _ A e) e P.
Proof. intros w Hw. split; [reflexivity | exact Hw]. Qed.

Lemma fails_pure {A} (X : Prop) (P : World -> Prop) (m : M A) (e : exn)
    (Q : World -> Prop) :
  (X -> fails P m e Q) -> fails (fun w => X /\ P w) m e Q.
Proof. intros H w [HX Hw]. apply (H HX w Hw). Qed.

Lemma for_each_app {A} (l1 l2 : list A) (body : A -> M unit) (w : World) :
  for_each (l1 ++ l2) body w =
  bind (for_each l1 body) (fun _ => for_each l2 body) w.
Proof.
  revert w. induction l1 as [| a l1 IH]; intros w; [reflexivity |].
  change ((a :: l1) ++ l2) with (a :: (l1 ++ l2)).
  unfold bind at 1. rewrite !for_each_cons. unfold bind.
  destruct (body a w) as [[[] | e] w1]; [| reflexivity].
  rewrite IH. reflexivity.
Qed.

Lemma wfs_docks_fails cfg cs d n i p :
  dock_helper_ok ->
  nth_error (p_wfss cfg) i = Some p -> known_sensor p = false ->
  fails (fun w => load_frame w = (Some cfg, cs, d, n))
    (wfs_docks i) TypeError
    (fun w => load_frame w = (Some cfg, cs ++ slope_docks i, d, n)).
Proof.
  intros Hh Hn Hk. unfold wfs_docks, slope_docks.
  eapply fails_bind_ok; [apply add_dispDock_triple, Hh|]. intros u1.
  eapply fails_bind_ok; [apply add_dispDock_triple, Hh|]. intros u2.
  eapply fails_bind_ok; [apply add_dispDock_triple, Hh|]. intros u3.
  eapply fails_bind_ok.
  { apply (triple_the_config _ cfg). intros w Hw. inversion Hw. reflexivity. }
  intros c'. apply fails_pure. intros ->.
  eapply fails_bind_ok.
  { apply (triple_lift_val _ _ p). apply py_index_nth, Hn. }
  intros p'. apply fails_pure. intros ->.
  unfold known_sensor in Hk. apply orb_false_iff in Hk.
  destruct Hk as [-> ->].
  rewrite <- !app_assoc. apply fails_raise.
Qed.

Lemma sensors_docks_app (a b : list WfsParam) :
  forall i,
    sensors_docks i (a ++ b) =
    sensors_docks i a ++ sensors_docks (i + List.length a) b.
Proof.
  induction a as [| p a IH]; intros i; cbn [Datatypes.app sensors_docks List.length].
  - rewrite Nat.add_0_r. reflexivity.
  - rewrite IH, <- app_assoc, <- Nat.add_succ_comm. reflexivity.
Qed.

Lemma known_sensors_triple cfg cs d n (pre : list WfsParam)
    (post : list WfsParam) :
  dock_helper_ok ->
  p_wfss cfg = pre ++ post ->
  forallb known_sensor pre = true ->
  triple (fun w => load_frame w = (Some cfg, cs, d, n))
    (for_each (range (List.length pre)) wfs_docks)
    (fun _ w => load_frame w = (Some cfg, cs ++ sensors_docks 0 pre, d, n)).
Proof.
  intros Hh Hsplit Hk.
  eapply triple_conseq;
    [| | apply (triple_for_each
           (fun done w =>
              load_frame w =
              (Some cfg,
               cs ++ flat_map
                       (fun i => sensor_docks i (nth (i - 0) pre no_sensor))
                       done, d, n))
           _ (range (List.length pre)) [])].
  - intros w Hw. simpl. rewrite app_nil_r. exact Hw.
  - intros u w Hw. unfold range in Hw. simpl app in Hw.
    rewrite sensors_docks_seq in Hw. exact Hw.
  - intros done i Hi. apply in_seq in Hi.
    assert (Hn : nth_error (p_wfss cfg) i = Some (nth (i - 0) pre no_sensor)).
    { rewrite Hsplit, nth_error_app1 by lia.
      rewrite Nat.sub_0_r. apply nth_error_nth'. lia. }
    eapply triple_conseq; [| | eapply (wfs_docks_triple cfg _ d n i _ Hh Hn)].
    + intros w Hw. exact Hw.
    + intros u w Hw. rewrite flat_map_app. simpl. rewrite app_nil_r, app_assoc.
      exact Hw.
    + rewrite forallb_forall in Hk. apply Hk.
      rewrite Nat.sub_0_r. apply nth_In. lia.
Qed.

(** X18.  A sensor that is neither a Shack-Hartmann nor a pyramid:
    [raise "Analyser unknown"] raises a string, which is a [TypeError],
    in the middle of the loop over the sensors.  [loadConfig] stops
    there: the docks of the atmosphere layers, of the sensors before and
    the three phase and slope docks of the unknown one have been
    created, the docks of the mirrors and targets and the Strehl dock
    have not, and [ndm] and [ntar] keep their old values. *)
Theorem create_docks_unknown_sensor (cfg : Config) (pre post : list WfsParam)
    (p : WfsParam) (w : World) :
  dock_helper_ok ->
  config w = Some cfg ->
  p_wfss cfg = pre ++ p :: post ->
  forallb known_sensor pre = true ->
  known_sensor p = false ->
  let W := exec create_docks w in
  outcome create_docks w = Raise TypeError /\
  dock_calls W =
    dock_calls w ++
    numbered "atm_" (List.length (p_atmos_alt cfg)) wao_phasesgroup_cb ++
    sensors_docks 0 pre ++ slope_docks (List.length pre) /\
  natm W = List.length (p_atmos_alt cfg) /\
  nwfs W = List.length (p_wfss cfg) /\
  ndm W = ndm w /\ ntar W = ntar w.
Proof.
  intros Hh Hc Hsplit Hpre Hp W. subst W.
  assert (F : fails
            (fun x => load_frame x =
               (Some cfg, dock_calls w,
                (SRcircles w, SRCrossX w, SRCrossY w, PyrEdgeX w, PyrEdgeY w),
                (natm w, nwfs w, ndm w, ntar w)))
            create_docks TypeError
            (fun x => load_frame x =
               (Some cfg,
                ((dock_calls w ++
                  numbered "atm_" (List.length (p_atmos_alt cfg))
                    wao_phasesgroup_cb) ++
                 sensors_docks 0 pre) ++ slope_docks (List.length pre),
                (SRcircles w, SRCrossX w, SRCrossY w, PyrEdgeX w, PyrEdgeY w),
                (List.length (p_atmos_alt cfg), List.length (p_wfss cfg),
                 ndm w, ntar w)))).
  { unfold create_docks.
    eapply fails_bind_ok.
    { apply (triple_the_config _ cfg). intros x Hx. inversion Hx. reflexivity. }
    intros c1. apply fails_pure. intros ->.
    eapply fails_bind_ok.
    { apply triple_modify
        with (Q := fun _ x => load_frame x =
                 (Some cfg, dock_calls w,
                  (SRcircles w, SRCrossX w, SRCrossY w, PyrEdgeX w,
                   PyrEdgeY w),
                  (List.length (p_atmos_alt cfg), nwfs w, ndm w, ntar w))).
      intros x Hx. unfold load_frame in *. wsimpl. inversion Hx.
      reflexivity. }
    intros u1. eapply fails_bind_ok.
    { apply (triple_gets_val _ natm (List.length (p_atmos_alt cfg))).
      intros x Hx. inversion Hx. reflexivity. }
    intros k1. apply fails_pure. intros ->.
    eapply fails_bind_ok; [apply numbered_docks_triple, Hh|]. intros u2.
    eapply fails_bind_ok.
    { apply (triple_the_config _ cfg). intros x Hx. inversion Hx. reflexivity. }
    intros c2. apply fails_pure. intros ->.
    eapply fails_bind_ok.
    { apply triple_modify
        with (Q := fun _ x => load_frame x =
                 (Some cfg,
                  dock_calls w ++
                  numbered "atm_" (List.length (p_atmos_alt cfg))
                    wao_phasesgroup_cb,
                  (SRcircles w, SRCrossX w, SRCrossY w, PyrEdgeX w,
                   PyrEdgeY w),
                  (List.length (p_atmos_alt cfg), List.length (p_wfss cfg),
                   ndm w, ntar w))).
      intros x Hx. unfold load_frame in *. wsimpl. inversion Hx.
      reflexivity. }
    intros u3. eapply fails_bind_ok.
    { apply (triple_gets_val _ nwfs (List.length (p_wfss cfg))).
      intros x Hx. inversion Hx. reflexivity. }
    intros k2. apply fails_pure. intros ->.
    apply fails_bind_raise.
    assert (R : range (List.length (p_wfss cfg)) =
                range (List.length pre) ++
                List.length pre :: seq (S (List.length pre)) (List.length post)).
    { unfold range. rewrite Hsplit, length_app. cbn [List.length].
      rewrite seq_app. reflexivity. }
    rewrite R. intros x Hx. unfold outcome, exec. rewrite for_each_app.
    fold (outcome (bind (for_each (range (List.length pre)) wfs_docks)
                     (fun _ => for_each (List.length pre :: seq (S (List.length pre)) (List.length post)) wfs_docks)) x).
    fold (exec (bind (for_each (range (List.length pre)) wfs_docks)
                     (fun _ => for_each (List.length pre :: seq (S (List.length pre)) (List.length post)) wfs_docks)) x).
    revert x Hx.
    change (fails
              (fun x => load_frame x =
                 (Some cfg,
                  dock_calls w ++
                  numbered "atm_" (List.length (p_atmos_alt cfg))
                    wao_phasesgroup_cb,
                  (SRcircles w, SRCrossX w, SRCrossY w, PyrEdgeX w,
                   PyrEdgeY w),
                  (List.length (p_atmos_alt cfg), List.length (p_wfss cfg),
                   ndm w, ntar w)))
              (bind (for_each (range (List.length pre)) wfs_docks)
                 (fun _ =>
                    for_each
                      (List.length pre ::
                       seq (S (List.length pre)) (List.length post))
                      wfs_docks))
              TypeError
              (fun x => load_frame x =
                 (Some cfg,
                  ((dock_calls w ++
                    numbered "atm_" (List.length (p_atmos_alt cfg))
                      wao_phasesgroup_cb) ++
                   sensors_docks 0 pre) ++ slope_docks (List.length pre),
                  (SRcircles w, SRCrossX w, SRCrossY w, PyrEdgeX w,
                   PyrEdgeY w),
                  (List.length (p_atmos_alt cfg), List.length (p_wfss cfg),
                   ndm w, ntar w)))).
    eapply fails_bind_ok.
    { apply (known_sensors_triple cfg _ _ _ pre (p :: post) Hh Hsplit Hpre). }
    intros u4.
    change (for_each (List.length pre ::
                      seq (S (List.length pre)) (List.length post)) wfs_docks)
      with (bind (wfs_docks (List.length pre))
              (fun _ => for_each (seq (S (List.length pre))
                                      (List.length post)) wfs_docks)).
    apply fails_bind_raise.
    apply (wfs_docks_fails cfg _ _ _ (List.length pre) p Hh); [| exact Hp].
    rewrite Hsplit, nth_error_app2 by lia. rewrite Nat.sub_diag. reflexivity. }
  destruct (F w) as (Ho & Hq).
  { unfold load_frame. rewrite Hc. reflexivity. }
  split; [exact Ho |]. unfold load_frame in Hq.
  injection Hq as _ Q2 _ _ _ _ _ Q8 Q9 Q10 Q11.
  rewrite <- !app_assoc in Q2. repeat split; assumption.
Qed.
End MoreDocks.

(** ** Laying the overlays: [initConfigFinished] *)

Section Init.
Context {D : Domain} {SV : Supervisor.Ops} {NP : Np.Ops} {HP : Helpers}
        {IE : InitEnv}.

Local Open Scope list_scope.



Ltac conj := repeat match goal with |- _ /\ _ => split end.

Lemma hoare_bind {A B} (P : World -> Prop) (m : M A) (k : A -> M B)
    (R : A -> World -> Prop) (Q : B -> World -> Prop) :
  hoare P m R -> (forall a, hoare (R a) (k a) Q) -> hoare P (bind m k) Q.
Proof.
  intros Hm Hk w b W Hw H. apply bind_inv in H.
  destruct H as (a & w1 & H1 & H2).
  apply (Hk a w1 b W (Hm w a w1 Hw H1) H2).
Qed.

Lemma hoare_ret {A} (P : World -> Prop) (a : A) :
  hoare P (ret a) (fun _ => P).
Proof. intros w b W Hw H. injection H as _ <-. exact Hw. Qed.

Lemma hoare_conseq {A} (P P' : World -> Prop) (m : M A)
    (Q Q' : A -> World -> Prop) :
  (forall w, P' w -> P w) -> (forall a w, Q a w -> Q' a w) ->
  hoare P m Q -> hoare P' m Q'.
Proof. intros HP1 HQ Hm w a W Hw H. apply HQ, (Hm w a W (HP1 w Hw) H). Qed.

Lemma hoare_for_each {A} (Inv : list A -> World -> Prop) (body : A -> M unit) :
  forall l pre,
  (forall done a, hoare (Inv done) (body a) (fun _ => Inv (done ++ [a]))) ->
  hoare (Inv pre) (for_each l body) (fun _ => Inv (pre ++ l)).
Proof.
  induction l as [| a l IH]; intros pre Hb.
  - intros w u W Hw H. injection H as _ <-. rewrite app_nil_r. exact Hw.
  - intros w u W Hw H. rewrite for_each_cons in H.
    apply bind_inv in H. destruct H as (u1 & w1 & H1 & H2).
    pose proof (IH (pre ++ [a]) Hb w1 u W (Hb pre a w u1 w1 Hw H1) H2) as G.
    rewrite <- app_assoc in G. exact G.
Qed.

Lemma hoare_keeps {A B} (f : World -> B) (P : World -> Prop) (m : M A) :
  (forall w w', f w' = f w -> P w -> P w') ->
  keeps f m -> hoare P m (fun _ => P).
Proof.
  intros Hf Hk w a W Hw H. apply (Hf w W); [| exact Hw].
  pose proof (Hk w) as E. unfold exec in E. rewrite H in E. exact E.
Qed.

Lemma dict_get_items_of (k : string) (vbs : dict ViewBox) :
  dict_get k (items_of vbs) = option_map vb_items (dict_get k vbs).
Proof.
  unfold items_of. induction vbs as [| [k' v] vbs IH]; [reflexivity |].
  cbn [map dict_get fst snd]. destruct (String.eqb k k'); [reflexivity | exact IH].
Qed.

Lemma items_of_dict_set (k : string) (v : ViewBox) (vbs : dict ViewBox) :
  items_of (dict_set k v vbs) = dict_set k (vb_items v) (items_of vbs).
Proof.
  unfold items_of. induction vbs as [| [k' v'] vbs IH]; [reflexivity |].
  cbn [map dict_set fst snd]. destruct (String.eqb k k'); cbn [map fst snd];
    [reflexivity | rewrite IH; reflexivity].
Qed.

Lemma dict_set_same_value {V} (k : string) (v : V) (d : dict V) :
  dict_get k d = Some v -> dict_set k v d = d.
Proof.
  induction d as [| [k' v'] d IH]; cbn [dict_get dict_set]; [discriminate |].
  destruct (String.eqb k k'); intros H.
  - injection H as ->. reflexivity.
  - rewrite (IH H). reflexivity.
Qed.

Lemma shown_overlays_add (d : dict Item) (its : dict (list Item))
    (key : string) (it : Item) (l : list Item) :
  shown_overlays d its -> dict_get key its = Some l ->
  shown_overlays (dict_set key it d) (dict_set key (l ++ [it]) its).
Proof.
  intros H Hl k it0 Hget. destruct (String.eqb_spec k key) as [-> | Hne].
  - rewrite dict_get_set_same in Hget. injection Hget as <-.
    exists (l ++ [it]). rewrite dict_get_set_same. split; [reflexivity |].
    apply in_or_app. right. left. reflexivity.
  - rewrite dict_get_set_other in Hget by exact Hne.
    destruct (H k it0 Hget) as (l0 & E & Hin). exists l0.
    rewrite dict_get_set_other by exact Hne. split; assumption.
Qed.

Lemma shown_overlays_grow (d : dict Item) (its : dict (list Item))
    (key : string) (it : Item) (l : list Item) :
  shown_overlays d its -> dict_get key its = Some l ->
  shown_overlays d (dict_set key (l ++ [it]) its).
Proof.
  intros H Hl k it0 Hget. destruct (H k it0 Hget) as (l0 & E & Hin).
  destruct (String.eqb_spec k key) as [-> | Hne].
  - exists (l ++ [it]). rewrite dict_get_set_same. split; [reflexivity |].
    apply in_or_app. left. congruence.
  - exists l0. rewrite dict_get_set_other by exact Hne. split; assumption.
Qed.

Lemma has_keys_set (ks : list string) (d : dict Item) (k : string)
    (it : Item) :
  has_keys ks d -> has_keys ks (dict_set k it d).
Proof. intros H k' Hk'. apply dict_set_keeps_keys, H, Hk'. Qed.

Lemma has_keys_add (ks : list string) (d : dict Item) (k : string)
    (it : Item) :
  has_keys ks d -> has_keys (ks ++ [k]) (dict_set k it d).
Proof.
  intros H k' Hk'. apply in_app_or in Hk'. destruct Hk' as [Hk' | [<- | []]].
  - apply dict_set_keeps_keys, H, Hk'.
  - rewrite dict_get_set_same. discriminate.
Qed.

Lemma laid_part (w0 : World) (K1 K2 K3 : list string) (w w' : World) :
  init_part w' = init_part w -> laid w0 K1 K2 K3 w -> laid w0 K1 K2 K3 w'.
Proof.
  unfold init_part, laid, overlays_shown. intros E H.
  injection E as E1 E2 E3 E4 E5 E6 E7 E8 E9 E10.
  rewrite E1, E2, E3, E4, E5, E6, E7, E8, E9, E10. exact H.
Qed.

Lemma setRange_keeps_part (key : string) (xr yr : Q * Q) (v : _) :
  preserves (fun w => init_part w = v) (update_viewbox key (setRange xr yr)).
Proof.
  intros w H. unfold exec, update_viewbox, bind, gets, lift, dict_item, modify.
  destruct (dict_get key (viewboxes w)) as [vb |] eqn:E; cbn [snd];
    [| exact H].
  unfold init_part in *. wsimpl. rewrite items_of_dict_set.
  cbn [setRange vb_items]. rewrite dict_set_same_value; [exact H |].
  rewrite dict_get_items_of, E. reflexivity.
Qed.

Lemma updateDisplay_keeps_part : keeps init_part updateDisplay.
Proof.
  apply preserves_keeps. intros v.
  unfold updateDisplay, not_ready, display_round.
  repeat first
    [ pres_step
    | apply setRange_keeps_part
    | progress unfold display_dock, fetch, psf_block, slope_block,
        slope_comp, sup_get, log_call, update_img ];
    try (pres_prim; fail).
Qed.

Lemma kept {A B} (f : World -> B) (m : M A) (w W : World) (a : A) :
  keeps f m -> m w = (Ok a, W) -> f W = f w.
Proof. intros Hk H. pose proof (Hk w) as E. unfold exec in E. rewrite H in E. exact E. Qed.

Lemma pupil_circle_laid (w0 : World) (K1 K2 K3 : list string) (key : string)
    (data : frame) :
  init_helpers_keep init_part ->
  hoare (laid w0 K1 K2 K3) (pupil_circle key data)
        (fun _ => laid w0 (K1 ++ [key]) K2 K3).
Proof.
  intros (HkS & HkP & _) w u W Hw H. unfold pupil_circle in H.
  fwd H I.
  repeat match goal with
         | E : dict_item _ (dict_set _ _ _) = Ok _ |- _ =>
             unfold dict_item in E; rewrite dict_get_set_same in E;
             injection E as <-
         end.
  match goal with
  | E : dict_get _ (viewboxes _) = Some _ |- _ => wsimpl_in E; rename E into Ev
  end.
  match goal with
  | H1 : ScatterPlotItem _ _ _ = _ |- _ =>
      pose proof (laid_part w0 K1 K2 K3 _ _ (kept _ _ _ _ _ (HkS _ _) H1) Hw)
        as L
  end.
  apply (laid_part _ _ _ _ _ W (kept _ _ _ _ _ (HkP _ _ _) H)).
  destruct L as ((S1 & S2 & S3 & S4 & S5) & Hk1 & (Hx & Hy) & (Hpx & Hpy)
                 & Hn & Hc).
  match type of Ev with
  | dict_get _ (viewboxes ?x) = Some ?v =>
      assert (El : dict_get key (items_of (viewboxes x)) = Some (vb_items v))
        by (rewrite dict_get_items_of, Ev; reflexivity)
  end.
  unfold laid, overlays_shown. wsimpl. rewrite items_of_dict_set.
  cbn [addItem vb_items].
  split; [| split; [apply has_keys_add, Hk1 | conj; assumption]].
  split; [apply shown_overlays_add; assumption |].
  conj; apply shown_overlays_grow; assumption.
Qed.

Section Crosses.
Variables (d : dict Item) (its : dict (list Item)) (key : string)
          (l : list Item) (a a0 : Item).
Hypothesis Hd : shown_overlays d its.
Hypothesis Hl : dict_get key its = Some l.

Let its2 : dict (list Item) :=
  dict_set key ((l ++ [a]) ++ [a0]) (dict_set key (l ++ [a]) its).

Lemma both_beside : shown_overlays d its2.
Proof.
  apply shown_overlays_grow; [apply shown_overlays_grow; assumption |].
  apply dict_get_set_same.
Qed.

Lemma first_stroke : shown_overlays (dict_set key a d) its2.
Proof.
  apply shown_overlays_grow; [apply shown_overlays_add; assumption |].
  apply dict_get_set_same.
Qed.

Lemma second_stroke : shown_overlays (dict_set key a0 d) its2.
Proof.
  apply shown_overlays_add; [apply shown_overlays_grow; assumption |].
  apply dict_get_set_same.
Qed.
End Crosses.

Lemma psf_cross_laid (w0 : World) (K1 K2 K3 : list string) (key : string)
    (n0 n1 : Z) (Delta : Q) (pen : string) :
  init_helpers_keep init_part ->
  hoare (laid w0 K1 K2 K3)
        (centre_cross key n0 n1 Delta pen set_SRCrossX set_SRCrossY
           SRCrossX SRCrossY)
        (fun _ => laid w0 K1 (K2 ++ [key]) K3).
Proof.
  intros (_ & _ & HkC & _) w u W Hw H.
  unfold centre_cross in H. fwd H I.
  match goal with
  | H0 : PlotCurveItem _ _ _ ?w = (Ok ?x, ?w1),
    H1 : PlotCurveItem _ _ _ _ = (Ok ?y, ?w2) |- _ =>
      pose proof (laid_part w0 K1 K2 K3 _ _ (kept _ _ _ _ _ (HkC _ _ _) H0) Hw)
        as L;
      pose proof (kept _ _ _ _ _ (HkC _ _ _) H1) as P2
  end.
  unfold init_part in P2. wsimpl_in P2.
  injection P2 as Pc Px Py Pex Pey Pv Pn1 Pn2 Pn3 Pcf.
  destruct L as ((S1 & S2 & S3 & S4 & S5) & Hk1 & (Hx & Hy) & (Hpx & Hpy)
                 & Hn & Hc).
  repeat match goal with
         | E : dict_item _ _ = Ok _ |- _ =>
             unfold dict_item in E;
             rewrite ?Px, ?Pex, ?dict_get_set_same in E;
             injection E as <-
         end.
  repeat match goal with
         | E : dict_get _ (viewboxes _) = Some _ |- _ =>
             wsimpl_in E;
             apply (f_equal (option_map vb_items)) in E;
             rewrite <- dict_get_items_of, ?items_of_dict_set,
               ?dict_get_set_same, ?Pv in E;
             cbn [option_map addItem vb_items] in E
         end.
  match goal with
  | Ea : dict_get key (items_of (viewboxes _)) = Some (vb_items _),
    Eb : Some (_ ++ [_]) = Some (vb_items _) |- _ =>
      rename Eb into Ei; rename Ea into Ev
  end.
  injection Ei as Ei.
  unfold laid, overlays_shown. wsimpl. rewrite !items_of_dict_set.
  cbn [addItem vb_items]. rewrite <- Ei, Pc, Px, Py, Pex, Pey, Pv.
  rewrite Pn1, Pn2, Pn3, Pcf.
  conj; try assumption;
    first [ apply first_stroke; assumption
          | apply second_stroke; assumption
          | apply both_beside; assumption
          | apply has_keys_add; assumption ].
Qed.

Lemma pyramid_edges_laid (w0 : World) (K1 K2 K3 : list string) (key : string)
    (n0 n1 : Z) (Delta : Q) (pen : string) :
  init_helpers_keep init_part ->
  hoare (laid w0 K1 K2 K3)
        (centre_cross key n0 n1 Delta pen set_PyrEdgeX set_PyrEdgeY
           PyrEdgeX PyrEdgeY)
        (fun _ => laid w0 K1 K2 (K3 ++ [key])).
Proof.
  intros (_ & _ & HkC & _) w u W Hw H.
  unfold centre_cross in H. fwd H I.
  match goal with
  | H0 : PlotCurveItem _ _ _ ?w = (Ok ?x, ?w1),
    H1 : PlotCurveItem _ _ _ _ = (Ok ?y, ?w2) |- _ =>
      pose proof (laid_part w0 K1 K2 K3 _ _ (kept _ _ _ _ _ (HkC _ _ _) H0) Hw)
        as L;
      pose proof (kept _ _ _ _ _ (HkC _ _ _) H1) as P2
  end.
  unfold init_part in P2. wsimpl_in P2.
  injection P2 as Pc Px Py Pex Pey Pv Pn1 Pn2 Pn3 Pcf.
  destruct L as ((S1 & S2 & S3 & S4 & S5) & Hk1 & (Hx & Hy) & (Hpx & Hpy)
                 & Hn & Hc).
  repeat match goal with
         | E : dict_item _ _ = Ok _ |- _ =>
             unfold dict_item in E;
             rewrite ?Px, ?Pex, ?dict_get_set_same in E;
             injection E as <-
         end.
  repeat match goal with
         | E : dict_get _ (viewboxes _) = Some _ |- _ =>
             wsimpl_in E;
             apply (f_equal (option_map vb_items)) in E;
             rewrite <- dict_get_items_of, ?items_of_dict_set,
               ?dict_get_set_same, ?Pv in E;
             cbn [option_map addItem vb_items] in E
         end.
  match goal with
  | Ea : dict_get key (items_of (viewboxes _)) = Some (vb_items _),
    Eb : Some (_ ++ [_]) = Some (vb_items _) |- _ =>
      rename Eb into Ei; rename Ea into Ev
  end.
  injection Ei as Ei.
  unfold laid, overlays_shown. wsimpl. rewrite !items_of_dict_set.
  cbn [addItem vb_items]. rewrite <- Ei, Pc, Px, Py, Pex, Pey, Pv.
  rewrite Pn1, Pn2, Pn3, Pcf.
  conj; try assumption;
    first [ apply first_stroke; assumption
          | apply second_stroke; assumption
          | apply both_beside; assumption
          | apply has_keys_add; assumption ].
Qed.

(** Settles that a step made of primitives leaves [init_part] alone. *)
Ltac part_prim :=
  apply preserves_keeps; intros ?;
  repeat first [ pres_step
               | progress unfold sup_act, sup_get, log_call, print,
                   update_uiAO ];
  try (pres_prim; fail).

Lemma hoare_laid_keeps {A} (w0 : World) (K1 K2 K3 : list string) (m : M A) :
  keeps init_part m ->
  hoare (laid w0 K1 K2 K3) m (fun _ => laid w0 K1 K2 K3).
Proof.
  apply hoare_keeps. intros w w' E. apply laid_part, E.
Qed.

Lemma hoare_pure {A} (X : Prop) (P : World -> Prop) (m : M A)
    (Q : A -> World -> Prop) :
  (X -> hoare P m Q) -> hoare (fun w => X /\ P w) m Q.
Proof. intros H w a W [HX Hw]. apply (H HX w a W Hw). Qed.

Lemma hoare_the_config (w0 : World) (K1 K2 K3 : list string) :
  hoare (laid w0 K1 K2 K3) the_config
        (fun c w => config w0 = Some c /\ laid w0 K1 K2 K3 w).
Proof.
  intros w c W Hw H. apply the_config_inv in H. destruct H as [E ->].
  split; [| exact Hw]. destruct Hw as (_ & _ & _ & _ & _ & Hc).
  rewrite <- Hc. exact E.
Qed.

Lemma hoare_gets_laid {A} (f g : World -> A) (w0 : World)
    (K1 K2 K3 : list string) :
  (forall w, laid w0 K1 K2 K3 w -> f w = g w0) ->
  hoare (laid w0 K1 K2 K3) (gets f)
        (fun a w => a = g w0 /\ laid w0 K1 K2 K3 w).
Proof.
  intros Hf w a W Hw H. injection H as <- <-. split; [apply Hf, Hw | exact Hw].
Qed.

Lemma keys_upto_S (q : string) (n : nat) :
  keys_upto q (S n) = keys_upto q n ++ [dock_name q n].
Proof. unfold keys_upto, range. rewrite seq_S, map_app. reflexivity. Qed.

Lemma circle_loop (w0 : World) (K1 K2 K3 : list string) (q : string)
    (n : nat) (call : nat -> SupCall) (get : nat -> Sup -> result frame) :
  init_helpers_keep init_part ->
  hoare (laid w0 K1 K2 K3)
    (for_each (range n)
       (fun i => bind (sup_get (call i) (get i))
                   (fun data => pupil_circle (q ++ PyStr.dec i) data)))
    (fun _ => laid w0 (K1 ++ keys_upto q n) K2 K3).
Proof.
  intros Hk.
  eapply hoare_conseq;
    [| | apply (hoare_for_each
                  (fun done => laid w0 (K1 ++ map (dock_name q) done) K2 K3)
                  _ (range n) [])].
  - intros w Hw. cbn [map]. rewrite app_nil_r. exact Hw.
  - intros u w Hw. exact Hw.
  - intros done i. eapply hoare_bind.
    + apply hoare_laid_keeps. part_prim.
    + intros data. eapply hoare_conseq;
        [| | apply (pupil_circle_laid w0 (K1 ++ map (dock_name q) done) K2 K3
                      (q ++ PyStr.dec i) data Hk)].
      * intros w Hw. exact Hw.
      * intros u w Hw. rewrite map_app, app_assoc. exact Hw.
Qed.

Local Open Scope string_scope.

Lemma dm_loop (w0 : World) (K1 K2 K3 : list string) (n : nat) :
  init_helpers_keep init_part ->
  hoare (laid w0 K1 K2 K3)
    (for_each (range n) (fun i =>
       bind the_config (fun cfg =>
       bind (lift (py_index (p_dms cfg) (Z.of_nat i))) (fun _ =>
       bind the_config (fun cfg =>
       bind (lift (py_index (p_dms cfg) (Z.of_nat i))) (fun _ =>
       bind (sup_get (Call_getDmShape (Z.of_nat i))
               (fun s => Supervisor.getDmShape s (Z.of_nat i)))
            (fun data => pupil_circle ("dm_" ++ PyStr.dec i) data)))))))
    (fun _ => laid w0 (K1 ++ keys_upto "dm_" n) K2 K3).
Proof.
  intros Hk.
  eapply hoare_conseq;
    [| | apply (hoare_for_each
                  (fun done => laid w0 (K1 ++ map (dock_name "dm_") done) K2 K3)
                  _ (range n) [])].
  - intros w Hw. cbn [map]. rewrite app_nil_r. exact Hw.
  - intros u w Hw. exact Hw.
  - intros done i.
    do 5 (eapply hoare_bind; [apply hoare_laid_keeps; part_prim | intros ?]).
    eapply hoare_conseq;
      [| | apply (pupil_circle_laid w0 (K1 ++ map (dock_name "dm_") done)
                    K2 K3 ("dm_" ++ PyStr.dec i) _ Hk)].
    + intros w Hw. exact Hw.
    + intros u w Hw. rewrite map_app, app_assoc. exact Hw.
Qed.

Lemma tar_loop (w0 : World) (K1 K2 K3 : list string) (n : nat) :
  init_helpers_keep init_part ->
  hoare (laid w0 K1 K2 K3)
    (for_each (range n) (fun i =>
       bind (sup_get (Call_getTarPhase (Z.of_nat i))
               (fun s => Supervisor.getTarPhase s (Z.of_nat i)))
            (fun data =>
       bind (pupil_circle ("tar_" ++ PyStr.dec i) data) (fun _ =>
       bind (sup_get (Call_getTarImage (Z.of_nat i) default_tarType)
               (fun s => Supervisor.getTarImage s (Z.of_nat i)
                           default_tarType))
            (fun data =>
       for_each ["psfSE_"; "psfLE_"] (fun psf =>
         centre_cross (psf ++ PyStr.dec i) (Np.shape0 data) (Np.shape1 data)
           5 "r" set_SRCrossX set_SRCrossY SRCrossX SRCrossY))))))
    (fun _ =>
       laid w0 (K1 ++ keys_upto "tar_" n)
         (K2 ++ flat_map (fun i => [dock_name "psfSE_" i;
                                    dock_name "psfLE_" i]) (range n))
         K3).
Proof.
  intros Hk.
  eapply hoare_conseq;
    [| | apply (hoare_for_each
                  (fun done =>
                     laid w0 (K1 ++ map (dock_name "tar_") done)
                       (K2 ++ flat_map (fun i => [dock_name "psfSE_" i;
                                                  dock_name "psfLE_" i]) done)
                       K3)
                  _ (range n) [])].
  - intros w Hw. cbn [map flat_map]. rewrite !app_nil_r. exact Hw.
  - intros u w Hw. exact Hw.
  - intros done i.
    eapply hoare_bind; [apply hoare_laid_keeps; part_prim | intros data].
    eapply hoare_bind; [apply (pupil_circle_laid _ _ _ _ _ _ Hk) | intros u].
    eapply hoare_bind; [apply hoare_laid_keeps; part_prim | intros img].
    rewrite map_app, flat_map_app. cbn [map flat_map]. rewrite app_nil_r.
    rewrite !app_assoc.
    intros w u' W Hw H. rewrite !for_each_cons in H.
    apply bind_inv in H. destruct H as (u1 & w1 & H1 & H).
    apply bind_inv in H. destruct H as (u2 & w2 & H2 & H).
    injection H as _ <-.
    pose proof (psf_cross_laid _ _ _ _ _ _ _ _ _ Hk w u1 w1 Hw H1) as L1.
    pose proof (psf_cross_laid _ _ _ _ _ _ _ _ _ Hk w1 u2 w2 L1 H2) as L2.
    rewrite <- !app_assoc in L2. rewrite <- !app_assoc. exact L2.
Qed.

Lemma pyramid_loop (w0 : World) (K1 K2 K3 : list string) (cfg : Config)
    (n : nat) :
  init_helpers_keep init_part ->
  config w0 = Some cfg ->
  hoare (laid w0 K1 K2 K3)
    (for_each (range n) (fun i =>
       bind the_config (fun cfg =>
       bind (lift (py_index (p_wfss cfg) (Z.of_nat i))) (fun p =>
       if is_pyr (wfs_type p) then
         bind (sup_get (Call_getPyrFocalPlane (Z.of_nat i))
                 (fun s => Supervisor.getPyrFocalPlane s (Z.of_nat i)))
              (fun data =>
         centre_cross ("pyrFocalPlane_" ++ PyStr.dec i)
           (Np.shape0 data) (Np.shape1 data) (inject_Z (len_frame data) / 2)
           "b" set_PyrEdgeX set_PyrEdgeY PyrEdgeX PyrEdgeY)
       else ret tt))))
    (fun _ =>
       laid w0 K1 K2
         (K3 ++ flat_map
                  (fun i =>
                     match py_index (p_wfss cfg) (Z.of_nat i) with
                     | Ok p => if is_pyr (wfs_type p)
                               then [dock_name "pyrFocalPlane_" i] else []
                     | Raise _ => []
                     end) (range n))).
Proof.
  intros Hk Hc.
  eapply hoare_conseq;
    [| | apply (hoare_for_each
                  (fun done =>
                     laid w0 K1 K2
                       (K3 ++ flat_map
                          (fun i =>
                             match py_index (p_wfss cfg) (Z.of_nat i) with
                             | Ok p => if is_pyr (wfs_type p)
                                       then [dock_name "pyrFocalPlane_" i]
                                       else []
                             | Raise _ => []
                             end) done))
                  _ (range n) [])].
  - intros w Hw. cbn [flat_map]. rewrite app_nil_r. exact Hw.
  - intros u w Hw. exact Hw.
  - intros done i.
    eapply hoare_bind; [apply hoare_the_config | intros c].
    apply hoare_pure. intros Ec. rewrite Hc in Ec. injection Ec as <-.
    rewrite flat_map_app. cbn [flat_map]. rewrite app_nil_r.
    intros w u W Hw H. apply bind_inv in H.
    destruct H as (p & w1 & H1 & H). unfold lift in H1.
    injection H1 as Ep <-. rewrite Ep.
    destruct (is_pyr (wfs_type p)).
    + revert w u W Hw H.
      change (hoare
                (laid w0 K1 K2
                   (K3 ++ flat_map
                      (fun i =>
                         match py_index (p_wfss cfg) (Z.of_nat i) with
                         | Ok p => if is_pyr (wfs_type p)
                                   then [dock_name "pyrFocalPlane_" i]
                                   else []
                         | Raise _ => []
                         end) done))
                (bind (sup_get (Call_getPyrFocalPlane (Z.of_nat i))
                         (fun s => Supervisor.getPyrFocalPlane s (Z.of_nat i)))
                   (fun data =>
                      centre_cross ("pyrFocalPlane_" ++ PyStr.dec i)
                        (Np.shape0 data) (Np.shape1 data)
                        (inject_Z (len_frame data) / 2) "b"
                        set_PyrEdgeX set_PyrEdgeY PyrEdgeX PyrEdgeY))
                (fun _ =>
                   laid w0 K1 K2
                     (K3 ++ flat_map
                        (fun i =>
                           match py_index (p_wfss cfg) (Z.of_nat i) with
                           | Ok p => if is_pyr (wfs_type p)
                                     then [dock_name "pyrFocalPlane_" i]
                                     else []
                           | Raise _ => []
                           end) done ++ [dock_name "pyrFocalPlane_" i]))).
      eapply hoare_bind; [apply hoare_laid_keeps; part_prim | intros data].
      intros w u W Hw H. rewrite app_assoc.
      exact (pyramid_edges_laid _ _ _ _ _ _ _ _ _ Hk w u W Hw H).
    + injection H as _ <-. rewrite app_nil_r. exact Hw.
Qed.

(** X20.  What [initConfigFinished] lays over the docks.  When it
    returns, the window has stored a pupil circle for every phase dock
    ([atm_i], [wfs_i], [dm_i], [tar_i]), the two strokes of a cross for
    each PSF dock ([psfSE_i], [psfLE_i]) and the two edges for the focal
    plane of each pyramid sensor, and every overlay it has stored, old or
    new, is among the items of the view box of its key: that is what the
    next [loadConfig] needs to take them off again.  The items come from
    pyqtgraph, which, like the code of the other files, is assumed to
    leave the dictionaries, the items of the view boxes, the counters and
    the configuration alone. *)
Theorem initConfigFinished_lays_the_overlays (w W : World) (cfg : Config) :
  init_helpers_keep init_part ->
  overlays_shown w ->
  config w = Some cfg ->
  initConfigFinished w = (Ok tt, W) ->
  overlays_shown W /\
  (forall i, (i < natm w)%nat ->
     dict_get (dock_name "atm_" i) (SRcircles W) <> None) /\
  (forall i, (i < nwfs w)%nat ->
     dict_get (dock_name "wfs_" i) (SRcircles W) <> None) /\
  (forall i, (i < ndm w)%nat ->
     dict_get (dock_name "dm_" i) (SRcircles W) <> None) /\
  (forall i, (i < List.length (p_targets cfg))%nat ->
     dict_get (dock_name "tar_" i) (SRcircles W) <> None /\
     (dict_get (dock_name "psfSE_" i) (SRCrossX W) <> None /\
      dict_get (dock_name "psfSE_" i) (SRCrossY W) <> None) /\
     (dict_get (dock_name "psfLE_" i) (SRCrossX W) <> None /\
      dict_get (dock_name "psfLE_" i) (SRCrossY W) <> None)) /\
  (forall i p,
     nth_error (p_wfss cfg) i = Some p -> is_pyr (wfs_type p) = true ->
     dict_get (dock_name "pyrFocalPlane_" i) (PyrEdgeX W) <> None /\
     dict_get (dock_name "pyrFocalPlane_" i) (PyrEdgeY W) <> None).
Proof.
  intros Hk Hw Hc H.
  assert (L0 : laid w [] [] [] w).
  { unfold laid. conj; try reflexivity; try exact Hw; intros k []. }
  assert (G : hoare (laid w [] [] []) initConfigFinished
                (fun _ =>
                   laid w
                     (((keys_upto "atm_" (natm w) ++ keys_upto "wfs_" (nwfs w))
                       ++ keys_upto "dm_" (ndm w))
                      ++ keys_upto "tar_" (List.length (p_targets cfg)))
                     (flat_map (fun i => [dock_name "psfSE_" i;
                                          dock_name "psfLE_" i])
                        (range (List.length (p_targets cfg))))
                     (flat_map
                        (fun i =>
                           match py_index (p_wfss cfg) (Z.of_nat i) with
                           | Ok p => if is_pyr (wfs_type p)
                                     then [dock_name "pyrFocalPlane_" i]
                                     else []
                           | Raise _ => []
                           end) (range (List.length (p_wfss cfg)))))).
  { unfold initConfigFinished.
    eapply hoare_bind; [apply hoare_laid_keeps; part_prim | intros u0].
    (* atmosphere *)
    eapply hoare_bind;
      [apply (hoare_gets_laid natm natm);
       intros x (_ & _ & _ & _ & E & _); congruence | intros n].
    apply hoare_pure. intros ->.
    eapply hoare_bind; [apply (circle_loop _ _ _ _ "atm_" _ _ _ Hk) | intros u1].
    (* sensors *)
    eapply hoare_bind;
      [apply (hoare_gets_laid nwfs nwfs);
       intros x (_ & _ & _ & _ & E & _); congruence | intros n].
    apply hoare_pure. intros ->.
    eapply hoare_bind; [apply (circle_loop _ _ _ _ "wfs_" _ _ _ Hk) | intros u2].
    (* mirrors *)
    eapply hoare_bind;
      [apply (hoare_gets_laid ndm ndm);
       intros x (_ & _ & _ & _ & E & _); congruence | intros n].
    apply hoare_pure. intros ->.
    eapply hoare_bind; [apply (dm_loop _ _ _ _ _ Hk) | intros u3].
    (* targets *)
    eapply hoare_bind; [apply hoare_the_config | intros c].
    apply hoare_pure. intros Ec. rewrite Hc in Ec. injection Ec as <-.
    eapply hoare_bind; [apply (tar_loop _ _ _ _ _ Hk) | intros u4].
    (* pyramids *)
    eapply hoare_bind; [apply hoare_the_config | intros c].
    apply hoare_pure. intros Ec. rewrite Hc in Ec. injection Ec as <-.
    eapply hoare_bind; [apply (pyramid_loop _ _ _ _ cfg _ Hk Hc) | intros u5].
    (* the rest *)
    destruct Hk as (_ & _ & _ & Ho & Hd & Hf).
    eapply hoare_bind; [apply hoare_laid_keeps; part_prim | intros sv].
    eapply hoare_bind; [apply hoare_laid_keeps; part_prim | intros u6].
    eapply hoare_bind; [apply hoare_laid_keeps; part_prim | intros ex].
    eapply hoare_bind.
    { apply hoare_laid_keeps. destruct ex; [exact Hd | part_prim]. }
    intros u7.
    eapply hoare_bind;
      [apply hoare_laid_keeps, updateDisplay_keeps_part | intros u8].
    eapply hoare_bind; [apply hoare_laid_keeps; part_prim | intros u9].
    eapply hoare_bind; [apply hoare_laid_keeps; part_prim | intros u10].
    eapply hoare_bind; [apply hoare_laid_keeps, Ho | intros u11].
    eapply hoare_bind; [apply hoare_laid_keeps; part_prim | intros u12].
    eapply hoare_bind; [apply hoare_laid_keeps; part_prim | intros u13].
    apply hoare_laid_keeps, Hf. }
  destruct (G w tt W L0 H) as (S & Hc1 & (Hx & Hy) & (Hpx & Hpy) & _).
  assert (U : forall q n i, (i < n)%nat -> In (dock_name q i) (keys_upto q n)).
  { intros q n i Hi. unfold keys_upto, range. apply in_map, in_seq. lia. }
  split; [exact S |]. conj.
  - intros i Hi. apply Hc1. do 3 (apply in_or_app; left). apply U, Hi.
  - intros i Hi. apply Hc1. do 2 (apply in_or_app; left).
    apply in_or_app. right. apply U, Hi.
  - intros i Hi. apply Hc1. apply in_or_app. left.
    apply in_or_app. right. apply U, Hi.
  - intros i Hi.
    assert (F : forall k, In k [dock_name "psfSE_" i; dock_name "psfLE_" i] ->
                  In k (flat_map (fun i => [dock_name "psfSE_" i;
                                            dock_name "psfLE_" i])
                          (range (List.length (p_targets cfg))))).
    { intros k Hin. apply in_flat_map. exists i. split; [| exact Hin].
      apply in_seq. lia. }
    conj.
    + apply Hc1. apply in_or_app. right. apply U, Hi.
    + apply Hx, F. left. reflexivity.
    + apply Hy, F. left. reflexivity.
    + apply Hx, F. right. left. reflexivity.
    + apply Hy, F. right. left. reflexivity.
  - intros i p Hn Hp.
    assert (F : In (dock_name "pyrFocalPlane_" i)
                  (flat_map
                     (fun i =>
                        match py_index (p_wfss cfg) (Z.of_nat i) with
                        | Ok p => if is_pyr (wfs_type p)
                                  then [dock_name "pyrFocalPlane_" i]
                                  else []
                        | Raise _ => []
                        end) (range (List.length (p_wfss cfg))))).
    { apply in_flat_map. exists i. split.
      - apply in_seq. assert (i < List.length (p_wfss cfg))%nat
          by (apply nth_error_Some; congruence). lia.
      - rewrite (py_index_nth _ _ _ Hn), Hp. left. reflexivity. }
    split; [apply Hpx, F | apply Hpy, F].
Qed.
(** X21.  Without a supervisor neither [initConfig] nor
    [initConfigFinished] gets anywhere: the first thing each does is call
    a method of [self.supervisor], so [None] gives an [AttributeError]
    before the base class is called or anything is drawn, and the window
    is left as it was. *)
Theorem init_without_supervisor (w : World) :
  supervisor w = None ->
  initConfig w = (Raise AttributeError, w) /\
  initConfigFinished w = (Raise AttributeError, w).
Proof.
  intros H. unfold initConfig, initConfigFinished, sup_act, bind,
    the_supervisor. rewrite H. split; reflexivity.
Qed.

End Init.
(** ** More of the window at work *)

Section MoreExamples.
#[local] Existing Instance Mock.dom.
#[local] Existing Instance Mock.sv.
#[local] Existing Instance Mock.np.
#[local] Existing Instance Mock.idle.
#[local] Existing Instance MockInit.ie.

Local Open Scope string_scope.

Ltac conj := repeat match goal with |- _ /\ _ => split end.

(** X1 at work: the phase dock of the second sensor. *)
Lemma dock_keys_give_their_index_witness :
  In ("wfs_1", wao_phasesgroup_cb, "pg_image") (expected_docks Mock.config2) /\
  ("wfs_1" = "Strehl" \/
   exists q i,
     "wfs_1" = dock_name (q ++ "_") i /\
     PyStr.index_of_key "wfs_1" = Ok (Z.of_nat i)).
Proof.
  assert (H : In ("wfs_1", wao_phasesgroup_cb, "pg_image")
                (expected_docks Mock.config2)).
  { vm_compute. repeat (first [left; reflexivity | right]). }
  split; [exact H |].
  apply (dock_keys_give_their_index Mock.config2 _ _ _ H).
Defined.

(** X2 at work: the Strehl dock. *)
Lemma undigited_key_raises_witness :
  let w := Mock.shown false in
  undigited (list_ascii_of_string "Strehl") = true /\
  PyStr.index_of_key "Strehl" = Raise ValueError /\
  display_dock "Strehl" None w = (Raise ValueError, w).
Proof.
  intros w.
  assert (H : undigited (list_ascii_of_string "Strehl") = true)
    by (vm_compute; reflexivity).
  split; [exact H |].
  apply (undigited_key_raises "Strehl" None w H).
Defined.

(** X3 at work: the short-exposure PSF of the second target. *)
Lemma image_dock_pulls_one_buffer_witness :
  let w := Mock.shown false in
  let W := exec (display_dock (image_key K_psfSE 1) None) w in
  (supervisor w = Some Mock.sup2 /\
   display_dock (image_key K_psfSE 1) None w = (Ok None, W)) /\
  calls W = (calls w ++ [Call_getTarImage 1 "se"; Call_getFrameCounter])%list /\
  supervisor W = Some Mock.sup2.
Proof.
  intros w W.
  assert (H1 : supervisor w = Some Mock.sup2) by (vm_compute; reflexivity).
  assert (H2 : display_dock (image_key K_psfSE 1) None w = (Ok None, W))
    by (vm_compute; reflexivity).
  split; [split; assumption |].
  destruct (image_dock_pulls_one_buffer K_psfSE 1 None None w W Mock.sup2
              H1 H2) as (A & _ & B).
  split; [exact A | exact B].
Defined.

(** X4 at work: the long-exposure PSF before the tenth frame. *)
Lemma psf_dock_zoom_witness :
  let w := Mock.shown true in
  let W := exec (display_dock (image_key K_psfLE 0) None) w in
  (is_psf K_psfLE = true /\ supervisor w = Some Mock.sup2 /\
   display_dock (image_key K_psfLE 0) None w = (Ok None, W)) /\
  exists fc g,
    Supervisor.getFrameCounter Mock.sup2 = Ok fc /\
    image_of (image_key K_psfLE 0) W = Some (Some g) /\
    if (fc <? 10)%Z then
      option_map vb_range (dict_get (image_key K_psfLE 0) (viewboxes W)) =
      Some (Some (zoomed (Np.shape0 g) (Np.shape1 g)))
    else viewboxes W = viewboxes w.
Proof.
  intros w W.
  assert (H0 : is_psf K_psfLE = true) by reflexivity.
  assert (H1 : supervisor w = Some Mock.sup2) by (vm_compute; reflexivity).
  assert (H2 : display_dock (image_key K_psfLE 0) None w = (Ok None, W))
    by (vm_compute; reflexivity).
  split; [conj; assumption |].
  apply (psf_dock_zoom K_psfLE 0 None None w W Mock.sup2 H0 H1 H2).
Defined.

(** X5 at work: the geometric slopes of the first sensor. *)
Lemma slpGeom_dock_draws_no_slopes_witness :
  let w := Mock.shown false in
  let W := exec (display_dock (dock_name "slpGeom_" 0) None) w in
  (supervisor w = Some Mock.sup2 /\
   display_dock (dock_name "slpGeom_" 0) None w = (Ok (Some [0; 0]%Z), W)) /\
  drawn_since (dock_name "slpGeom_" 0) w W [AxesClear; CanvasDraw].
Proof.
  intros w W.
  assert (H1 : supervisor w = Some Mock.sup2) by (vm_compute; reflexivity).
  assert (H2 : display_dock (dock_name "slpGeom_" 0) None w
               = (Ok (Some [0; 0]%Z), W))
    by (vm_compute; reflexivity).
  split; [split; assumption |].
  destruct (slpGeom_dock_draws_no_slopes (D := Mock.dom) 0 None (Some [0; 0]%Z) w W Mock.sup2
              H1 H2) as (A & _).
  exact A.
Defined.

(** X6 at work: the slopes of the Shack-Hartmann sensor. *)
Lemma slpComp_dock_draws_its_slice_witness :
  let w := Mock.shown false in
  let W := exec (display_dock (dock_name "slpComp_" 0) None) w in
  (supervisor w = Some Mock.sup2 /\ config w = Some Mock.config2 /\
   py_index (p_wfss Mock.config2) 0 = Ok (mkWfsParam SH 8 52) /\
   display_dock (dock_name "slpComp_" 0) None w = (Ok (Some [0%Z]), W)) /\
  exists c q,
    Supervisor.getSlope Mock.sup2 = Ok c /\
    plsh (Np.slice c (first_ind Mock.config2 0)
                   (first_ind Mock.config2 0 + 2 * 52)) 8 (1 # 10) = Ok q /\
    drawn_since (dock_name "slpComp_" 0) w W
      [AxesClear; AxesQuiver q; CanvasDraw] /\
    Some [0%Z] = Some q.
Proof.
  intros w W.
  assert (H1 : supervisor w = Some Mock.sup2) by (vm_compute; reflexivity).
  assert (H2 : config w = Some Mock.config2) by (vm_compute; reflexivity).
  assert (H3 : py_index (p_wfss Mock.config2) (Z.of_nat 0)
               = Ok (mkWfsParam SH 8 52)) by (vm_compute; reflexivity).
  assert (H4 : is_pyr (wfs_type (mkWfsParam SH 8 52)) = false)
    by reflexivity.
  assert (H5 : display_dock (dock_name "slpComp_" 0) None w
               = (Ok (Some [0%Z]), W)) by (vm_compute; reflexivity).
  split; [conj; assumption |].
  apply (slpComp_dock_draws_its_slice (D := Mock.dom) 0 None (Some [0%Z]) w W Mock.sup2
           Mock.config2 (mkWfsParam SH 8 52) H1 H2 H3 H4 H5).
Defined.

(** X7 at work: the slopes of the pyramid sensor, after a dock that left
    a quiver behind. *)
Lemma slpComp_dock_of_a_pyramid_witness :
  let w := Mock.shown false in
  let key := dock_name "slpComp_" 1 in
  (supervisor w = Some Mock.sup2 /\ config w = Some Mock.config2 /\
   py_index (p_wfss Mock.config2) 1 = Ok (mkWfsParam PYRHR 16 200) /\
   Supervisor.getSlope Mock.sup2 = Ok [0%Z] /\
   dict_get key (imgs w) = Some (mkImg None []) /\
   wao_bound w = true) /\
  outcome (display_dock key (Some [7%Z])) w = Ok (Some [7%Z]) /\
  drawn_since key w (exec (display_dock key (Some [7%Z])) w)
    [AxesClear; AxesQuiver [7%Z]; CanvasDraw].
Proof.
  intros w key.
  assert (H1 : supervisor w = Some Mock.sup2) by (vm_compute; reflexivity).
  assert (H2 : config w = Some Mock.config2) by (vm_compute; reflexivity).
  assert (H3 : py_index (p_wfss Mock.config2) (Z.of_nat 1)
               = Ok (mkWfsParam PYRHR 16 200)) by (vm_compute; reflexivity).
  assert (H4 : is_pyr (wfs_type (mkWfsParam PYRHR 16 200)) = true)
    by reflexivity.
  assert (H5 : Supervisor.getSlope Mock.sup2 = Ok [0%Z])
    by (vm_compute; reflexivity).
  assert (H6 : dict_get key (imgs w) = Some (mkImg None []))
    by (vm_compute; reflexivity).
  assert (H7 : wao_bound w = true) by (vm_compute; reflexivity).
  split; [conj; assumption |].
  destruct (slpComp_dock_of_a_pyramid (D := Mock.dom) 1 (Some [7%Z]) w Mock.sup2 Mock.config2
              (mkWfsParam PYRHR 16 200) [0%Z] (mkImg None [])
              H1 H2 H3 H4 H5 H6) as [_ T].
  apply (T H7). vm_compute. reflexivity.
Defined.

(** X8 at work. *)
Lemma updateDisplay_only_reads_witness :
  let w := Mock.shown false in
  loopLock w = false /\
  beside_display (exec updateDisplay w) = beside_display w /\
  loopLock (exec updateDisplay w) = false.
Proof.
  intros w.
  assert (H : loopLock w = false) by (vm_compute; reflexivity).
  split; [exact H |].
  apply (updateDisplay_only_reads w H).
Defined.

(** X9 at work: the loaded window with the frame rate at 0. *)
Lemma loopOnce_at_frame_rate_zero_witness :
  let w := MockInit.unpaced in
  let W := exec loopOnce w in
  (loopLock w = false /\ supervisor w = Some Mock.sup2 /\
   fst (sim_step Mock.sup2) = Ok tt /\
   Qeq_bool (wao_frameRate (uiBase w)) 0 = true) /\
  outcome loopOnce w = Ok tt /\
  stdout W = (stdout w ++ ["error!!"])%list /\
  same_displays w W /\
  loopLock W = false.
Proof.
  intros w W.
  assert (H1 : loopLock w = false) by (vm_compute; reflexivity).
  assert (H2 : supervisor w = Some Mock.sup2) by (vm_compute; reflexivity).
  assert (H3 : fst (sim_step Mock.sup2) = Ok tt) by (vm_compute; reflexivity).
  assert (H4 : Qeq_bool (wao_frameRate (uiBase w)) 0 = true)
    by (vm_compute; reflexivity).
  split; [conj; assumption |].
  destruct (loopOnce_at_frame_rate_zero w Mock.sup2 H1 H2 H3 H4)
    as (A & B & _ & _ & C & E).
  conj; assumption.
Defined.

(** X10 at work: the button pressed before any supervisor is there. *)
Lemma aoLoopOpen_failure_keeps_label_witness :
  let w := Mock.fresh (Mock.steady 0 1) in
  outcome (aoLoopOpen true) w = Raise AttributeError /\
  uiAO (exec (aoLoopOpen true) w) = uiAO w.
Proof.
  intros w.
  assert (H : outcome (aoLoopOpen true) w = Raise AttributeError)
    by (vm_compute; reflexivity).
  split; [exact H |].
  apply (aoLoopOpen_failure_keeps_label true w AttributeError H).
Defined.

(** X11 at work: a supervisor that fails on the second of two targets. *)
Lemma resetSR_stops_at_first_failure_witness :
  let w := Mock.user 1000 false true false (Mock.loaded (Mock.steady 0 1)) in
  let e := ExternalError "no such target" in
  (wao_allTarget (uiAO w) = true /\ supervisor w = Some Mock.sup2 /\
   config w = Some Mock.config2 /\
   (1 < List.length (p_targets Mock.config2))%nat /\
   fst (Supervisor.resetStrehl (Ops := MockInit.faulty) 1
          (reset_all (SV := MockInit.faulty) (range 1) Mock.sup2)) = Raise e) /\
  outcome (resetSR (SV := MockInit.faulty)) w = Raise e /\
  calls (exec (resetSR (SV := MockInit.faulty)) w) =
  (calls w ++ [Call_resetStrehl 0; Call_resetStrehl 1])%list.
Proof.
  intros w e.
  assert (H1 : wao_allTarget (uiAO w) = true) by (vm_compute; reflexivity).
  assert (H2 : supervisor w = Some Mock.sup2) by (vm_compute; reflexivity).
  assert (H3 : config w = Some Mock.config2) by (vm_compute; reflexivity).
  assert (H4 : (1 < List.length (p_targets Mock.config2))%nat)
    by (vm_compute; lia).
  assert (H5 : forall k, (k < 1)%nat ->
             fst (Supervisor.resetStrehl (Ops := MockInit.faulty) (Z.of_nat k)
                    (reset_all (SV := MockInit.faulty) (range k) Mock.sup2))
             = Ok tt).
  { intros k Hk. assert (k = 0)%nat as -> by lia. vm_compute. reflexivity. }
  assert (H6 : fst (Supervisor.resetStrehl (Ops := MockInit.faulty)
                      (Z.of_nat 1)
                      (reset_all (SV := MockInit.faulty) (range 1) Mock.sup2))
               = Raise e) by (vm_compute; reflexivity).
  split; [conj; assumption |].
  destruct (resetSR_stops_at_first_failure (SV := MockInit.faulty) w Mock.sup2
              Mock.config2 1 e H1 H2 H3 H4 H5 H6) as (A & B & _).
  split; [exact A | exact B].
Defined.

(** X12 at work: the curves after a clear and two points. *)
Lemma strehl_curves_well_formed_witness :
  let w :=
    after [E_updateSRDisplay 1 1 1; E_signal wao_clearSR_clicked;
           E_updateSRDisplay 1 1 2; E_updateSRDisplay 1 1 3]
      (init_attributes "par" "layouts" false None
         (Mock.fresh (Mock.steady 0 1))) in
  helpers_preserve plot_inv /\
  List.length (fst (curveSRSE w)) = List.length (snd (curveSRSE w)) /\
  (List.length (fst (curveSRLE w)) <= 100)%nat.
Proof.
  intros w.
  assert (H : helpers_preserve plot_inv).
  { unfold helpers_preserve, preserves. conj; intros;
      match goal with Hx : plot_inv _ |- _ => exact Hx end. }
  split; [exact H |].
  destruct (strehl_curves_well_formed H "par" "layouts" false None
              (Mock.fresh (Mock.steady 0 1))
              [E_updateSRDisplay 1 1 1; E_signal wao_clearSR_clicked;
               E_updateSRDisplay 1 1 2; E_updateSRDisplay 1 1 3])
    as (A & _ & _ & B).
  split; [exact A | exact B].
Defined.

(** X14 at work: a configuration loaded from the file named in the
    GUI. *)
Lemma loadConfig_and_sys_path_witness :
  let w := Mock.fresh (Mock.steady 0 1) in
  (supplied (wao_selectConfig (uiBase w)) (Some Mock.sup2) = Ok Mock.sup2 /\
   Supervisor.getConfig Mock.sup2 = Ok Mock.config2 /\
   device_list (devices w) = Ok None) /\
  outcome (load_supervisor None (Some Mock.sup2)) w = Ok tt /\
  sys_path (exec (load_supervisor None (Some Mock.sup2)) w) = sys_path w.
Proof.
  intros w.
  assert (H1 : supplied (wao_selectConfig (uiBase w)) (Some Mock.sup2)
               = Ok Mock.sup2) by (vm_compute; reflexivity).
  assert (H2 : Supervisor.getConfig Mock.sup2 = Ok Mock.config2)
    by (vm_compute; reflexivity).
  assert (H3 : device_list (devices w) = Ok None) by (vm_compute; reflexivity).
  split; [conj; assumption |].
  destruct (loadConfig_and_sys_path (D := Mock.dom) (Some Mock.sup2) w) as (T & _).
  apply (T Mock.sup2 Mock.config2 None H1 H2 H3).
Defined.

(** X15 at work: three devices. *)
Lemma devices_are_read_back_witness :
  [0; 2; 13]%nat <> [] /\
  ints_of (PyStr.split "," (comma_list [0; 2; 13]%nat)) = Ok [0; 2; 13]%Z /\
  device_list (Some (comma_list [0; 2; 13]%nat)) = Ok (Some [0; 2; 13]%Z).
Proof.
  assert (H : [0; 2; 13]%nat <> []) by discriminate.
  split; [exact H |].
  apply (devices_are_read_back [0; 2; 13]%nat H).
Defined.


(** X17 at work: a comma at the end. *)
Lemma empty_device_field_raises_witness :
  "0,1," <> "" /\ In [] (PyStr.split "," "0,1,") /\
  device_list (Some "0,1,") = Raise ValueError.
Proof.
  assert (H1 : "0,1," <> "") by discriminate.
  assert (H2 : In [] (PyStr.split "," "0,1,")).
  { vm_compute. repeat (first [left; reflexivity | right]). }
  conj; try assumption.
  apply (empty_device_field_raises "0,1," H1 H2).
Defined.

(** X18 at work: a curvature sensor after a Shack-Hartmann. *)
Lemma create_docks_unknown_sensor_witness :
  let w := set_config (Some MockInit.config3) (Mock.fresh (Mock.steady 0 1)) in
  let W := exec create_docks w in
  (dock_helper_ok /\ config w = Some MockInit.config3 /\
   p_wfss MockInit.config3 =
     ([mkWfsParam SH 8 52] ++ mkWfsParam (OtherWFS "curvature") 4 10 :: [])%list /\
   forallb known_sensor [mkWfsParam SH 8 52] = true /\
   known_sensor (mkWfsParam (OtherWFS "curvature") 4 10) = false) /\
  outcome create_docks w = Raise TypeError /\
  nwfs W = 2%nat /\ ndm W = ndm w /\ ntar W = ntar w.
Proof.
  intros w W.
  assert (Hd : dock_helper_ok).
  { intros name g t. split; intros x; reflexivity. }
  assert (H1 : config w = Some MockInit.config3) by (vm_compute; reflexivity).
  assert (H2 : p_wfss MockInit.config3 =
               ([mkWfsParam SH 8 52]
                  ++ mkWfsParam (OtherWFS "curvature") 4 10 :: [])%list)
    by (vm_compute; reflexivity).
  assert (H3 : forallb known_sensor [mkWfsParam SH 8 52] = true)
    by (vm_compute; reflexivity).
  assert (H4 : known_sensor (mkWfsParam (OtherWFS "curvature") 4 10) = false)
    by (vm_compute; reflexivity).
  split; [conj; assumption |].
  destruct (create_docks_unknown_sensor MockInit.config3 [mkWfsParam SH 8 52]
              [] (mkWfsParam (OtherWFS "curvature") 4 10) w Hd H1 H2 H3 H4)
    as (A & _ & _ & B & C & E).
  conj; assumption.
Defined.


(** X20 at work: the overlays of the loaded window. *)
Lemma initConfigFinished_lays_the_overlays_witness :
  let w := Mock.loaded (Mock.steady 0 1) in
  let W := exec initConfigFinished w in
  (init_helpers_keep init_part /\ overlays_shown w /\
   config w = Some Mock.config2 /\ initConfigFinished w = (Ok tt, W)) /\
  overlays_shown W /\
  dict_get (dock_name "pyrFocalPlane_" 1) (PyrEdgeX W) <> None.
Proof.
  intros w W.
  assert (Hk : init_helpers_keep init_part).
  { unfold init_helpers_keep. conj; intros; intros ?; reflexivity. }
  assert (Ho : overlays_shown w).
  { unfold overlays_shown. conj; intros k it H; vm_compute in H;
      discriminate H. }
  assert (Hc : config w = Some Mock.config2) by (vm_compute; reflexivity).
  assert (Hr : initConfigFinished w = (Ok tt, W)) by (vm_compute; reflexivity).
  split; [conj; assumption |].
  destruct (initConfigFinished_lays_the_overlays w W Mock.config2 Hk Ho Hc Hr)
    as (A & _ & _ & _ & _ & B).
  split; [exact A |].
  apply (B 1%nat (mkWfsParam PYRHR 16 200)); reflexivity.
Defined.

(** X21 at work: the window before any configuration is loaded. *)
Lemma init_without_supervisor_witness :
  let w := Mock.fresh (Mock.steady 0 1) in
  supervisor w = None /\
  initConfig w = (Raise AttributeError, w) /\
  initConfigFinished w = (Raise AttributeError, w).
Proof.
  intros w.
  assert (H : supervisor w = None) by (vm_compute; reflexivity).
  split; [exact H |].
  apply (init_without_supervisor w H).
Defined.

End MoreExamples.
